(** * Metrics aggregation engine of node-red-contrib-metrics-collector

    A shallow embedding of [src/lib/metrics-collector.js] (class
    [MetricsCollector]) and [src/lib/node-red-hooks.js] (class
    [NodeRedHooks]), followed by the properties of the engine.

    Conventions of the embedding:
    - a JS [Map] is an association list in insertion order ([map_set]
      overwrites in place or appends, as [Map.prototype.set] does);
    - integer-valued JS numbers (counts, millisecond timestamps, option
      values) are [Z]; rates and durations in seconds are [Q];
    - [undefined] is [None];
    - [Date.now()] and the id produced by [generateMessageId] are explicit
      arguments of the handlers that read them;
    - the host's timers ([setTimeout], [setInterval], [clearTimeout],
      [clearInterval]) are an explicit table of pending timers;
    - a prom-client instrument is the table of values recorded into it, one
      entry per label set. *)

From Stdlib Require Import List String Ascii Bool Arith ZArith QArith Lia.
From Stdlib Require Import Permutation Sorted DecimalString.
Import ListNotations.

Local Open Scope Z_scope.

(* ===================================================================== *)
(** * Part I: the embedding                                               *)
(* ===================================================================== *)

(** ** Insertion-ordered maps (JS [Map], JS objects used as tables) *)

Section InsertionOrderedMap.
Context {K V : Type}.
Variable eq_dec : forall a b : K, {a = b} + {a <> b}.

(** [m.get(k)] *)
Fixpoint map_get (k : K) (m : list (K * V)) : option V :=
  match m with
  | [] => None
  | (k', v) :: m' => if eq_dec k k' then Some v else map_get k m'
  end.

(** [m.set(k, v)]: an existing key keeps its position, a new one goes last. *)
Fixpoint map_set (k : K) (v : V) (m : list (K * V)) : list (K * V) :=
  match m with
  | [] => [(k, v)]
  | (k', v') :: m' =>
      if eq_dec k k' then (k, v) :: m' else (k', v') :: map_set k v m'
  end.

(** [m.delete(k)] *)
Definition map_delete (k : K) (m : list (K * V)) : list (K * V) :=
  filter (fun e => if eq_dec k (fst e) then false else true) m.

Definition map_keys (m : list (K * V)) : list K := map fst m.

(** Keys of a [Map] are pairwise distinct. *)
Definition map_wf (m : list (K * V)) : Prop := NoDup (map_keys m).

End InsertionOrderedMap.

(** [m.get(k) || 0] for a table of counts. *)
Definition get_or0 {K : Type} (eq_dec : forall a b : K, {a = b} + {a <> b})
    (k : K) (m : list (K * Z)) : Z :=
  match map_get eq_dec k m with
  | Some v => v
  | None => 0
  end.

(** A JS [Set] in insertion order: [s.add(x)]; [s.size] is its length. *)
Definition set_add (x : string) (s : list string) : list string :=
  if in_dec string_dec x s then s else s ++ [x].

(** ** Metric keys *)

(** [`${nodeId}:${nodeType}:${flowId}`] *)
Definition metricKey (nodeId nodeType flowId : string) : string :=
  (nodeId ++ ":" ++ nodeType ++ ":" ++ flowId)%string.

(** [key.split(':')] *)
Fixpoint split_colon (s : string) : list string :=
  match s with
  | EmptyString => [EmptyString]
  | String c s' =>
      if Ascii.eqb c ":" then EmptyString :: split_colon s'
      else match split_colon s' with
           | [] => [String c EmptyString]
           | h :: t => String c h :: t
           end
  end.

Fixpoint has_colon (s : string) : bool :=
  match s with
  | EmptyString => false
  | String c s' => Ascii.eqb c ":" || has_colon s'
  end.

(** The label set of the per-node instruments: [node_id], [node_type],
    [flow_id]. *)
Definition labels : Type := option string * option string * option string.

(** [const [nodeId, nodeType, flowId] = key.split(':')]: components beyond
    the third are dropped, missing ones are [undefined]. *)
Definition parse_key (key : string) : labels :=
  let parts := split_colon key in
  (nth_error parts 0, nth_error parts 1, nth_error parts 2).

Definition key_nodeId (key : string) : option string := fst (fst (parse_key key)).
Definition key_nodeType (key : string) : option string := snd (fst (parse_key key)).
Definition key_flowId (key : string) : option string := snd (parse_key key).

Definition labels_dec : forall a b : labels, {a = b} + {a <> b}.
Proof. repeat decide equality. Defined.

(** Label set of the error counter: [node_id], [node_type], [flow_id],
    [error_type]. *)
Definition error_labels : Type := string * string * string * string.

Definition error_labels_dec : forall a b : error_labels, {a = b} + {a <> b}.
Proof. repeat decide equality. Defined.

(** [x && x !== 'undefined'] for a component of a split key. *)
Definition present (x : option string) : bool :=
  match x with
  | None => false
  | Some s => negb (String.eqb s "") && negb (String.eqb s "undefined")
  end.

Arguments present x : simpl never.
Arguments labels_dec a b : simpl never.
Arguments error_labels_dec a b : simpl never.

(** ** JS numbers handed to the histogram, and exceptions *)

Inductive jsnum : Type :=
| Finite (q : Q)
| NaN
| Infinity (negative : bool).

(** A call either returns or throws; the object state it leaves behind is
    kept in both cases. *)
Inductive outcome (S : Type) : Type :=
| Returned (s : S)
| Thrown (s : S).
Arguments Returned {S} s.
Arguments Thrown {S} s.

Definition state_of {S : Type} (o : outcome S) : S :=
  match o with Returned s => s | Thrown s => s end.

(** ** Host timers *)

Inductive callback : Type :=
| ProcessBatchCb        (* [() => this.processBatch()] *)
| CleanupCb             (* [() => this.cleanupTimingEntries()] *)
| PeriodicUpdateCb      (* the body of [startPeriodicUpdates] *)
| CollectCb.            (* the body of [MetricsCollector.start] *)

Record timer : Type := {
  timer_id : nat;
  timer_callback : callback;
  timer_delay : Z;
  timer_repeats : bool
}.

Record host : Type := {
  next_timer_id : nat;
  pending : list timer
}.

Definition host0 : host := {| next_timer_id := 1; pending := [] |}.

Definition arm (cb : callback) (delay : Z) (repeats : bool) (h : host)
  : nat * host :=
  (next_timer_id h,
   {| next_timer_id := S (next_timer_id h);
      pending := pending h ++
        [{| timer_id := next_timer_id h; timer_callback := cb;
            timer_delay := delay; timer_repeats := repeats |}] |}).

Definition setTimeout (cb : callback) (delay : Z) : host -> nat * host :=
  arm cb delay false.

Definition setInterval (cb : callback) (delay : Z) : host -> nat * host :=
  arm cb delay true.

Definition clearTimeout (id : nat) (h : host) : host :=
  {| next_timer_id := next_timer_id h;
     pending := filter (fun t => negb (Nat.eqb (timer_id t) id)) (pending h) |}.

Definition clearInterval : nat -> host -> host := clearTimeout.

Definition is_flush_timer (t : timer) : bool :=
  match timer_callback t with ProcessBatchCb => true | _ => false end.

(** The flush timers the host still holds. *)
Definition flush_timers (h : host) : list timer :=
  filter is_flush_timer (pending h).

(** ** Options (the defaults of both constructors, overridden by the
    caller's object) *)

Record Options : Type := {
  enableDetailedLogging : bool;
  maxTimingEntries : Z;
  batchSize : Z;
  flushInterval : Z;
  collectInterval : Z
}.

Definition default_options : Options :=
  {| enableDetailedLogging := false; maxTimingEntries := 1000;
     batchSize := 100; flushInterval := 1000; collectInterval := 5000 |}.

(* ===================================================================== *)
(** ** [class MetricsCollector] (src/lib/metrics-collector.js)            *)
(* ===================================================================== *)

Module Collector.

(** The instruments created by [initializeMetrics] and the two tracking
    maps.  The memory-usage and runtime-info gauges only receive readings of
    the host process and are left out. *)
Record t : Type := {
  options : Options;
  flowsTotal : Z;                               (* gauge without labels, 0 at creation *)
  flowsActive : Z;
  nodesTotal : list (string * Z);               (* gauge, label [type] *)
  nodesActive : list (string * Z);
  messagesTotal : list (labels * Z);            (* counter *)
  messagesPerSecond : list (labels * Q);        (* gauge *)
  errorsTotal : list (error_labels * Z);        (* counter *)
  nodeExecutionTime : list (labels * list Q);   (* histogram: observed values *)
  messageCounters : list (string * Z);
  lastMessageCounts : list (string * Z);
  collectIntervalHandle : option nat;           (* [this.collectInterval] *)
  isCollecting : bool
}.

(** [new MetricsCollector(options)] *)
Definition create (o : Options) : t :=
  {| options := o; flowsTotal := 0; flowsActive := 0;
     nodesTotal := []; nodesActive := [];
     messagesTotal := []; messagesPerSecond := []; errorsTotal := [];
     nodeExecutionTime := []; messageCounters := []; lastMessageCounts := [];
     collectIntervalHandle := None; isCollecting := false |}.

Definition with_flows (total active : Z) (c : t) : t :=
  {| options := options c; flowsTotal := total; flowsActive := active;
     nodesTotal := nodesTotal c; nodesActive := nodesActive c;
     messagesTotal := messagesTotal c;
     messagesPerSecond := messagesPerSecond c; errorsTotal := errorsTotal c;
     nodeExecutionTime := nodeExecutionTime c;
     messageCounters := messageCounters c;
     lastMessageCounts := lastMessageCounts c;
     collectIntervalHandle := collectIntervalHandle c;
     isCollecting := isCollecting c |}.

Definition with_nodes (total active : list (string * Z)) (c : t) : t :=
  {| options := options c; flowsTotal := flowsTotal c;
     flowsActive := flowsActive c;
     nodesTotal := total; nodesActive := active;
     messagesTotal := messagesTotal c;
     messagesPerSecond := messagesPerSecond c; errorsTotal := errorsTotal c;
     nodeExecutionTime := nodeExecutionTime c;
     messageCounters := messageCounters c;
     lastMessageCounts := lastMessageCounts c;
     collectIntervalHandle := collectIntervalHandle c;
     isCollecting := isCollecting c |}.

Definition with_messages (total : list (labels * Z))
    (counters : list (string * Z)) (c : t) : t :=
  {| options := options c; flowsTotal := flowsTotal c;
     flowsActive := flowsActive c;
     nodesTotal := nodesTotal c; nodesActive := nodesActive c;
     messagesTotal := total;
     messagesPerSecond := messagesPerSecond c; errorsTotal := errorsTotal c;
     nodeExecutionTime := nodeExecutionTime c;
     messageCounters := counters;
     lastMessageCounts := lastMessageCounts c;
     collectIntervalHandle := collectIntervalHandle c;
     isCollecting := isCollecting c |}.

Definition with_rates (rates : list (labels * Q))
    (last : list (string * Z)) (c : t) : t :=
  {| options := options c; flowsTotal := flowsTotal c;
     flowsActive := flowsActive c;
     nodesTotal := nodesTotal c; nodesActive := nodesActive c;
     messagesTotal := messagesTotal c;
     messagesPerSecond := rates; errorsTotal := errorsTotal c;
     nodeExecutionTime := nodeExecutionTime c;
     messageCounters := messageCounters c;
     lastMessageCounts := last;
     collectIntervalHandle := collectIntervalHandle c;
     isCollecting := isCollecting c |}.

Definition with_errors (errors : list (error_labels * Z)) (c : t) : t :=
  {| options := options c; flowsTotal := flowsTotal c;
     flowsActive := flowsActive c;
     nodesTotal := nodesTotal c; nodesActive := nodesActive c;
     messagesTotal := messagesTotal c;
     messagesPerSecond := messagesPerSecond c; errorsTotal := errors;
     nodeExecutionTime := nodeExecutionTime c;
     messageCounters := messageCounters c;
     lastMessageCounts := lastMessageCounts c;
     collectIntervalHandle := collectIntervalHandle c;
     isCollecting := isCollecting c |}.

Definition with_histogram (hist : list (labels * list Q)) (c : t) : t :=
  {| options := options c; flowsTotal := flowsTotal c;
     flowsActive := flowsActive c;
     nodesTotal := nodesTotal c; nodesActive := nodesActive c;
     messagesTotal := messagesTotal c;
     messagesPerSecond := messagesPerSecond c; errorsTotal := errorsTotal c;
     nodeExecutionTime := hist;
     messageCounters := messageCounters c;
     lastMessageCounts := lastMessageCounts c;
     collectIntervalHandle := collectIntervalHandle c;
     isCollecting := isCollecting c |}.

Definition with_collecting (handle : option nat) (b : bool) (c : t) : t :=
  {| options := options c; flowsTotal := flowsTotal c;
     flowsActive := flowsActive c;
     nodesTotal := nodesTotal c; nodesActive := nodesActive c;
     messagesTotal := messagesTotal c;
     messagesPerSecond := messagesPerSecond c; errorsTotal := errorsTotal c;
     nodeExecutionTime := nodeExecutionTime c;
     messageCounters := messageCounters c;
     lastMessageCounts := lastMessageCounts c;
     collectIntervalHandle := handle;
     isCollecting := b |}.

(** [counter.inc(labels)] of prom-client. *)
Definition inc {L : Type} (dec : forall a b : L, {a = b} + {a <> b})
    (l : L) (m : list (L * Z)) : list (L * Z) :=
  map_set dec l (get_or0 dec l m + 1) m.

(** [histogram.observe(labels, value)] of prom-client: a value that is not a
    finite number raises a [TypeError]; every finite value, whatever its
    sign, is added to the observations of the label set. *)
Definition observe (l : labels) (value : jsnum) (h : list (labels * list Q))
  : outcome (list (labels * list Q)) :=
  match value with
  | Finite q =>
      let seen := match map_get labels_dec l h with
                  | Some obs => obs
                  | None => []
                  end in
      Returned (map_set labels_dec l (seen ++ [q]) h)
  | _ => Thrown h
  end.

Definition labels_of (nodeId nodeType flowId : string) : labels :=
  (Some nodeId, Some nodeType, Some flowId).

(** [recordMessage(nodeId, nodeType, flowId)] *)
Definition recordMessage (nodeId nodeType flowId : string) (c : t) : t :=
  let total := inc labels_dec (labels_of nodeId nodeType flowId)
                   (messagesTotal c) in
  let key := metricKey nodeId nodeType flowId in
  with_messages total
    (map_set string_dec key (get_or0 string_dec key (messageCounters c) + 1)
       (messageCounters c)) c.

(** [recordError(nodeId, nodeType, flowId, errorType)] *)
Definition recordError (nodeId nodeType flowId errorType : string) (c : t)
  : t :=
  with_errors
    (inc error_labels_dec (nodeId, nodeType, flowId, errorType)
       (errorsTotal c)) c.

(** [recordNodeExecution(nodeId, nodeType, flowId, duration)]: the duration
    goes to the histogram as it is. *)
Definition recordNodeExecution (nodeId nodeType flowId : string)
    (duration : jsnum) (c : t) : outcome t :=
  match observe (labels_of nodeId nodeType flowId) duration
          (nodeExecutionTime c) with
  | Returned h => Returned (with_histogram h c)
  | Thrown h => Thrown (with_histogram h c)
  end.

(** [Math.max(0, currentCount - lastCount) / 5] *)
Definition rate_of (currentCount lastCount : Z) : Q :=
  Qmake (Z.max 0 (currentCount - lastCount)) 5.

(** One iteration of the loop of [calculateMessagesPerSecond]. *)
Definition rate_step (acc : list (labels * Q) * list (string * Z))
    (entry : string * Z) : list (labels * Q) * list (string * Z) :=
  let '(key, currentCount) := entry in
  let lastCount := get_or0 string_dec key (snd acc) in
  let rate := rate_of currentCount lastCount in
  (map_set labels_dec (parse_key key) rate (fst acc),
   map_set string_dec key currentCount (snd acc)).

(** [calculateMessagesPerSecond()] *)
Definition calculateMessagesPerSecond (c : t) : t :=
  let r := fold_left rate_step (messageCounters c)
             (messagesPerSecond c, lastMessageCounts c) in
  with_rates (fst r) (snd r) c.

(** The result object of [calculateRealFlowMetrics]. *)
Record FlowMetrics : Type := {
  totalFlows : Z;
  activeFlows : Z;
  flowIds : list string
}.

(** [calculateRealFlowMetrics()] *)
Definition calculateRealFlowMetrics (c : t) : FlowMetrics :=
  let uniqueFlows :=
    fold_left
      (fun (s : list string) (entry : string * Z) =>
         match key_flowId (fst entry) with
         | Some flowId =>
             if present (Some flowId) then set_add flowId s else s
         | None => s
         end)
      (messageCounters c) [] in
  let totalFlows := Z.of_nat (List.length uniqueFlows) in
  let activeFlows := totalFlows in
  {| totalFlows := totalFlows; activeFlows := activeFlows;
     flowIds := uniqueFlows |}.

(** The result object of [calculateRealNodeMetrics]. *)
Record NodeMetrics : Type := {
  nodeTypes : list (string * Z);
  activeNodeTypes : list (string * Z);
  totalNodes : Z
}.

(** The accumulators of the loop of [calculateRealNodeMetrics]. *)
Record NodeAcc : Type := {
  acc_nodeTypes : list (string * Z);
  acc_activeNodeTypes : list (string * Z);
  acc_uniqueNodes : list string
}.

Definition node_step (a : NodeAcc) (entry : string * Z) : NodeAcc :=
  match parse_key (fst entry) with
  | (Some nodeId, Some nodeType, _) =>
      if present (Some nodeType) then
        {| acc_uniqueNodes := set_add nodeId (acc_uniqueNodes a);
           acc_nodeTypes :=
             map_set string_dec nodeType
               (get_or0 string_dec nodeType (acc_nodeTypes a) + 1)
               (acc_nodeTypes a);
           acc_activeNodeTypes :=
             map_set string_dec nodeType
               (get_or0 string_dec nodeType (acc_activeNodeTypes a) + 1)
               (acc_activeNodeTypes a) |}
      else a
  | _ => a
  end.

(** [calculateRealNodeMetrics()].  The two objects indexed by node type are
    tables in insertion order; a node type is taken not to name a member of
    [Object.prototype], and the order in which [Object.keys] lists the types
    does not matter below, since each type writes its own label set. *)
Definition calculateRealNodeMetrics (c : t) : NodeMetrics :=
  let a := fold_left node_step (messageCounters c)
             {| acc_nodeTypes := []; acc_activeNodeTypes := [];
                acc_uniqueNodes := [] |} in
  {| nodeTypes := acc_nodeTypes a;
     activeNodeTypes := acc_activeNodeTypes a;
     totalNodes := Z.of_nat (List.length (acc_uniqueNodes a)) |}.

(** One step of the [forEach] over [Object.keys(nodeMetrics.nodeTypes)].
    Both objects always hold the type (they are filled together), so the
    [None] branches are never taken. *)
Definition set_node_gauges (nm : NodeMetrics)
    (g : list (string * Z) * list (string * Z)) (type : string)
  : list (string * Z) * list (string * Z) :=
  (match map_get string_dec type (nodeTypes nm) with
   | Some v => map_set string_dec type v (fst g)
   | None => fst g
   end,
   match map_get string_dec type (activeNodeTypes nm) with
   | Some v => map_set string_dec type v (snd g)
   | None => snd g
   end).

(** [updateMetricsFromRealData()]: the collector it leaves, and the object
    it returns. *)
Definition updateMetricsFromRealData (c : t) : t * (FlowMetrics * NodeMetrics) :=
  let flowMetrics := calculateRealFlowMetrics c in
  let c1 := if totalFlows flowMetrics >? 0
            then with_flows (totalFlows flowMetrics) (activeFlows flowMetrics) c
            else c in
  let nodeMetrics := calculateRealNodeMetrics c1 in
  let c2 := if totalNodes nodeMetrics >? 0
            then
              let g := fold_left (set_node_gauges nodeMetrics)
                         (map_keys (nodeTypes nodeMetrics))
                         (nodesTotal c1, nodesActive c1) in
              with_nodes (fst g) (snd g) c1
            else c1 in
  (c2, (flowMetrics, nodeMetrics)).

(** [start()]: the period of the timer is the literal 5000. *)
Definition start (h : host) (c : t) : host * t :=
  if isCollecting c then (h, c)
  else
    let (id, h') := setInterval CollectCb 5000 h in
    (h', with_collecting (Some id) true c).

(** [stop()] *)
Definition stop (h : host) (c : t) : host * t :=
  if negb (isCollecting c) then (h, c)
  else
    match collectIntervalHandle c with
    | Some id => (clearInterval id h, with_collecting None false c)
    | None => (h, with_collecting None false c)
    end.

End Collector.

(* ===================================================================== *)
(** ** Host events (src/lib/node-red-hooks.js, the shapes it reads)       *)
(* ===================================================================== *)

(** [{id, type, z}] *)
Record NodeInfo : Type := {
  node_id : option string;
  node_type : option string;
  node_z : option string
}.

(** The [source], [destination] or [node] member of an event: the fields of
    the node, directly or under a nested [node] member. *)
Record Descriptor : Type := {
  d_node : option NodeInfo;
  d_id : option string;
  d_type : option string;
  d_z : option string
}.

(** [msgid] stands for [event.msg?._msgid]. *)
Record SendEvent : Type := {
  source : option Descriptor;
  send_msgid : option string
}.

Record ReceiveEvent : Type := {
  destination : option Descriptor;
  receive_msgid : option string
}.

(** [error] is [None] when the event has no (truthy) [error] member;
    otherwise it holds [error.name]. *)
Record CompleteEvent : Type := {
  node : option Descriptor;
  complete_msgid : option string;
  error : option (option string)
}.

(** [a || d] for a string or [undefined]: the empty string is falsy. *)
Definition or_default (a : option string) (d : string) : string :=
  match a with
  | Some s => if String.eqb s "" then d else s
  | None => d
  end.

Definition or_else (a b : option string) : option string :=
  match a with
  | Some s => if String.eqb s "" then b else a
  | None => b
  end.

(** [node?.f || x?.f || 'unknown'] where [node = x?.node || x]. *)
Definition extract (x : option Descriptor)
    (of_node : NodeInfo -> option string)
    (of_descriptor : Descriptor -> option string) : string :=
  let direct := match x with Some d => of_descriptor d | None => None end in
  let through_node :=
    match x with
    | Some d => match d_node d with
                | Some n => of_node n
                | None => of_descriptor d
                end
    | None => None
    end in
  or_default (or_else through_node direct) "unknown".

Definition extract_id (x : option Descriptor) : string :=
  extract x node_id d_id.
Definition extract_type (x : option Descriptor) : string :=
  extract x node_type d_type.
Definition extract_z (x : option Descriptor) : string :=
  extract x node_z d_z.

(** [`${nodeId}_${messageId}`] *)
Definition timingKey (nodeId messageId : string) : string :=
  (nodeId ++ "_" ++ messageId)%string.

(* ===================================================================== *)
(** ** [class NodeRedHooks] (src/lib/node-red-hooks.js)                   *)
(* ===================================================================== *)

Module Hooks.

Inductive event_type : Type := send | receive | complete.

(** An element of [messageBatch]: [{ nodeId, nodeType, flowId, type }]. *)
Record BatchRecord : Type := {
  nodeId : string;
  nodeType : string;
  flowId : string;
  type : event_type
}.

Record t : Type := {
  options : Options;
  isInitialized : bool;
  updateInterval : option nat;
  messageStartTimes : list (string * Z);
  messageBatch : list BatchRecord;
  batchTimer : option nat;
  cleanupTimer : option nat
}.

(** The engine: the host's timer table, the collector object and the hooks
    object that holds a reference to it. *)
Record World : Type := {
  timers : host;
  metricsCollector : Collector.t;
  hooks : t
}.

Definition with_timing (table : list (string * Z)) (h : t) : t :=
  {| options := options h; isInitialized := isInitialized h;
     updateInterval := updateInterval h;
     messageStartTimes := table;
     messageBatch := messageBatch h; batchTimer := batchTimer h;
     cleanupTimer := cleanupTimer h |}.

Definition with_batch (queue : list BatchRecord) (timer : option nat) (h : t)
  : t :=
  {| options := options h; isInitialized := isInitialized h;
     updateInterval := updateInterval h;
     messageStartTimes := messageStartTimes h;
     messageBatch := queue; batchTimer := timer;
     cleanupTimer := cleanupTimer h |}.

Definition with_intervals (update cleanup : option nat) (h : t) : t :=
  {| options := options h; isInitialized := isInitialized h;
     updateInterval := update;
     messageStartTimes := messageStartTimes h;
     messageBatch := messageBatch h; batchTimer := batchTimer h;
     cleanupTimer := cleanup |}.

Definition with_initialized (b : bool) (h : t) : t :=
  {| options := options h; isInitialized := b;
     updateInterval := updateInterval h;
     messageStartTimes := messageStartTimes h;
     messageBatch := messageBatch h; batchTimer := batchTimer h;
     cleanupTimer := cleanupTimer h |}.

Definition with_hooks (h : t) (w : World) : World :=
  {| timers := timers w; metricsCollector := metricsCollector w; hooks := h |}.

Definition with_collector (c : Collector.t) (w : World) : World :=
  {| timers := timers w; metricsCollector := c; hooks := hooks w |}.

(** [new NodeRedHooks(metricsCollector, options)]: the constructor ends
    with [startCleanupTimer()], a 30 s interval. *)
Definition create (o : Options) (h : host) (c : Collector.t) : World :=
  let (id, h') := setInterval CleanupCb 30000 h in
  {| timers := h'; metricsCollector := c;
     hooks := {| options := o; isInitialized := false;
                 updateInterval := None; messageStartTimes := [];
                 messageBatch := []; batchTimer := None;
                 cleanupTimer := Some id |} |}.

(** [entries.sort((a, b) => a[1] - b[1])]: ascending start time, entries of
    equal time in their original order. *)
Fixpoint insert_by_time (e : string * Z) (l : list (string * Z))
  : list (string * Z) :=
  match l with
  | [] => [e]
  | e' :: l' =>
      if snd e <=? snd e' then e :: l else e' :: insert_by_time e l'
  end.

Definition sort_by_time (l : list (string * Z)) : list (string * Z) :=
  fold_right insert_by_time [] l.

Definition maxAge : Z := 60000.

(** The first block of [cleanupTimingEntries]: the entries to remove, i.e.
    [entries.slice(0, entries.length - maxTimingEntries)] of the sorted
    entries, when the table is over its limit. *)
Definition toRemove (h : t) : list (string * Z) :=
  let table := messageStartTimes h in
  if Z.of_nat (List.length table) >? maxTimingEntries (options h) then
    let entries := sort_by_time table in
    firstn (Z.to_nat (Z.of_nat (List.length entries)
                      - maxTimingEntries (options h))) entries
  else [].

(** [cleanupTimingEntries()], run at time [now]. *)
Definition cleanupTimingEntries (now : Z) (h : t) : t :=
  let table1 :=
    fold_left (fun m e => map_delete string_dec (fst e) m)
      (toRemove h) (messageStartTimes h) in
  let table2 :=
    fold_left
      (fun m (e : string * Z) =>
         if now - snd e >? maxAge then map_delete string_dec (fst e) m
         else m)
      table1 table1 in
  with_timing table2 h.

(** The [batch.forEach] of [processBatch]: every record of the batch is
    counted as a message, whatever its [type]. *)
Definition record_batch (batch : list BatchRecord) (c : Collector.t)
  : Collector.t :=
  fold_left
    (fun c r => Collector.recordMessage (nodeId r) (nodeType r) (flowId r) c)
    batch c.

(** [processBatch()] *)
Definition processBatch (w : World) : World :=
  let h := hooks w in
  match messageBatch h with
  | [] => w
  | _ :: _ =>
      let n := Z.to_nat (batchSize (options h)) in
      let batch := firstn n (messageBatch h) in       (* [splice(0, batchSize)] *)
      let rest := skipn n (messageBatch h) in
      let c := record_batch batch (metricsCollector w) in
      match rest with
      | _ :: _ =>
          let (id, host') :=
            setTimeout ProcessBatchCb (flushInterval (options h)) (timers w) in
          {| timers := host'; metricsCollector := c;
             hooks := with_batch rest (Some id) h |}
      | [] =>
          {| timers := timers w; metricsCollector := c;
             hooks := with_batch rest None h |}
      end
  end.

(** [addToBatch(nodeId, nodeType, flowId, type)] *)
Definition addToBatch (nodeId nodeType flowId : string) (type : event_type)
    (w : World) : World :=
  let h := hooks w in
  let queue := messageBatch h ++
                 [{| nodeId := nodeId; nodeType := nodeType;
                     flowId := flowId; type := type |}] in
  let w1 := with_hooks (with_batch queue (batchTimer h) h) w in
  if Z.of_nat (List.length queue) >=? batchSize (options h) then
    processBatch w1
  else
    match batchTimer h with
    | None =>
        let (id, host') :=
          setTimeout ProcessBatchCb (flushInterval (options h)) (timers w1) in
        {| timers := host'; metricsCollector := metricsCollector w1;
           hooks := with_batch queue (Some id) h |}
    | Some _ => w1
    end.

(** [handleSendEvent(sendEvent)] at time [now]; [generated] is what
    [generateMessageId()] would return. *)
Definition handleSendEvent (now : Z) (generated : string) (ev : SendEvent)
    (w : World) : World :=
  let nodeId := extract_id (source ev) in
  let nodeType := extract_type (source ev) in
  let flowId := extract_z (source ev) in
  let messageId := or_default (send_msgid ev) generated in
  let w1 := with_collector
              (Collector.recordMessage nodeId nodeType flowId
                 (metricsCollector w)) w in
  let w2 := addToBatch nodeId nodeType flowId send w1 in
  with_hooks
    (with_timing
       (map_set string_dec (timingKey nodeId messageId) now
          (messageStartTimes (hooks w2)))
       (hooks w2)) w2.

(** [handleReceiveEvent(receiveEvent)] *)
Definition handleReceiveEvent (now : Z) (generated : string)
    (ev : ReceiveEvent) (w : World) : World :=
  let nodeId := extract_id (destination ev) in
  let nodeType := extract_type (destination ev) in
  let flowId := extract_z (destination ev) in
  let w1 := addToBatch nodeId nodeType flowId receive w in
  let messageId := or_default (receive_msgid ev) generated in
  with_hooks
    (with_timing
       (map_set string_dec (timingKey nodeId messageId) now
          (messageStartTimes (hooks w1)))
       (hooks w1)) w1.

(** [handleCompleteEvent(completeEvent)].  [if (startTime)] also skips a
    start time of 0; an exception of the inner block is counted as a
    [complete_processing] error. *)
Definition handleCompleteEvent (now : Z) (ev : CompleteEvent) (w : World)
  : World :=
  let nodeId := extract_id (node ev) in
  let nodeType := extract_type (node ev) in
  let flowId := extract_z (node ev) in
  let messageId := or_default (complete_msgid ev) "unknown" in
  let w1 := addToBatch nodeId nodeType flowId complete w in
  let key := timingKey nodeId messageId in
  let timed : outcome World :=
    match map_get string_dec key (messageStartTimes (hooks w1)) with
    | Some startTime =>
        if startTime =? 0 then Returned w1
        else
          let executionTime := Qmake (now - startTime) 1000 in
          match Collector.recordNodeExecution nodeId nodeType flowId
                  (Finite executionTime) (metricsCollector w1) with
          | Returned c =>
              Returned
                {| timers := timers w1; metricsCollector := c;
                   hooks := with_timing
                              (map_delete string_dec key
                                 (messageStartTimes (hooks w1)))
                              (hooks w1) |}
          | Thrown c => Thrown (with_collector c w1)
          end
    | None => Returned w1
    end in
  match timed with
  | Returned w2 =>
      match error ev with
      | Some name =>
          let errorType := or_default name "execution" in
          with_collector
            (Collector.recordError nodeId nodeType flowId errorType
               (metricsCollector w2)) w2
      | None => w2
      end
  | Thrown w2 =>
      with_collector
        (Collector.recordError nodeId nodeType flowId "complete_processing"
           (metricsCollector w2)) w2
  end.

(** [collectFlowMetrics()] and [collectNodeTypeMetrics()] both come down to
    [this.metricsCollector.updateMetricsFromRealData()]. *)
Definition collectFlowMetrics (w : World) : World :=
  with_collector
    (fst (Collector.updateMetricsFromRealData (metricsCollector w))) w.

Definition collectNodeTypeMetrics (w : World) : World :=
  with_collector
    (fst (Collector.updateMetricsFromRealData (metricsCollector w))) w.

(** [startPeriodicUpdates()] *)
Definition startPeriodicUpdates (w : World) : World :=
  let h := hooks w in
  let (id, host') :=
    setInterval PeriodicUpdateCb (collectInterval (options h)) (timers w) in
  {| timers := host'; metricsCollector := metricsCollector w;
     hooks := with_intervals (Some id) (cleanupTimer h) h |}.

(** [init(RED)], for a runtime object that offers the hook interface. *)
Definition init (w : World) : World :=
  if isInitialized (hooks w) then w
  else startPeriodicUpdates (with_hooks (with_initialized true (hooks w)) w).

Definition clear_handle (handle : option nat) (h : host) : host :=
  match handle with
  | Some id => clearTimeout id h
  | None => h
  end.

(** [stop()] *)
Definition stop (w : World) : World :=
  let h := hooks w in
  let host1 := clear_handle (updateInterval h) (timers w) in
  let host2 := clear_handle (cleanupTimer h) host1 in
  let host3 := clear_handle (batchTimer h) host2 in
  let w1 := {| timers := host3; metricsCollector := metricsCollector w;
               hooks := with_batch (messageBatch h) None
                          (with_intervals None None h) |} in
  let w2 := processBatch w1 in
  with_hooks
    (with_initialized false
       (with_batch [] (batchTimer (hooks w2))
          (with_timing [] (hooks w2)))) w2.

End Hooks.

(* ===================================================================== *)
(** ** The engine as the host drives it                                   *)
(* ===================================================================== *)

Module Engine.

Import Hooks.

(** [new NodeRedFlowMetrics(options)] of src/index.js: a collector, then the
    hooks over it. *)
Definition create (o : Options) : World :=
  Hooks.create o host0 (Collector.create o).

(** The first [init(RED)] of src/index.js: [nodeRedHooks.init(RED)], then
    [metricsCollector.start()]; starting the HTTP exporter is outside the
    engine. *)
Definition init (w : World) : World :=
  let w1 := Hooks.init w in
  let (h, c) := Collector.start (timers w1) (metricsCollector w1) in
  {| timers := h; metricsCollector := c; hooks := hooks w1 |}.

(** What a timer runs when it fires. *)
Definition run_callback (now : Z) (cb : callback) (w : World) : World :=
  match cb with
  | ProcessBatchCb => processBatch w
  | CleanupCb => with_hooks (cleanupTimingEntries now (hooks w)) w
  | PeriodicUpdateCb => collectNodeTypeMetrics (collectFlowMetrics w)
  | CollectCb =>
      with_collector
        (Collector.calculateMessagesPerSecond (metricsCollector w)) w
  end.

(** The host fires the pending timer [id] at time [now]: a timeout leaves
    the table, an interval stays. *)
Definition fire (now : Z) (id : nat) (w : World) : World :=
  match find (fun t => Nat.eqb (timer_id t) id) (pending (timers w)) with
  | None => w
  | Some t =>
      let w1 :=
        if timer_repeats t then w
        else {| timers := clearTimeout id (timers w);
                metricsCollector := metricsCollector w; hooks := hooks w |} in
      run_callback now (timer_callback t) w1
  end.

(** What the host can do to the engine. *)
Inductive action : Type :=
| Send (now : Z) (generated : string) (ev : SendEvent)
| Receive (now : Z) (generated : string) (ev : ReceiveEvent)
| Complete (now : Z) (ev : CompleteEvent)
| Fire (now : Z) (id : nat)
| Stop.

Definition step (w : World) (a : action) : World :=
  match a with
  | Send now g ev => handleSendEvent now g ev w
  | Receive now g ev => handleReceiveEvent now g ev w
  | Complete now ev => handleCompleteEvent now ev w
  | Fire now id => fire now id w
  | Stop => Hooks.stop w
  end.

Definition run (w : World) (actions : list action) : World :=
  fold_left step actions w.

End Engine.

(* ===================================================================== *)
(** ** Vocabulary of the statements                                       *)
(* ===================================================================== *)

(** *** Options with one member overridden *)

(** An options object with one member overridden. *)
Definition with_batchSize (n : Z) (o : Options) : Options :=
  {| enableDetailedLogging := enableDetailedLogging o;
     maxTimingEntries := maxTimingEntries o;
     batchSize := n; flushInterval := flushInterval o;
     collectInterval := collectInterval o |}.

Definition with_collectInterval (n : Z) (o : Options) : Options :=
  {| enableDetailedLogging := enableDetailedLogging o;
     maxTimingEntries := maxTimingEntries o;
     batchSize := batchSize o; flushInterval := flushInterval o;
     collectInterval := n |}.

Definition with_maxTimingEntries (n : Z) (o : Options) : Options :=
  {| enableDetailedLogging := enableDetailedLogging o;
     maxTimingEntries := n;
     batchSize := batchSize o; flushInterval := flushInterval o;
     collectInterval := collectInterval o |}.

Definition with_flushInterval (n : Z) (o : Options) : Options :=
  {| enableDetailedLogging := enableDetailedLogging o;
     maxTimingEntries := maxTimingEntries o;
     batchSize := batchSize o; flushInterval := n;
     collectInterval := collectInterval o |}.

(** *** Message counters *)

(** A sequence of [recordMessage] calls, each given by its three
    arguments. *)
Definition record_all (calls : list (string * string * string))
    (c : Collector.t) : Collector.t :=
  fold_left
    (fun c (call : string * string * string) =>
       let '(nodeId, nodeType, flowId) := call in
       Collector.recordMessage nodeId nodeType flowId c)
    calls c.

(** How many of the calls were made for the serialized key [k]. *)
Definition calls_with_key (k : string)
    (calls : list (string * string * string)) : nat :=
  List.length
    (filter (fun call : string * string * string =>
               let '(nodeId, nodeType, flowId) := call in
               String.eqb (metricKey nodeId nodeType flowId) k)
       calls).

(** How many of the calls were made for the label set [l]. *)
Definition calls_with_labels (l : labels)
    (calls : list (string * string * string)) : nat :=
  List.length
    (filter (fun call : string * string * string =>
               let '(nodeId, nodeType, flowId) := call in
               if labels_dec (Collector.labels_of nodeId nodeType flowId) l
               then true else false)
       calls).

(** A call whose three arguments hold no colon. *)
Definition colon_free (call : string * string * string) : Prop :=
  let '(nodeId, nodeType, flowId) := call in
  has_colon nodeId = false /\ has_colon nodeType = false
  /\ has_colon flowId = false.

(** *** Rates *)

(** The rate as the specification words it: the clamped delta divided by
    the configured collection interval converted to seconds. *)
Definition specified_rate (o : Options) (currentTotal previousSample : Z) : Q :=
  (inject_Z (Z.max 0 (currentTotal - previousSample))
   / (inject_Z (collectInterval o) / inject_Z 1000))%Q.

(** [n] calls of [recordMessage] for the node [n1]. *)
Definition n1_calls (n : nat) : list (string * string * string) :=
  repeat ("n1"%string, "inject"%string, "f1"%string) n.

(** A collector configured with a 10 s collection interval that has counted
    50 messages of one key, sampled them, and counted 30 more. *)
Definition sampled_50_then_80 : Collector.t :=
  record_all (n1_calls 30)
    (Collector.calculateMessagesPerSecond
       (record_all (n1_calls 50)
          (Collector.create (with_collectInterval 10000 default_options)))).

(** *** Inventory *)


(** Whether [calculateRealNodeMetrics] counts the entry: its key has a
    second component that is neither empty nor the text [undefined]. *)
Definition typed (entry : string * Z) : bool :=
  present (key_nodeType (fst entry)).








(** The operations of the collector, as a caller sequences them. *)
Inductive collector_op : Type :=
| RecordMessage (nodeId nodeType flowId : string)
| RecordError (nodeId nodeType flowId errorType : string)
| RecordNodeExecution (nodeId nodeType flowId : string) (duration : jsnum)
| CalculateMessagesPerSecond
| UpdateMetricsFromRealData.

Definition apply_op (c : Collector.t) (o : collector_op) : Collector.t :=
  match o with
  | RecordMessage n ty f => Collector.recordMessage n ty f c
  | RecordError n ty f e => Collector.recordError n ty f e c
  | RecordNodeExecution n ty f d =>
      state_of (Collector.recordNodeExecution n ty f d c)
  | CalculateMessagesPerSecond => Collector.calculateMessagesPerSecond c
  | UpdateMetricsFromRealData => fst (Collector.updateMetricsFromRealData c)
  end.

Definition apply_ops (c : Collector.t) (ops : list collector_op)
  : Collector.t :=
  fold_left apply_op ops c.

(** The active gauges repeat the total gauges. *)
Definition gauges_agree (c : Collector.t) : Prop :=
  Collector.flowsActive c = Collector.flowsTotal c
  /\ Collector.nodesActive c = Collector.nodesTotal c.

(** *** Events of the node [n1] *)

(** The scenario of one message through the [inject] node [n1] of flow
    [f1]. *)
Definition n1_inject_f1 : Descriptor :=
  {| d_node := None; d_id := Some "n1"%string; d_type := Some "inject"%string;
     d_z := Some "f1"%string |}.

(** Its send and complete events for the message [m1]. *)
Definition send_m1 : SendEvent :=
  {| source := Some n1_inject_f1; send_msgid := Some "m1"%string |}.

Definition complete_m1 : CompleteEvent :=
  {| node := Some n1_inject_f1; complete_msgid := Some "m1"%string;
     error := None |}.

(** A receive event of the node [n1] for message [msgid]. *)
Definition receive_of (msgid : string) : ReceiveEvent :=
  {| destination := Some n1_inject_f1; receive_msgid := Some msgid |}.

(** *** Timing table *)

(** Age of a timing entry at time [now]. *)
Definition age (now : Z) (entry : string * Z) : Z := now - snd entry.

(** Whether an entry has outlived [maxAge] at time [now]. *)
Definition expired (now : Z) (e : string * Z) : bool :=
  now - snd e >? Hooks.maxAge.

(** Whether key [k] is among [ks]. *)
Definition key_in (k : string) (ks : list string) : bool :=
  existsb (String.eqb k) ks.

(** Order of the entries by start time. *)
Definition by_time (a b : string * Z) : Prop := snd a <= snd b.

(** An engine limited to two timing entries that has seen three messages
    begin, at times 300, 100 and 200. *)
Definition three_begun : Hooks.t :=
  Hooks.hooks
    (Engine.run (Engine.create (with_maxTimingEntries 2 default_options))
       [Engine.Receive 300 "g1" (receive_of "m3");
        Engine.Receive 100 "g2" (receive_of "m1");
        Engine.Receive 200 "g3" (receive_of "m2")]).

(** A hooks object whose timing table is [table]. *)
Definition hooks_with_table (o : Options) (table : list (string * Z))
  : Hooks.t :=
  Hooks.with_timing table
    (Hooks.hooks (Hooks.create o host0 (Collector.create o))).

(** [n] timing entries of distinct keys and distinct start times
    [0 .. n-1], begun in a scrambled order. *)
Definition begun_entries (n : nat) : list (string * Z) :=
  map (fun i : nat =>
         (timingKey "n1" (NilEmpty.string_of_uint (Nat.to_uint i)),
          (Z.of_nat i * 7919) mod Z.of_nat n))
    (seq 0 n).

(** *** Batcher and timers *)

(** The ids of the timers the host holds. *)
Definition timer_ids (h : host) : list nat := map timer_id (pending h).

(** [messageCounters.get(key) || 0] of the engine's collector. *)
Definition counter_of (key : string) (w : Hooks.World) : Z :=
  get_or0 string_dec key
    (Collector.messageCounters (Hooks.metricsCollector w)).

(** Enqueuing a list of records, one [addToBatch] after the other. *)
Definition enqueue_all (rs : list Hooks.BatchRecord) (w : Hooks.World)
  : Hooks.World :=
  fold_left
    (fun w r =>
       Hooks.addToBatch (Hooks.nodeId r) (Hooks.nodeType r) (Hooks.flowId r)
         (Hooks.type r) w)
    rs w.

(** The timeout that [addToBatch] and [processBatch] arm. *)
Definition flush_timer (id : nat) (o : Options) : timer :=
  {| timer_id := id; timer_callback := ProcessBatchCb;
     timer_delay := flushInterval o; timer_repeats := false |}.

(** The batch size is positive and the queue is shorter than it. *)
Definition queue_below_batch_size (w : Hooks.World) : Prop :=
  1 <= batchSize (Hooks.options (Hooks.hooks w))
  /\ Z.of_nat (List.length (Hooks.messageBatch (Hooks.hooks w)))
     < batchSize (Hooks.options (Hooks.hooks w)).

(** The batcher at rest: nothing queued, no handle, no flush timer in the
    host. *)
Definition batcher_at_rest (w : Hooks.World) : Prop :=
  Hooks.messageBatch (Hooks.hooks w) = []
  /\ Hooks.batchTimer (Hooks.hooks w) = None
  /\ flush_timers (Hooks.timers w) = [].

(** The ids of the pending timers are below the next id to hand out. *)
Definition host_wf (h : host) : Prop :=
  Forall (fun t => (timer_id t < next_timer_id h)%nat) (pending h).

(** The handles of the two intervals of the hooks were issued by the host
    before its next timer id. *)
Definition handles_issued (w : Hooks.World) : Prop :=
  forall id,
    In (Some id)
      [Hooks.updateInterval (Hooks.hooks w); Hooks.cleanupTimer (Hooks.hooks w)] ->
    (id < next_timer_id (Hooks.timers w))%nat.

(** *** Scenarios *)

(** The time of the send event of the scenario (any non-zero clock reading
    would do). *)
Definition t0 : Z := 1700000000000.

(** A new, initialised engine flushing every 100 ms.  Its timers 1, 2 and 3
    are the cleanup, periodic-update and collection intervals, so the first
    flush timer it arms is timer 4. *)
Definition fresh_engine : Hooks.World :=
  Engine.init (Engine.create (with_flushInterval 100 default_options)).

(** The scenario: the send event; the flush timer it armed fires after
    100 ms; the complete event arrives 120 ms after the send event. *)
Definition after_send : Hooks.World :=
  Engine.run fresh_engine [Engine.Send t0 "g" send_m1].

Definition after_flush : Hooks.World :=
  Engine.run after_send [Engine.Fire (t0 + 100) 4].

Definition after_complete : Hooks.World :=
  Engine.run after_flush [Engine.Complete (t0 + 120) complete_m1].

(** The flush timer armed by the complete event (timer 5) fires in turn. *)
Definition after_second_flush : Hooks.World :=
  Engine.run after_complete [Engine.Fire (t0 + 220) 5].

(** The batcher alone, with a batch size of 2: an empty queue, no flush
    timer. *)
Definition small_batcher : Hooks.World :=
  Hooks.create (with_batchSize 2 default_options) host0
    (Collector.create (with_batchSize 2 default_options)).

(** One more record for the node [n1]. *)
Definition enqueue (w : Hooks.World) : Hooks.World :=
  Hooks.addToBatch "n1" "inject" "f1" Hooks.receive w.

(** An initialised engine with a batch size of 2 that receives three
    messages and is then stopped. *)
Definition small_engine : Hooks.World :=
  Engine.init (Engine.create (with_batchSize 2 default_options)).

Definition three_received : Hooks.World :=
  Engine.run small_engine
    [Engine.Receive t0 "g1" (receive_of "m1");
     Engine.Receive (t0 + 1) "g2" (receive_of "m2");
     Engine.Receive (t0 + 2) "g3" (receive_of "m3")].

Definition stopped : Hooks.World := Engine.run three_received [Engine.Stop].

(** *** Further listeners of [NodeRedHooks] *)

Module Listeners.

(** [{ node: {id, type, z}, error: {name} }]; [error_name] stands for
    [event.error?.name]. *)
Record NodeErrorEvent : Type := {
  error_node : option NodeInfo;
  node_error_name : option string
}.

(** [{ flow: {id}, error: {name} }]; [flow_id] stands for [event.flow?.id]. *)
Record FlowErrorEvent : Type := {
  flow_id : option string;
  flow_error_name : option string
}.

Definition field_of (n : option NodeInfo) (f : NodeInfo -> option string)
  : option string :=
  match n with Some i => f i | None => None end.

(** The label set [handleNodeError(event)] counts the error under. *)
Definition node_error_labels (ev : NodeErrorEvent) : error_labels :=
  (or_default (field_of (error_node ev) node_id) "unknown",
   or_default (field_of (error_node ev) node_type) "unknown",
   or_default (field_of (error_node ev) node_z) "unknown",
   or_default (node_error_name ev) "runtime").

(** [handleNodeError(event)] *)
Definition handleNodeError (ev : NodeErrorEvent) (w : Hooks.World)
  : Hooks.World :=
  let '(nodeId, nodeType, flowId, errorType) := node_error_labels ev in
  Hooks.with_collector
    (Collector.recordError nodeId nodeType flowId errorType
       (Hooks.metricsCollector w)) w.

(** The label set [handleFlowError(event)] counts the error under. *)
Definition flow_error_labels (ev : FlowErrorEvent) : error_labels :=
  ("flow"%string, "flow"%string, or_default (flow_id ev) "unknown",
   or_default (flow_error_name ev) "flow").

(** [handleFlowError(event)] *)
Definition handleFlowError (ev : FlowErrorEvent) (w : Hooks.World)
  : Hooks.World :=
  let '(nodeId, nodeType, flowId, errorType) := flow_error_labels ev in
  Hooks.with_collector
    (Collector.recordError nodeId nodeType flowId errorType
       (Hooks.metricsCollector w)) w.

(** The listener of [flows:stopped]: [this.messageStartTimes.clear()]. *)
Definition flowsStopped (w : Hooks.World) : Hooks.World :=
  Hooks.with_hooks (Hooks.with_timing [] (Hooks.hooks w)) w.

(** The error notifications of the event bus. *)
Inductive error_event : Type :=
| NodeError (ev : NodeErrorEvent)
| FlowError (ev : FlowErrorEvent).

Definition labels_of_error (e : error_event) : error_labels :=
  match e with
  | NodeError ev => node_error_labels ev
  | FlowError ev => flow_error_labels ev
  end.

Definition handle_error (w : Hooks.World) (e : error_event) : Hooks.World :=
  match e with
  | NodeError ev => handleNodeError ev w
  | FlowError ev => handleFlowError ev w
  end.

End Listeners.

(** *** Accounting of the events *)

(** The metric key an action contributes to, and how often the code counts
    it: a send event twice (at once, and when its record is flushed), a
    receive or complete event once (when its record is flushed). *)
Definition contribution (k : string) (a : Engine.action) : Z :=
  let hit (x : option Descriptor) (times : Z) :=
    if String.eqb (metricKey (extract_id x) (extract_type x) (extract_z x)) k
    then times else 0 in
  match a with
  | Engine.Send _ _ ev => hit (source ev) 2
  | Engine.Receive _ _ ev => hit (destination ev) 1
  | Engine.Complete _ ev => hit (node ev) 1
  | Engine.Fire _ _ => 0
  | Engine.Stop => 0
  end.

Definition contributions (k : string) (actions : list Engine.action) : Z :=
  fold_right (fun a n => contribution k a + n) 0 actions.

Definition record_key (r : Hooks.BatchRecord) : string :=
  metricKey (Hooks.nodeId r) (Hooks.nodeType r) (Hooks.flowId r).

(** How many of the records are for the key [k]. *)
Definition count_key (k : string) (rs : list Hooks.BatchRecord) : Z :=
  Z.of_nat (List.length (filter (fun r => String.eqb (record_key r) k) rs)).

(** How many queued records are for the key [k]. *)
Definition queued (k : string) (w : Hooks.World) : Z :=
  count_key k (Hooks.messageBatch (Hooks.hooks w)).

(** How many of the error events are counted under the label set [l]. *)
Definition errors_with_labels (l : error_labels)
    (evs : list Listeners.error_event) : nat :=
  List.length
    (filter (fun e => if error_labels_dec (Listeners.labels_of_error e) l
                      then true else false) evs).

(** *** The flush timer and the queue *)

(** Whether the host holds a flush timer of id [id]. *)
Definition flush_pending (id : nat) (h : host) : Prop :=
  In id (map timer_id (flush_timers h)).

(** The queue is non-empty exactly when the handle [batchTimer] is set, the
    handle names a flush timer the host still holds, and every timeout of
    the host is a flush timer. *)
Definition flush_scheduled (w : Hooks.World) : Prop :=
  (Hooks.messageBatch (Hooks.hooks w) <> [] ->
   Hooks.batchTimer (Hooks.hooks w) <> None)
  /\ (forall id, Hooks.batchTimer (Hooks.hooks w) = Some id ->
        flush_pending id (Hooks.timers w)
        /\ Hooks.messageBatch (Hooks.hooks w) <> [])
  /\ (forall t, In t (pending (Hooks.timers w)) ->
        timer_repeats t = false -> is_flush_timer t = true).

(** *** Writing a table of figures into a gauge *)


(** *** Inputs of the examples *)

(** A send, a receive, the flush, the completion and a stop. *)
Definition busy_actions : list Engine.action :=
  [Engine.Send t0 "g" send_m1;
   Engine.Receive (t0 + 1) "g" (receive_of "m1");
   Engine.Fire (t0 + 100) 4;
   Engine.Complete (t0 + 120) complete_m1;
   Engine.Stop].

(** A receive event still waiting for its flush. *)
Definition waiting_actions : list Engine.action :=
  [Engine.Receive t0 "g" (receive_of "m1")].

(** A collector that has seen one node under two flow ids that differ after
    a colon only. *)
Definition colliding_flows : Collector.t :=
  record_all
    [("n1"%string, "inject"%string, "f1:a"%string);
     ("n1"%string, "inject"%string, "f1:b"%string);
     ("n1"%string, "inject"%string, "f1:b"%string)]
    (Collector.create default_options).

(** *** The life cycle of the engine *)

(** What its owner can do to a constructed engine: [init(RED)] of
    src/index.js, possibly again (with its flag [isInitialized] set,
    [init] is no call at all), and what the host does, [stop()] of
    src/index.js being [nodeRedHooks.stop()] for the timers (it never calls
    [metricsCollector.stop()]).  The one-shot timeouts of the
    [flows:started] listener, which only recompute the inventory, are not
    in the table. *)
Inductive call : Type :=
| Init
| Host (a : Engine.action).

Definition call_step (w : Hooks.World) (c : call) : Hooks.World :=
  match c with
  | Init => Engine.init w
  | Host a => Engine.step w a
  end.

(** The engine after [new NodeRedFlowMetrics(o)] and the calls. *)
Definition life (o : Options) (calls : list call) : Hooks.World :=
  fold_left call_step calls (Engine.create o).

Definition is_init (c : call) : bool :=
  match c with Init => true | Host _ => false end.

Definition is_stop (c : call) : bool :=
  match c with Host Engine.Stop => true | _ => false end.

Definition callback_eqb (a b : callback) : bool :=
  match a, b with
  | ProcessBatchCb, ProcessBatchCb => true
  | CleanupCb, CleanupCb => true
  | PeriodicUpdateCb, PeriodicUpdateCb => true
  | CollectCb, CollectCb => true
  | _, _ => false
  end.

(** The pending timers of the host that run the callback [cb]. *)
Definition timers_running (cb : callback) (h : host) : list timer :=
  filter (fun t => callback_eqb (timer_callback t) cb) (pending h).

(** What [setInterval(cb, delay)] leaves in the host's table. *)
Definition interval_timer (id : nat) (cb : callback) (delay : Z) : timer :=
  {| timer_id := id; timer_callback := cb; timer_delay := delay;
     timer_repeats := true |}.

(** The part of the engine that the timers depend on: the host's table, the
    four handles ([updateInterval], [batchTimer], [cleanupTimer] of the
    hooks, [collectInterval] of the collector), the two flags and the period
    of the periodic update. *)
Record control : Type := {
  c_timers : host;
  c_update : option nat;
  c_batch : option nat;
  c_cleanup : option nat;
  c_collect : option nat;
  c_collecting : bool;
  c_initialized : bool;
  c_period : Z
}.

Definition control_of (w : Hooks.World) : control :=
  {| c_timers := Hooks.timers w;
     c_update := Hooks.updateInterval (Hooks.hooks w);
     c_batch := Hooks.batchTimer (Hooks.hooks w);
     c_cleanup := Hooks.cleanupTimer (Hooks.hooks w);
     c_collect := Collector.collectIntervalHandle (Hooks.metricsCollector w);
     c_collecting := Collector.isCollecting (Hooks.metricsCollector w);
     c_initialized := Hooks.isInitialized (Hooks.hooks w);
     c_period := collectInterval (Hooks.options (Hooks.hooks w)) |}.

Definition with_c_batch (h : host) (b : option nat) (k : control) : control :=
  {| c_timers := h; c_update := c_update k; c_batch := b;
     c_cleanup := c_cleanup k; c_collect := c_collect k;
     c_collecting := c_collecting k; c_initialized := c_initialized k;
     c_period := c_period k |}.

Definition with_c_initialized (b : bool) (k : control) : control :=
  {| c_timers := c_timers k; c_update := c_update k; c_batch := c_batch k;
     c_cleanup := c_cleanup k; c_collect := c_collect k;
     c_collecting := c_collecting k; c_initialized := b;
     c_period := c_period k |}.

(** What the batcher can do to the timers: nothing, drop its handle, or arm
    one flush timeout and keep its id. *)
Definition flush_step (k k' : control) : Prop :=
  k' = k
  \/ k' = with_c_batch (c_timers k) None k
  \/ exists delay,
       k' = with_c_batch (snd (setTimeout ProcessBatchCb delay (c_timers k)))
              (Some (next_timer_id (c_timers k))) k.

(** The three [clearInterval]/[clearTimeout] of [stop()]. *)
Definition stop_clear (k : control) : control :=
  {| c_timers := Hooks.clear_handle (c_batch k)
                   (Hooks.clear_handle (c_cleanup k)
                      (Hooks.clear_handle (c_update k) (c_timers k)));
     c_update := None; c_batch := None; c_cleanup := None;
     c_collect := c_collect k; c_collecting := c_collecting k;
     c_initialized := false; c_period := c_period k |}.

(** The [setInterval] of [startPeriodicUpdates()]. *)
Definition update_armed (k : control) : control :=
  {| c_timers := snd (setInterval PeriodicUpdateCb (c_period k) (c_timers k));
     c_update := Some (next_timer_id (c_timers k)); c_batch := c_batch k;
     c_cleanup := c_cleanup k; c_collect := c_collect k;
     c_collecting := c_collecting k; c_initialized := true;
     c_period := c_period k |}.

(** The [setInterval] of [MetricsCollector.start()]. *)
Definition collect_armed (k : control) : control :=
  {| c_timers := snd (setInterval CollectCb 5000 (c_timers k));
     c_update := c_update k; c_batch := c_batch k;
     c_cleanup := c_cleanup k;
     c_collect := Some (next_timer_id (c_timers k));
     c_collecting := true; c_initialized := c_initialized k;
     c_period := c_period k |}.

(** A handle was handed out by the host, and the timer of that id, if the
    host still holds it, runs [cb]. *)
Definition names (cb : callback) (handle : option nat) (h : host) : Prop :=
  forall id, handle = Some id ->
    (id < next_timer_id h)%nat
    /\ forall t, In t (pending h) -> timer_id t = id -> timer_callback t = cb.

(** Every pending timer that runs [cb] is the interval the handle names. *)
Definition owned (cb : callback) (delay : Z) (handle : option nat) (h : host)
  : Prop :=
  forall t, In t (pending h) -> timer_callback t = cb ->
    handle = Some (timer_id t) /\ t = interval_timer (timer_id t) cb delay.

(** The interval a handle names is pending. *)
Definition runs (cb : callback) (delay : Z) (handle : option nat) (h : host)
  : Prop :=
  forall id, handle = Some id -> In (interval_timer id cb delay) (pending h).

Definition interval_kept (cb : callback) (delay : Z) (handle : option nat)
    (h : host) : Prop :=
  names cb handle h /\ owned cb delay handle h /\ runs cb delay handle h.

(** Handles and timer table agree. *)
Definition consistent (k : control) : Prop :=
  host_wf (c_timers k)
  /\ NoDup (timer_ids (c_timers k))
  /\ names ProcessBatchCb (c_batch k) (c_timers k)
  /\ interval_kept PeriodicUpdateCb (c_period k) (c_update k) (c_timers k)
  /\ interval_kept CleanupCb 30000 (c_cleanup k) (c_timers k)
  /\ interval_kept CollectCb 5000 (c_collect k) (c_timers k)
  /\ (c_update k = None <-> c_initialized k = false)
  /\ (c_collect k = None <-> c_collecting k = false).

(* ===================================================================== *)
(** * Part II: properties                                                 *)
(* ===================================================================== *)

(** ** Insertion-ordered maps *)

Section MapFacts.
Context {K V : Type}.
Variable eq_dec : forall a b : K, {a = b} + {a <> b}.
Implicit Types (k : K) (v : V) (m : list (K * V)).

Lemma map_get_set_eq k v m : map_get eq_dec k (map_set eq_dec k v m) = Some v.
Proof.
  induction m as [|[k' v'] m IH]; simpl.
  - destruct (eq_dec k k); congruence.
  - destruct (eq_dec k k') as [->|Hne]; simpl.
    + destruct (eq_dec k' k'); congruence.
    + destruct (eq_dec k k'); congruence.
Qed.

Lemma map_get_set_neq k k' v m :
  k <> k' -> map_get eq_dec k (map_set eq_dec k' v m) = map_get eq_dec k m.
Proof.
  intros Hne. induction m as [|[k2 v2] m IH]; simpl.
  - destruct (eq_dec k k'); congruence.
  - destruct (eq_dec k' k2) as [->|Hne2]; simpl.
    + destruct (eq_dec k k2); congruence.
    + destruct (eq_dec k k2); congruence.
Qed.

Lemma map_get_In k v m : map_get eq_dec k m = Some v -> In (k, v) m.
Proof.
  induction m as [|[k' v'] m IH]; simpl; [discriminate|].
  destruct (eq_dec k k') as [->|Hne]; intros H.
  - inversion H; subst; now left.
  - right; auto.
Qed.


Lemma map_keys_set_in k v m :
  In k (map_keys m) -> map_keys (map_set eq_dec k v m) = map_keys m.
Proof.
  induction m as [|[k' v'] m IH]; simpl; [tauto|].
  destruct (eq_dec k k') as [->|Hne]; simpl; [reflexivity|].
  intros [E|E]; [congruence|]. now rewrite IH.
Qed.

Lemma map_keys_set_notin k v m :
  ~ In k (map_keys m) -> map_keys (map_set eq_dec k v m) = map_keys m ++ [k].
Proof.
  induction m as [|[k' v'] m IH]; simpl; [reflexivity|].
  destruct (eq_dec k k') as [->|Hne]; simpl; [tauto|].
  intros H. rewrite IH; tauto.
Qed.

Lemma NoDup_snoc (A : Type) (l : list A) (x : A) :
  NoDup l -> ~ In x l -> NoDup (l ++ [x]).
Proof.
  intros Hnd Hnin. apply NoDup_rev in Hnd.
  rewrite <- (rev_involutive (l ++ [x])). apply NoDup_rev.
  rewrite rev_app_distr. simpl. constructor; [now rewrite <- in_rev|assumption].
Qed.

Lemma map_wf_set k v m : map_wf m -> map_wf (map_set eq_dec k v m).
Proof.
  unfold map_wf. intros Hwf.
  destruct (in_dec eq_dec k (map_keys m)) as [Hin|Hnin].
  - now rewrite map_keys_set_in.
  - rewrite map_keys_set_notin by assumption. now apply NoDup_snoc.
Qed.

End MapFacts.

Lemma get_or0_set {K : Type} (eq_dec : forall a b : K, {a = b} + {a <> b})
    k k' v (m : list (K * Z)) :
  get_or0 eq_dec k (map_set eq_dec k' v m)
  = if eq_dec k k' then v else get_or0 eq_dec k m.
Proof.
  unfold get_or0. destruct (eq_dec k k') as [->|Hne].
  - now rewrite map_get_set_eq.
  - now rewrite map_get_set_neq.
Qed.

(** ** Metric keys *)

Lemma split_colon_nonempty s : split_colon s <> [].
Proof.
  destruct s as [|c s]; simpl; [discriminate|].
  destruct (Ascii.eqb c ":"); [discriminate|].
  destruct (split_colon s); discriminate.
Qed.

Lemma split_colon_plain s : has_colon s = false -> split_colon s = [s].
Proof.
  induction s as [|c s IH]; simpl; [reflexivity|].
  destruct (Ascii.eqb c ":"); simpl; [discriminate|].
  intros H. now rewrite IH.
Qed.

Lemma split_colon_app s t :
  has_colon s = false ->
  split_colon (s ++ ":" ++ t) = s :: split_colon t.
Proof.
  induction s as [|c s IH]; simpl in *; [reflexivity|].
  destruct (Ascii.eqb c ":"); simpl; [discriminate|].
  intros H. now rewrite IH.
Qed.

(** C9.  A metric key whose three fields hold no colon splits back into
    exactly these three fields, and [parse_key] recovers them as the label
    set. *)
Theorem metricKey_round_trip (nodeId nodeType flowId : string) :
  has_colon nodeId = false ->
  has_colon nodeType = false ->
  has_colon flowId = false ->
  split_colon (metricKey nodeId nodeType flowId) = [nodeId; nodeType; flowId]
  /\ parse_key (metricKey nodeId nodeType flowId)
     = (Some nodeId, Some nodeType, Some flowId).
Proof.
  intros H1 H2 H3.
  assert (E : split_colon (metricKey nodeId nodeType flowId)
              = [nodeId; nodeType; flowId]).
  { unfold metricKey.
    rewrite (split_colon_app nodeId _ H1).
    rewrite (split_colon_app nodeType _ H2).
    now rewrite (split_colon_plain flowId H3). }
  split; [exact E|]. unfold parse_key. now rewrite E.
Qed.

Lemma metricKey_round_trip_witness :
  split_colon (metricKey "n1" "inject" "f1") = ["n1"; "inject"; "f1"]%string
  /\ parse_key (metricKey "n1" "inject" "f1")
     = (Some "n1", Some "inject", Some "f1")%string.
Proof.
  apply (metricKey_round_trip "n1" "inject" "f1"); reflexivity.
Defined.

(** ** Message counters *)



Lemma calls_with_key_cons k n ty f calls :
  calls_with_key k ((n, ty, f) :: calls)
  = ((if String.eqb (metricKey n ty f) k then 1 else 0)
     + calls_with_key k calls)%nat.
Proof.
  unfold calls_with_key. simpl.
  now destruct (String.eqb (metricKey n ty f) k).
Qed.

Lemma calls_with_labels_cons l n ty f calls :
  calls_with_labels l ((n, ty, f) :: calls)
  = ((if labels_dec (Collector.labels_of n ty f) l then 1 else 0)
     + calls_with_labels l calls)%nat.
Proof.
  unfold calls_with_labels. cbn [filter].
  now destruct (labels_dec (Collector.labels_of n ty f) l).
Qed.

Lemma record_all_counter k calls : forall c,
  get_or0 string_dec k (Collector.messageCounters (record_all calls c))
  = get_or0 string_dec k (Collector.messageCounters c)
    + Z.of_nat (calls_with_key k calls).
Proof.
  induction calls as [|[[n ty] f] calls IH]; intros c.
  - unfold calls_with_key; simpl. lia.
  - change (record_all (((n, ty), f) :: calls) c)
      with (record_all calls (Collector.recordMessage n ty f c)).
    rewrite IH, calls_with_key_cons.
    unfold Collector.recordMessage. simpl Collector.messageCounters.
    rewrite get_or0_set.
    destruct (string_dec k (metricKey n ty f)) as [->|Hne].
    + rewrite String.eqb_refl. lia.
    + destruct (String.eqb_spec (metricKey n ty f) k) as [E|_];
        [congruence|]. lia.
Qed.

Lemma record_all_total l calls : forall c,
  get_or0 labels_dec l (Collector.messagesTotal (record_all calls c))
  = get_or0 labels_dec l (Collector.messagesTotal c)
    + Z.of_nat (calls_with_labels l calls).
Proof.
  induction calls as [|[[n ty] f] calls IH]; intros c.
  - unfold calls_with_labels; simpl. lia.
  - change (record_all (((n, ty), f) :: calls) c)
      with (record_all calls (Collector.recordMessage n ty f c)).
    rewrite IH, calls_with_labels_cons.
    unfold Collector.recordMessage. simpl Collector.messagesTotal.
    unfold Collector.inc. rewrite get_or0_set.
    destruct (labels_dec l (Collector.labels_of n ty f)) as [->|Hne].
    + destruct (labels_dec _ _); [|congruence]. lia.
    + destruct (labels_dec (Collector.labels_of n ty f) l) as [E|_];
        [congruence|]. lia.
Qed.


(** ** Durations *)

(** C6, as the code has it.  [recordNodeExecution] checks nothing itself:
    every finite duration, negative or not, is appended unchanged to the
    observations of its label set; a duration that is not finite (NaN or an
    infinity) is refused by the histogram, which is left as it was. *)
Theorem recordNodeExecution_passes_duration_on
    (nodeId nodeType flowId : string) (duration : jsnum) (c : Collector.t) :
  let l := Collector.labels_of nodeId nodeType flowId in
  let seen := match map_get labels_dec l (Collector.nodeExecutionTime c) with
              | Some obs => obs
              | None => []
              end in
  match duration with
  | Finite q =>
      exists c',
        Collector.recordNodeExecution nodeId nodeType flowId duration c
        = Returned c'
        /\ map_get labels_dec l (Collector.nodeExecutionTime c')
           = Some (seen ++ [q])
  | _ =>
      exists c',
        Collector.recordNodeExecution nodeId nodeType flowId duration c
        = Thrown c'
        /\ Collector.nodeExecutionTime c' = Collector.nodeExecutionTime c
  end.
Proof.
  destruct duration as [q| |neg]; cbv zeta;
    unfold Collector.recordNodeExecution, Collector.observe.
  - eexists; split; [reflexivity|].
    cbn [Collector.nodeExecutionTime Collector.with_histogram].
    apply map_get_set_eq.
  - eexists; split; reflexivity.
  - eexists; split; reflexivity.
Qed.

(** C6 as stated fails: a duration of -1 ms is not rejected but recorded. *)
Lemma negative_duration_is_recorded :
  exists c',
    Collector.recordNodeExecution "n1"%string "inject"%string "f1"%string
      (Finite (Qmake (-1) 1000))
      (Collector.create default_options) = Returned c'
    /\ map_get labels_dec
         (Collector.labels_of "n1"%string "inject"%string "f1"%string)
         (Collector.nodeExecutionTime c') = Some [Qmake (-1) 1000]
    /\ (Qmake (-1) 1000 < 0)%Q.
Proof.
  eexists; split; [reflexivity|]. split; [reflexivity|]. reflexivity.
Qed.

(** ** Rates *)

Lemma rate_fold_last_other (k : string) (m : list (string * Z)) : forall acc,
  ~ In k (map_keys m) ->
  map_get string_dec k (snd (fold_left Collector.rate_step m acc))
  = map_get string_dec k (snd acc).
Proof.
  induction m as [|[k' cur] m IH]; intros acc Hnin; [reflexivity|].
  simpl in Hnin. simpl fold_left. rewrite IH by tauto.
  unfold Collector.rate_step; simpl snd.
  apply map_get_set_neq. intros E; apply Hnin; left; congruence.
Qed.

Lemma rate_fold_gauge_other (l : labels) (m : list (string * Z)) : forall acc,
  ~ In l (map parse_key (map_keys m)) ->
  map_get labels_dec l (fst (fold_left Collector.rate_step m acc))
  = map_get labels_dec l (fst acc).
Proof.
  induction m as [|[k' cur] m IH]; intros acc Hnin; [reflexivity|].
  simpl in Hnin. simpl fold_left. rewrite IH by tauto.
  unfold Collector.rate_step; simpl fst.
  apply map_get_set_neq. intros E; apply Hnin; left; congruence.
Qed.

Lemma rate_fold_entry (m : list (string * Z)) : forall acc k cur,
  NoDup (map parse_key (map_keys m)) ->
  In (k, cur) m ->
  map_get labels_dec (parse_key k) (fst (fold_left Collector.rate_step m acc))
  = Some (Collector.rate_of cur (get_or0 string_dec k (snd acc)))
  /\ map_get string_dec k (snd (fold_left Collector.rate_step m acc))
     = Some cur.
Proof.
  induction m as [|[k' cur'] m IH]; intros acc k cur Hnd Hin; [easy|].
  simpl in Hnd. inversion Hnd as [|? ? Hnotin Hnd']; subst.
  destruct Hin as [E|Hin].
  - inversion E; subst k' cur'. simpl fold_left. split.
    + rewrite rate_fold_gauge_other by assumption.
      unfold Collector.rate_step; simpl fst. apply map_get_set_eq.
    + rewrite rate_fold_last_other.
      * unfold Collector.rate_step; simpl snd. apply map_get_set_eq.
      * intros Hk. apply Hnotin. now apply in_map.
  - destruct (IH (Collector.rate_step acc (k', cur')) k cur Hnd' Hin)
      as [Hg Hl].
    split; [|exact Hl].
    change (fold_left Collector.rate_step ((k', cur') :: m) acc)
      with (fold_left Collector.rate_step m
              (Collector.rate_step acc (k', cur'))).
    rewrite Hg. f_equal. f_equal.
    unfold Collector.rate_step; simpl snd. unfold get_or0.
    rewrite map_get_set_neq; [reflexivity|].
    intros ->. apply Hnotin.
    apply in_map. change k' with (fst (k', cur)). now apply in_map.
Qed.

(** The period of the collector's timer is 5000 ms whatever the options
    say. *)
Lemma start_period (h : host) (c : Collector.t) :
  Collector.isCollecting c = false ->
  pending (fst (Collector.start h c))
  = pending h ++ [{| timer_id := next_timer_id h; timer_callback := CollectCb;
                     timer_delay := 5000; timer_repeats := true |}].
Proof. intros H. unfold Collector.start. now rewrite H. Qed.

(** C5, as the code has it.  On a tick, for every key of the counter map
    (the keys being told apart by their first three components), the rate
    gauge of the key receives [max(0, currentTotal - previousSample) / 5],
    the divisor being the fixed 5 seconds of the collector's timer and not
    the configured interval; the stored sample becomes [currentTotal]; the
    rate is never negative, and is 0 when the counter did not grow; from 50
    to 80 it is 6.  (The keys of the map being pairwise distinct in their
    first three components is what lets each key own its gauge.) *)
Theorem calculateMessagesPerSecond_rate (c : Collector.t) (k : string)
    (currentTotal : Z) :
  NoDup (map parse_key (map_keys (Collector.messageCounters c))) ->
  map_get string_dec k (Collector.messageCounters c) = Some currentTotal ->
  let previousSample := get_or0 string_dec k (Collector.lastMessageCounts c) in
  let c' := Collector.calculateMessagesPerSecond c in
  let rate := Qmake (Z.max 0 (currentTotal - previousSample)) 5 in
  map_get labels_dec (parse_key k) (Collector.messagesPerSecond c') = Some rate
  /\ map_get string_dec k (Collector.lastMessageCounts c') = Some currentTotal
  /\ Collector.messageCounters c' = Collector.messageCounters c
  /\ (0 <= rate)%Q
  /\ (rate == if currentTotal <=? previousSample then 0
              else Qmake (currentTotal - previousSample) 5)%Q
  /\ (Collector.rate_of 80 50 == 6)%Q.
Proof.
  intros Hnd Hget previousSample c' rate.
  apply map_get_In in Hget.
  destruct (rate_fold_entry (Collector.messageCounters c)
              (Collector.messagesPerSecond c, Collector.lastMessageCounts c)
              k currentTotal Hnd Hget) as [Hg Hl].
  repeat split.
  - exact Hg.
  - exact Hl.
  - unfold rate, Qle; simpl. lia.
  - unfold rate. destruct (Z.leb_spec currentTotal previousSample).
    + rewrite Z.max_l by lia. reflexivity.
    + rewrite Z.max_r by lia. reflexivity.
Qed.

Lemma calculateMessagesPerSecond_rate_witness :
  let c' := Collector.calculateMessagesPerSecond sampled_50_then_80 in
  map_get labels_dec (Some "n1", Some "inject", Some "f1")%string
    (Collector.messagesPerSecond c') = Some (Qmake 30 5)
  /\ map_get string_dec "n1:inject:f1"%string (Collector.lastMessageCounts c')
     = Some 80.
Proof.
  assert (Hnd : NoDup (map parse_key
                         (map_keys (Collector.messageCounters
                                      sampled_50_then_80)))).
  { vm_compute. constructor; [intros []|constructor]. }
  assert (Hget : map_get string_dec "n1:inject:f1"%string
                   (Collector.messageCounters sampled_50_then_80) = Some 80).
  { vm_compute. reflexivity. }
  destruct (calculateMessagesPerSecond_rate sampled_50_then_80
              "n1:inject:f1"%string 80 Hnd Hget) as (Hg & Hl & _).
  split; [exact Hg | exact Hl].
Defined.

(** C5 as stated fails: with a collection interval configured to 10 s, a
    counter going from 50 to 80 is given the rate 6, not the 3 that dividing
    by the configured interval would give. *)
Lemma rate_ignores_configured_interval :
  let c := sampled_50_then_80 in
  let c' := Collector.calculateMessagesPerSecond c in
  collectInterval (Collector.options c) = 10000
  /\ get_or0 string_dec "n1:inject:f1"%string (Collector.lastMessageCounts c) = 50
  /\ get_or0 string_dec "n1:inject:f1"%string (Collector.messageCounters c) = 80
  /\ (specified_rate (Collector.options c) 80 50 == 3)%Q
  /\ exists rate,
       map_get labels_dec (Some "n1", Some "inject", Some "f1")%string
         (Collector.messagesPerSecond c') = Some rate
       /\ (rate == 6)%Q
       /\ ~ (rate == specified_rate (Collector.options c) 80 50)%Q.
Proof.
  cbv zeta. split; [reflexivity|]. split; [vm_compute; reflexivity|].
  split; [vm_compute; reflexivity|]. split; [vm_compute; reflexivity|].
  exists (Qmake 30 5). split; [vm_compute; reflexivity|].
  split; [reflexivity|]. vm_compute. discriminate.
Qed.

(** The keys of a collector that was only ever given colon-free fields are
    told apart by their first three components, which is what
    [calculateMessagesPerSecond_rate] asks of the counter map. *)
Lemma parse_key_metricKey (nodeId nodeType flowId : string) :
  colon_free (nodeId, nodeType, flowId) ->
  parse_key (metricKey nodeId nodeType flowId)
  = (Some nodeId, Some nodeType, Some flowId).
Proof.
  intros (H1 & H2 & H3). unfold parse_key, metricKey.
  rewrite (split_colon_app nodeId _ H1), (split_colon_app nodeType _ H2).
  now rewrite (split_colon_plain flowId H3).
Qed.

Lemma record_all_keys calls : forall c k,
  In k (map_keys (Collector.messageCounters (record_all calls c))) ->
  In k (map_keys (Collector.messageCounters c))
  \/ exists n ty f, In (n, ty, f) calls /\ k = metricKey n ty f.
Proof.
  induction calls as [|[[n ty] f] calls IH]; intros c k Hin; [now left|].
  change (record_all (((n, ty), f) :: calls) c)
    with (record_all calls (Collector.recordMessage n ty f c)) in Hin.
  destruct (IH _ _ Hin) as [Hk|(n' & ty' & f' & Hc & ->)].
  - unfold Collector.recordMessage in Hk.
    cbn [Collector.messageCounters Collector.with_messages] in Hk.
    destruct (in_dec string_dec (metricKey n ty f)
                (map_keys (Collector.messageCounters c))) as [Hold|Hnew].
    + rewrite map_keys_set_in in Hk by assumption. now left.
    + rewrite map_keys_set_notin in Hk by assumption.
      apply in_app_or in Hk. destruct Hk as [Hk|[<-|[]]]; [now left|].
      right. exists n, ty, f. split; [now left|reflexivity].
  - right. exists n', ty', f'. split; [now right|reflexivity].
Qed.

Lemma record_all_wf calls : forall c,
  map_wf (Collector.messageCounters c) ->
  map_wf (Collector.messageCounters (record_all calls c)).
Proof.
  induction calls as [|[[n ty] f] calls IH]; intros c Hwf; [exact Hwf|].
  change (record_all (((n, ty), f) :: calls) c)
    with (record_all calls (Collector.recordMessage n ty f c)).
  apply IH. unfold Collector.recordMessage.
  cbn [Collector.messageCounters Collector.with_messages].
  now apply map_wf_set.
Qed.

Lemma colon_free_keys_are_told_apart (o : Options)
    (calls : list (string * string * string)) :
  Forall colon_free calls ->
  NoDup (map parse_key
           (map_keys
              (Collector.messageCounters
                 (record_all calls (Collector.create o))))).
Proof.
  intros Hfree. apply NoDup_map_NoDup_ForallPairs.
  - intros k k' Hk Hk' E.
    rewrite Forall_forall in Hfree.
    destruct (record_all_keys _ _ _ Hk) as [[]|(n & ty & f & Hc & ->)].
    destruct (record_all_keys _ _ _ Hk') as [[]|(n' & ty' & f' & Hc' & ->)].
    rewrite (parse_key_metricKey n ty f (Hfree _ Hc)) in E.
    rewrite (parse_key_metricKey n' ty' f' (Hfree _ Hc')) in E.
    congruence.
  - apply record_all_wf. constructor.
Qed.

(** ** Inventory derived from the counter map *)








Lemma key_nodeId_some k : exists n, key_nodeId k = Some n.
Proof.
  unfold key_nodeId, parse_key. simpl.
  pose proof (split_colon_nonempty k) as H.
  destruct (split_colon k) as [|n rest]; [congruence|]. now exists n.
Qed.

(** What one step of the node loop does, by the shape of the entry. *)
Lemma node_step_typed a e :
  typed e = true ->
  exists n ty,
    key_nodeId (fst e) = Some n /\ key_nodeType (fst e) = Some ty
    /\ Collector.node_step a e
       = {| Collector.acc_uniqueNodes :=
              set_add n (Collector.acc_uniqueNodes a);
            Collector.acc_nodeTypes :=
              map_set string_dec ty
                (get_or0 string_dec ty (Collector.acc_nodeTypes a) + 1)
                (Collector.acc_nodeTypes a);
            Collector.acc_activeNodeTypes :=
              map_set string_dec ty
                (get_or0 string_dec ty (Collector.acc_activeNodeTypes a) + 1)
                (Collector.acc_activeNodeTypes a) |}.
Proof.
  unfold typed, key_nodeType, key_nodeId, Collector.node_step.
  destruct (key_nodeId_some (fst e)) as [n Hn].
  unfold key_nodeId in Hn.
  destruct (parse_key (fst e)) as [[n' ty'] f]. simpl in *. subst n'.
  destruct ty' as [ty|]; [|discriminate].
  intros Hp. rewrite Hp. now exists n, ty.
Qed.

Lemma node_step_untyped a e :
  typed e = false -> Collector.node_step a e = a.
Proof.
  unfold typed, key_nodeType, Collector.node_step.
  destruct (parse_key (fst e)) as [[n' ty'] f]. simpl.
  destruct n' as [n|]; [|reflexivity].
  destruct ty' as [ty|]; [|reflexivity].
  intros Hp. now rewrite Hp.
Qed.




Lemma node_fold_active (m : list (string * Z)) : forall a,
  Collector.acc_activeNodeTypes a = Collector.acc_nodeTypes a ->
  Collector.acc_activeNodeTypes (fold_left Collector.node_step m a)
  = Collector.acc_nodeTypes (fold_left Collector.node_step m a).
Proof.
  induction m as [|e m IH]; intros a Ha; [exact Ha|].
  cbn [fold_left]. apply IH.
  destruct (typed e) eqn:Ht.
  - destruct (node_step_typed a e Ht) as (n & ty & _ & _ & ->).
    simpl. now rewrite Ha.
  - now rewrite node_step_untyped.
Qed.

Lemma activeNodeTypes_eq c :
  Collector.activeNodeTypes (Collector.calculateRealNodeMetrics c)
  = Collector.nodeTypes (Collector.calculateRealNodeMetrics c).
Proof.
  unfold Collector.calculateRealNodeMetrics. simpl.
  now apply node_fold_active.
Qed.




Lemma gauge_fold_agree nm (ks : list string) : forall g,
  Collector.activeNodeTypes nm = Collector.nodeTypes nm ->
  snd g = fst g ->
  snd (fold_left (Collector.set_node_gauges nm) ks g)
  = fst (fold_left (Collector.set_node_gauges nm) ks g).
Proof.
  induction ks as [|k ks IH]; intros g Hnm Hg; [exact Hg|].
  cbn [fold_left]. apply IH; [exact Hnm|].
  unfold Collector.set_node_gauges; simpl. now rewrite Hnm, Hg.
Qed.











(** ** Active gauges *)

Lemma gauges_agree_update c :
  gauges_agree c -> gauges_agree (fst (Collector.updateMetricsFromRealData c)).
Proof.
  intros [Hf Hn]. unfold Collector.updateMetricsFromRealData. cbn [fst].
  set (c1 := (if Collector.totalFlows (Collector.calculateRealFlowMetrics c)
                  >? 0
              then _ else c)).
  assert (H1 : gauges_agree c1).
  { subst c1. destruct (_ >? 0); [|now split]. now split. }
  destruct H1 as [Hf1 Hn1].
  destruct (Collector.totalNodes (Collector.calculateRealNodeMetrics c1) >? 0);
    [|now split].
  split; [exact Hf1|].
  cbn [Collector.nodesActive Collector.nodesTotal Collector.with_nodes].
  apply gauge_fold_agree; [apply activeNodeTypes_eq | exact Hn1].
Qed.

Lemma gauges_agree_op c o : gauges_agree c -> gauges_agree (apply_op c o).
Proof.
  intros H. destruct o as [n ty f|n ty f e|n ty f d| |]; cbn [apply_op].
  - exact H.
  - exact H.
  - unfold Collector.recordNodeExecution.
    destruct (Collector.observe _ d _); exact H.
  - exact H.
  - now apply gauges_agree_update.
Qed.

Lemma gauges_agree_ops ops : forall c,
  gauges_agree c -> gauges_agree (apply_ops c ops).
Proof.
  induction ops as [|o ops IH]; intros c H; [exact H|].
  apply IH. now apply gauges_agree_op.
Qed.

(** C10.  Whatever the collector has been through since its creation,
    recomputing the inventory leaves the active-flows gauge equal to the
    total-flows gauge and the active-nodes gauge of every type equal to its
    total-nodes gauge; and so it is in every state in between. *)
Theorem active_gauges_repeat_totals (o : Options) (ops : list collector_op)
    (ty : string) :
  let c := apply_ops (Collector.create o) ops in
  let c' := fst (Collector.updateMetricsFromRealData c) in
  Collector.flowsActive c' = Collector.flowsTotal c'
  /\ map_get string_dec ty (Collector.nodesActive c')
     = map_get string_dec ty (Collector.nodesTotal c')
  /\ Collector.activeFlows (Collector.calculateRealFlowMetrics c)
     = Collector.totalFlows (Collector.calculateRealFlowMetrics c)
  /\ Collector.activeNodeTypes (Collector.calculateRealNodeMetrics c)
     = Collector.nodeTypes (Collector.calculateRealNodeMetrics c)
  /\ gauges_agree c.
Proof.
  cbv zeta.
  assert (H : gauges_agree (apply_ops (Collector.create o) ops)).
  { apply gauges_agree_ops. now split. }
  destruct (gauges_agree_update _ H) as [Hf Hn].
  repeat split.
  - exact Hf.
  - now rewrite Hn.
  - apply activeNodeTypes_eq.
  - apply H.
  - apply H.
Qed.

(** ** The timing table and its sweep *)

Lemma insert_by_time_perm e l :
  Permutation (Hooks.insert_by_time e l) (e :: l).
Proof.
  induction l as [|e' l IH]; simpl; [reflexivity|].
  destruct (snd e <=? snd e'); [reflexivity|].
  rewrite IH. apply perm_swap.
Qed.

Lemma sort_by_time_perm l : Permutation (Hooks.sort_by_time l) l.
Proof.
  induction l as [|e l IH]; simpl; [reflexivity|].
  rewrite insert_by_time_perm. now constructor.
Qed.

Lemma insert_by_time_sorted e l :
  StronglySorted by_time l -> StronglySorted by_time (Hooks.insert_by_time e l).
Proof.
  induction l as [|e' l IH]; simpl; intros Hs.
  - constructor; constructor.
  - inversion Hs as [|? ? Hs' Hall]; subst.
    destruct (Z.leb_spec (snd e) (snd e')) as [Hle|Hgt].
    + constructor; [exact Hs|]. constructor; [exact Hle|].
      rewrite Forall_forall in *. intros x Hx. unfold by_time in *.
      specialize (Hall x Hx). lia.
    + constructor; [now apply IH|].
      rewrite Forall_forall in *. intros x Hx.
      apply (Permutation_in _ (insert_by_time_perm e l)) in Hx.
      destruct Hx as [<-|Hx]; [unfold by_time; lia | now apply Hall].
Qed.

Lemma sort_by_time_sorted l : StronglySorted by_time (Hooks.sort_by_time l).
Proof.
  induction l as [|e l IH]; simpl; [constructor|].
  now apply insert_by_time_sorted.
Qed.

Lemma sorted_app_order (l1 l2 : list (string * Z)) :
  StronglySorted by_time (l1 ++ l2) ->
  forall a b, In a l1 -> In b l2 -> by_time a b.
Proof.
  induction l1 as [|x l1 IH]; simpl; intros Hs a b Ha Hb; [easy|].
  inversion Hs as [|? ? Hs' Hall]; subst.
  destruct Ha as [<-|Ha].
  - rewrite Forall_forall in Hall. apply Hall, in_or_app. now right.
  - now apply IH.
Qed.

Lemma key_in_spec k ks : key_in k ks = true <-> In k ks.
Proof.
  unfold key_in. rewrite existsb_exists. split.
  - intros (x & Hx & E). apply String.eqb_eq in E. now subst.
  - intros H. exists k. split; [exact H | apply String.eqb_refl].
Qed.

Lemma filter_filter (A : Type) (f g : A -> bool) (l : list A) :
  filter f (filter g l) = filter (fun x => g x && f x) l.
Proof.
  induction l as [|x l IH]; simpl; [reflexivity|].
  destruct (g x); simpl; [destruct (f x)|]; now rewrite IH.
Qed.

(** A loop that deletes the keys of some of the entries of [l] from the
    table keeps the entries whose key is none of these. *)
Lemma delete_loop (p : string * Z -> bool) (l : list (string * Z)) :
  forall m,
    fold_left
      (fun m (e : string * Z) =>
         if p e then map_delete string_dec (fst e) m else m) l m
    = filter
        (fun e : string * Z => negb (key_in (fst e) (map fst (filter p l))))
        m.
Proof.
  induction l as [|x l IH]; intros m.
  - simpl. symmetry. apply forallb_filter_id.
    apply forallb_forall. reflexivity.
  - cbn [fold_left filter]. rewrite IH. destruct (p x).
    + unfold map_delete. rewrite filter_filter. apply filter_ext.
      intros e. cbn [map key_in existsb].
      destruct (string_dec (fst x) (fst e)) as [E|Hne].
      * rewrite E, String.eqb_refl. reflexivity.
      * destruct (String.eqb_spec (fst e) (fst x)) as [E|_];
          [congruence|]. reflexivity.
    + reflexivity.
Qed.

Lemma Permutation_filter_same (A : Type) (f : A -> bool) (l l' : list A) :
  Permutation l l' -> Permutation (filter f l) (filter f l').
Proof.
  induction 1 as [|x l l' _ IH|x y l|l l' l'' _ IH1 _ IH2]; simpl.
  - constructor.
  - destruct (f x); [now constructor | exact IH].
  - destruct (f x), (f y); try reflexivity. apply perm_swap.
  - now transitivity (filter f l').
Qed.

Lemma filter_none (A : Type) (f : A -> bool) (l : list A) :
  (forall x, In x l -> f x = false) -> filter f l = [].
Proof.
  induction l as [|x l IH]; simpl; intros H; [reflexivity|].
  rewrite (H x) by now left. apply IH. intros y Hy. apply H. now right.
Qed.

Lemma filter_all (A : Type) (f : A -> bool) (l : list A) :
  (forall x, In x l -> f x = true) -> filter f l = l.
Proof.
  intros H. apply forallb_filter_id, forallb_forall, H.
Qed.

(** The table after the first block of the sweep. *)
Lemma cleanup_first_block h :
  fold_left (fun m (e : string * Z) => map_delete string_dec (fst e) m)
    (Hooks.toRemove h) (Hooks.messageStartTimes h)
  = filter
      (fun e : string * Z =>
         negb (key_in (fst e) (map fst (Hooks.toRemove h))))
      (Hooks.messageStartTimes h).
Proof.
  pose proof (delete_loop (fun _ => true) (Hooks.toRemove h)
                (Hooks.messageStartTimes h)) as H.
  rewrite (filter_all _ (fun _ => true)) in H by reflexivity.
  exact H.
Qed.

Lemma cleanup_table now h :
  Hooks.messageStartTimes (Hooks.cleanupTimingEntries now h)
  = let table1 :=
      filter
        (fun e : string * Z =>
           negb (key_in (fst e) (map fst (Hooks.toRemove h))))
        (Hooks.messageStartTimes h) in
    filter
      (fun e : string * Z =>
         negb (key_in (fst e) (map fst (filter (expired now) table1))))
      table1.
Proof.
  unfold Hooks.cleanupTimingEntries. cbn [Hooks.messageStartTimes Hooks.with_timing].
  rewrite cleanup_first_block. cbv zeta.
  apply (delete_loop (expired now)).
Qed.

Lemma NoDup_app_disjoint (A : Type) (l1 l2 : list A) (x : A) :
  NoDup (l1 ++ l2) -> In x l1 -> In x l2 -> False.
Proof.
  induction l1 as [|a l1 IH]; simpl; intros Hnd H1 H2; [easy|].
  inversion Hnd as [|? ? Hnin Hnd']; subst. destruct H1 as [<-|H1].
  - apply Hnin, in_or_app. now right.
  - now apply IH.
Qed.

Lemma sort_by_time_length l :
  List.length (Hooks.sort_by_time l) = List.length l.
Proof. apply Permutation_length, sort_by_time_perm. Qed.

(** What the first block removes when the table is over its limit: the
    front of the entries sorted by start time, down to the limit. *)
Lemma toRemove_over h :
  maxTimingEntries (Hooks.options h)
  < Z.of_nat (List.length (Hooks.messageStartTimes h)) ->
  Hooks.toRemove h
  = firstn (Z.to_nat (Z.of_nat (List.length (Hooks.messageStartTimes h))
                      - maxTimingEntries (Hooks.options h)))
      (Hooks.sort_by_time (Hooks.messageStartTimes h)).
Proof.
  intros Hlt. unfold Hooks.toRemove.
  destruct (Z.gtb_spec (Z.of_nat (List.length (Hooks.messageStartTimes h)))
              (maxTimingEntries (Hooks.options h))); [|lia].
  now rewrite sort_by_time_length.
Qed.

Lemma first_block_drops_front (front back : list (string * Z)) :
  filter (fun e : string * Z => negb (key_in (fst e) (map fst front))) front
  = [].
Proof.
  apply filter_none. intros x Hx. apply negb_false_iff, key_in_spec.
  now apply in_map.
Qed.

Lemma first_block_keeps_back (front back : list (string * Z)) :
  NoDup (map fst (front ++ back)) ->
  filter (fun e : string * Z => negb (key_in (fst e) (map fst front))) back
  = back.
Proof.
  intros Hnd. apply filter_all. intros x Hx.
  apply negb_true_iff. destruct (key_in (fst x) (map fst front)) eqn:E;
    [|reflexivity].
  apply key_in_spec in E. rewrite map_app in Hnd.
  exfalso. apply (NoDup_app_disjoint _ _ _ (fst x) Hnd E). now apply in_map.
Qed.

(** After the first block the table is within the limit. *)
Lemma first_block_bound h :
  0 <= maxTimingEntries (Hooks.options h) ->
  Z.of_nat
    (List.length
       (filter
          (fun e : string * Z =>
             negb (key_in (fst e) (map fst (Hooks.toRemove h))))
          (Hooks.messageStartTimes h)))
  <= maxTimingEntries (Hooks.options h).
Proof.
  intros Hlimit.
  set (table := Hooks.messageStartTimes h).
  set (limit := maxTimingEntries (Hooks.options h)) in *.
  destruct (Z.lt_ge_cases limit (Z.of_nat (List.length table))) as [Hover|Hin].
  - rewrite (toRemove_over h Hover). fold table limit.
    set (r := Z.to_nat (Z.of_nat (List.length table) - limit)).
    set (sorted := Hooks.sort_by_time table).
    set (q := fun e : string * Z =>
                negb (key_in (fst e) (map fst (firstn r sorted)))).
    rewrite (Permutation_length
               (Permutation_filter_same _ q _ _
                  (Permutation_sym (sort_by_time_perm table)))).
    fold sorted. rewrite <- (firstn_skipn r sorted) at 1.
    rewrite filter_app. unfold q at 1.
    rewrite (first_block_drops_front (firstn r sorted) (skipn r sorted)).
    cbn [app].
    pose proof (filter_length_le q (skipn r sorted)) as Hle.
    rewrite length_skipn in Hle. unfold sorted in Hle.
    rewrite sort_by_time_length in Hle. fold table sorted in Hle.
    assert (Hr : Z.of_nat r = Z.of_nat (List.length table) - limit)
      by (unfold r; lia).
    clearbody r. lia.
  - pose proof (filter_length_le
                  (fun e : string * Z =>
                     negb (key_in (fst e) (map fst (Hooks.toRemove h))))
                  table) as Hle.
    lia.
Qed.

Lemma sweep_keeps_within now h e :
  In e (Hooks.messageStartTimes (Hooks.cleanupTimingEntries now h)) ->
  In e (Hooks.messageStartTimes h) /\ expired now e = false.
Proof.
  rewrite cleanup_table. cbv zeta. rewrite filter_In.
  intros [Hin Hq]. split.
  - apply filter_In in Hin. tauto.
  - destruct (expired now e) eqn:E; [|reflexivity].
    apply negb_true_iff in Hq.
    assert (key_in (fst e)
              (map fst
                 (filter (expired now)
                    (filter
                       (fun e0 : string * Z =>
                          negb (key_in (fst e0) (map fst (Hooks.toRemove h))))
                       (Hooks.messageStartTimes h)))) = true) as Hk.
    { apply key_in_spec, in_map, filter_In. now split. }
    congruence.
Qed.

(** When nothing in the table has expired, the second block removes
    nothing. *)
Lemma sweep_of_young_table now h :
  (forall e, In e (Hooks.messageStartTimes h) -> expired now e = false) ->
  Hooks.messageStartTimes (Hooks.cleanupTimingEntries now h)
  = filter
      (fun e : string * Z =>
         negb (key_in (fst e) (map fst (Hooks.toRemove h))))
      (Hooks.messageStartTimes h).
Proof.
  intros Hyoung. rewrite cleanup_table. cbv zeta.
  rewrite (filter_none _ (expired now)).
  - apply filter_all. reflexivity.
  - intros x Hx. apply filter_In in Hx. now apply Hyoung.
Qed.

(** A table over its limit, with distinct keys and nothing expired, loses
    exactly its oldest entries down to the limit. *)
Lemma sweep_over_limit now h :
  let table := Hooks.messageStartTimes h in
  let table' := Hooks.messageStartTimes (Hooks.cleanupTimingEntries now h) in
  let limit := maxTimingEntries (Hooks.options h) in
  map_wf table ->
  (forall e, In e table -> expired now e = false) ->
  0 <= limit -> limit < Z.of_nat (List.length table) ->
  Permutation table (Hooks.toRemove h ++ table')
  /\ Z.of_nat (List.length table') = limit
  /\ Z.of_nat (List.length (Hooks.toRemove h))
     = Z.of_nat (List.length table) - limit
  /\ forall r e, In r (Hooks.toRemove h) -> In e table' -> by_time r e.
Proof.
  intros table table' limit Hwf Hyoung Hlimit Hover.
  subst table'. rewrite (sweep_of_young_table now h Hyoung).
  rewrite (toRemove_over h Hover). fold table limit.
  set (r := Z.to_nat (Z.of_nat (List.length table) - limit)).
  set (sorted := Hooks.sort_by_time table).
  set (q := fun e : string * Z =>
              negb (key_in (fst e) (map fst (firstn r sorted)))).
  assert (Hperm : Permutation sorted table) by apply sort_by_time_perm.
  assert (Hsplit : firstn r sorted ++ skipn r sorted = sorted)
    by apply firstn_skipn.
  assert (Hnd : NoDup (map fst (firstn r sorted ++ skipn r sorted))).
  { rewrite Hsplit. unfold map_wf, map_keys in Hwf.
    apply (Permutation_NoDup (l := map fst table)); [|exact Hwf].
    apply Permutation_map. now symmetry. }
  assert (Hkept : Permutation (filter q table) (skipn r sorted)).
  { rewrite (Permutation_filter_same _ q _ _ (Permutation_sym Hperm)).
    rewrite <- Hsplit at 1. rewrite filter_app. unfold q.
    rewrite (first_block_drops_front (firstn r sorted) (skipn r sorted)).
    rewrite (first_block_keeps_back _ _ Hnd). reflexivity. }
  assert (Hlen : List.length sorted = List.length table)
    by apply sort_by_time_length.
  repeat split.
  - rewrite Hkept, Hsplit. now symmetry.
  - rewrite (Permutation_length Hkept), length_skipn, Hlen. lia.
  - rewrite length_firstn, Hlen. lia.
  - intros a b Ha Hb.
    apply (Permutation_in _ Hkept) in Hb.
    apply (sorted_app_order (firstn r sorted) (skipn r sorted));
      [|exact Ha|exact Hb].
    rewrite Hsplit. apply sort_by_time_sorted.
Qed.

(** C4.  After one sweep the timing table holds at most [maxTimingEntries]
    entries, all of them entries it held before, none older than the
    maximum age.  A table of distinct keys that is over the limit and holds
    nothing expired is cut to exactly the limit, and what is removed are its
    entries of oldest start time: with 1500 entries and a limit of 1000,
    1000 remain and the 500 removed are each at least as old as every entry
    that remains. *)
Theorem sweep_bounds_timing_table (now : Z) (h : Hooks.t) :
  let table := Hooks.messageStartTimes h in
  let table' := Hooks.messageStartTimes (Hooks.cleanupTimingEntries now h) in
  let limit := maxTimingEntries (Hooks.options h) in
  0 <= limit ->
  (Z.of_nat (List.length table') <= limit
   /\ (forall e, In e table' -> age now e <= Hooks.maxAge)
   /\ (forall e, In e table' -> In e table))
  /\ (map_wf table ->
      (forall e, In e table -> age now e <= Hooks.maxAge) ->
      limit < Z.of_nat (List.length table) ->
      exists removed,
        Permutation table (removed ++ table')
        /\ Z.of_nat (List.length table') = limit
        /\ Z.of_nat (List.length removed)
           = Z.of_nat (List.length table) - limit
        /\ (forall r e, In r removed -> In e table' -> snd r <= snd e)
        /\ (List.length table = 1500%nat -> limit = 1000 ->
            List.length table' = 1000%nat
            /\ List.length removed = 500%nat)).
Proof.
  intros table table' limit Hlimit. split; [split; [|split]|].
  - subst table'. rewrite cleanup_table. cbv zeta.
    etransitivity; [|apply (first_block_bound h Hlimit)].
    apply inj_le, filter_length_le.
  - intros e He. apply sweep_keeps_within in He. destruct He as [_ He].
    unfold expired in He. unfold age.
    destruct (Z.gtb_spec (now - snd e) Hooks.maxAge); [discriminate|lia].
  - intros e He. now apply sweep_keeps_within in He.
  - intros Hwf Hyoung Hover.
    assert (Hy : forall e, In e table -> expired now e = false).
    { intros e He. specialize (Hyoung e He). unfold age in Hyoung.
      unfold expired.
      destruct (Z.gtb_spec (now - snd e) Hooks.maxAge); [lia|reflexivity]. }
    destruct (sweep_over_limit now h Hwf Hy Hlimit Hover)
      as (Hperm & Hsize & Hrem & Hord).
    exists (Hooks.toRemove h). fold table table' limit in Hperm, Hsize, Hrem.
    repeat split; try assumption.
    + fold table' in Hord. lia.
    + fold table' in Hord. lia.
Qed.

Lemma sweep_bounds_timing_table_witness :
  let table := Hooks.messageStartTimes three_begun in
  let table' :=
    Hooks.messageStartTimes (Hooks.cleanupTimingEntries 1000 three_begun) in
  (Z.of_nat (List.length table') <= 2
   /\ (forall e, In e table' -> age 1000 e <= Hooks.maxAge)
   /\ (forall e, In e table' -> In e table))
  /\ exists removed,
       Permutation table (removed ++ table')
       /\ Z.of_nat (List.length table') = 2
       /\ Z.of_nat (List.length removed) = Z.of_nat (List.length table) - 2
       /\ (forall r e, In r removed -> In e table' -> snd r <= snd e)
       /\ (List.length table = 1500%nat -> 2 = 1000 ->
           List.length table' = 1000%nat /\ List.length removed = 500%nat).
Proof.
  assert (Hlimit : 0 <= maxTimingEntries (Hooks.options three_begun))
    by (vm_compute; discriminate).
  destruct (sweep_bounds_timing_table 1000 three_begun Hlimit)
    as [Hall Hover].
  split; [exact Hall|]. apply Hover.
  - vm_compute. repeat constructor; simpl; intuition discriminate.
  - intros e He. vm_compute in He.
    destruct He as [<-|[<-|[<-|[]]]]; vm_compute; discriminate.
  - vm_compute. reflexivity.
Defined.

(** The sweep of 1500 entries under a limit of 1000, evaluated: 1000 remain,
    and they are the entries of start time 500 and above. *)
Example sweep_1500_entries :
  let h := hooks_with_table default_options (begun_entries 1500) in
  let table' :=
    Hooks.messageStartTimes (Hooks.cleanupTimingEntries 2000 h) in
  List.length (Hooks.messageStartTimes h) = 1500%nat
  /\ List.length table' = 1000%nat
  /\ forallb (fun e : string * Z => 500 <=? snd e) table' = true
  /\ List.length (Hooks.toRemove h) = 500%nat
  /\ forallb (fun e : string * Z => snd e <? 500) (Hooks.toRemove h) = true.
Proof. vm_compute. repeat split. Qed.

(** ** The engine on the scenarios *)

(** C1, evaluated.  The send event counts the message at once and queues a
    record that counts it again when the batch is flushed: after the flush
    and the complete event the counter of [n1:inject:f1] is 2, not 1, and it
    is 3 once the record queued by the complete event is flushed as well.
    The histogram holds the single observation 120/1000 s. *)
Theorem send_flush_complete_counts_twice :
  counter_of "n1:inject:f1" after_send = 1
  /\ Hooks.batchTimer (Hooks.hooks after_send) = Some 4%nat
  /\ counter_of "n1:inject:f1" after_flush = 2
  /\ counter_of "n1:inject:f1" after_complete = 2
  /\ map_get labels_dec (Collector.labels_of "n1" "inject" "f1")
       (Collector.messagesTotal (Hooks.metricsCollector after_complete))
     = Some 2
  /\ map_get labels_dec (Collector.labels_of "n1" "inject" "f1")
       (Collector.nodeExecutionTime (Hooks.metricsCollector after_complete))
     = Some [Qmake 120 1000]
  /\ (Qmake 120 1000 == Qmake 12 100)%Q
  /\ Hooks.messageStartTimes (Hooks.hooks after_complete) = []
  /\ counter_of "n1:inject:f1" after_second_flush = 3.
Proof. vm_compute. repeat split. Qed.

(** C3, evaluated with a batch size of 2.  The first record arms timer 2;
    the second fills the batch, which is flushed at once (both records are
    counted, the queue is empty, the handle is reset) while timer 2 stays
    armed in the host; a third record then arms timer 3 next to it. *)
Theorem full_batch_leaves_its_timer_armed :
  let w1 := enqueue small_batcher in
  let w2 := enqueue w1 in
  let w3 := enqueue w2 in
  Hooks.messageBatch (Hooks.hooks small_batcher) = []
  /\ flush_timers (Hooks.timers small_batcher) = []
  /\ map timer_id (flush_timers (Hooks.timers w1)) = [2%nat]
  /\ Hooks.batchTimer (Hooks.hooks w1) = Some 2%nat
  /\ counter_of "n1:inject:f1" w1 = 0
  /\ counter_of "n1:inject:f1" w2 = 2
  /\ Hooks.messageBatch (Hooks.hooks w2) = []
  /\ Hooks.batchTimer (Hooks.hooks w2) = None
  /\ map timer_id (flush_timers (Hooks.timers w2)) = [2%nat]
  /\ map timer_id (flush_timers (Hooks.timers w3)) = [2%nat; 3%nat]
  /\ Hooks.batchTimer (Hooks.hooks w3) = Some 3%nat.
Proof. vm_compute. repeat split. Qed.

(** C7, evaluated with a batch size of 2.  Three messages are received: the
    second fills the batch and leaves the flush timer 4 armed, the third
    arms timer 5.  [stop] clears the two intervals of the hooks and timer 5,
    flushes the third record (the counter reaches 3) and empties the queue
    and the timing table; timer 4 is still armed afterwards, as is the
    collector's interval 3, which [stop] does not touch. *)
Theorem stop_leaves_a_flush_timer_armed :
  timer_ids (Hooks.timers three_received) = [1; 2; 3; 4; 5]%nat
  /\ map timer_id (flush_timers (Hooks.timers three_received)) = [4; 5]%nat
  /\ Hooks.batchTimer (Hooks.hooks three_received) = Some 5%nat
  /\ List.length (Hooks.messageBatch (Hooks.hooks three_received)) = 1%nat
  /\ counter_of "n1:inject:f1" three_received = 2
  /\ counter_of "n1:inject:f1" stopped = 3
  /\ Hooks.messageBatch (Hooks.hooks stopped) = []
  /\ Hooks.messageStartTimes (Hooks.hooks stopped) = []
  /\ Hooks.batchTimer (Hooks.hooks stopped) = None
  /\ Hooks.updateInterval (Hooks.hooks stopped) = None
  /\ Hooks.cleanupTimer (Hooks.hooks stopped) = None
  /\ timer_ids (Hooks.timers stopped) = [3; 4]%nat
  /\ map timer_id (flush_timers (Hooks.timers stopped)) = [4%nat].
Proof. vm_compute. repeat split. Qed.

(** ** The batcher in general *)

(** A flush of a queue that fits in one batch counts the whole queue,
    empties it and resets the handle; the host's timer table is not
    touched. *)
Lemma processBatch_whole_queue w :
  Hooks.messageBatch (Hooks.hooks w) <> [] ->
  Z.of_nat (List.length (Hooks.messageBatch (Hooks.hooks w)))
  <= batchSize (Hooks.options (Hooks.hooks w)) ->
  Hooks.processBatch w
  = {| Hooks.timers := Hooks.timers w;
       Hooks.metricsCollector :=
         Hooks.record_batch (Hooks.messageBatch (Hooks.hooks w))
           (Hooks.metricsCollector w);
       Hooks.hooks := Hooks.with_batch [] None (Hooks.hooks w) |}.
Proof.
  intros Hne Hle. unfold Hooks.processBatch.
  destruct (Hooks.messageBatch (Hooks.hooks w)) as [|r q] eqn:E;
    [congruence|].
  rewrite firstn_all2, skipn_all2 by lia. reflexivity.
Qed.

Lemma processBatch_queue w :
  Hooks.messageBatch (Hooks.hooks (Hooks.processBatch w))
  = skipn (Z.to_nat (batchSize (Hooks.options (Hooks.hooks w))))
      (Hooks.messageBatch (Hooks.hooks w))
  /\ Hooks.options (Hooks.hooks (Hooks.processBatch w))
     = Hooks.options (Hooks.hooks w).
Proof.
  unfold Hooks.processBatch.
  destruct (Hooks.messageBatch (Hooks.hooks w)) as [|r q] eqn:E.
  - rewrite E. now rewrite skipn_nil.
  - destruct (skipn _ (r :: q)) eqn:Es; cbn; now rewrite ?Es.
Qed.

(** The first record of a batch of more than one arms the flush timer. *)
Lemma addToBatch_first n ty f t w :
  Hooks.messageBatch (Hooks.hooks w) = [] ->
  Hooks.batchTimer (Hooks.hooks w) = None ->
  1 < batchSize (Hooks.options (Hooks.hooks w)) ->
  Hooks.addToBatch n ty f t w
  = {| Hooks.timers :=
         snd (setTimeout ProcessBatchCb
                (flushInterval (Hooks.options (Hooks.hooks w)))
                (Hooks.timers w));
       Hooks.metricsCollector := Hooks.metricsCollector w;
       Hooks.hooks :=
         Hooks.with_batch
           [{| Hooks.nodeId := n; Hooks.nodeType := ty; Hooks.flowId := f;
               Hooks.type := t |}]
           (Some (next_timer_id (Hooks.timers w))) (Hooks.hooks w) |}.
Proof.
  intros Hq Ht HB. unfold Hooks.addToBatch. rewrite Hq, Ht. cbn.
  destruct (Z.geb_spec 1 (batchSize (Hooks.options (Hooks.hooks w))));
    [lia|reflexivity].
Qed.

(** A further record that does not fill the batch is only queued. *)
Lemma addToBatch_armed n ty f t w id :
  Hooks.batchTimer (Hooks.hooks w) = Some id ->
  Z.of_nat (List.length (Hooks.messageBatch (Hooks.hooks w))) + 1
  < batchSize (Hooks.options (Hooks.hooks w)) ->
  Hooks.addToBatch n ty f t w
  = Hooks.with_hooks
      (Hooks.with_batch
         (Hooks.messageBatch (Hooks.hooks w)
          ++ [{| Hooks.nodeId := n; Hooks.nodeType := ty; Hooks.flowId := f;
                 Hooks.type := t |}])
         (Some id) (Hooks.hooks w)) w.
Proof.
  intros Ht HB. unfold Hooks.addToBatch. rewrite Ht, length_app. cbn.
  destruct (Z.geb_spec
              (Z.of_nat (List.length (Hooks.messageBatch (Hooks.hooks w)) + 1))
              (batchSize (Hooks.options (Hooks.hooks w))));
    [lia|reflexivity].
Qed.

(** The record that fills the batch triggers the flush of the whole queue,
    and the host's timer table stays as it was. *)
Lemma addToBatch_fills n ty f t w :
  Z.of_nat (List.length (Hooks.messageBatch (Hooks.hooks w))) + 1
  = batchSize (Hooks.options (Hooks.hooks w)) ->
  Hooks.addToBatch n ty f t w
  = {| Hooks.timers := Hooks.timers w;
       Hooks.metricsCollector :=
         Hooks.record_batch
           (Hooks.messageBatch (Hooks.hooks w)
            ++ [{| Hooks.nodeId := n; Hooks.nodeType := ty;
                   Hooks.flowId := f; Hooks.type := t |}])
           (Hooks.metricsCollector w);
       Hooks.hooks := Hooks.with_batch [] None (Hooks.hooks w) |}.
Proof.
  intros HB. unfold Hooks.addToBatch. rewrite length_app. cbn.
  destruct (Z.geb_spec
              (Z.of_nat (List.length (Hooks.messageBatch (Hooks.hooks w)) + 1))
              (batchSize (Hooks.options (Hooks.hooks w))));
    [|lia].
  rewrite processBatch_whole_queue; cbn.
  - reflexivity.
  - intros E. now apply app_eq_nil in E.
  - rewrite length_app. cbn. lia.
Qed.

Lemma enqueue_all_armed rs : forall w id,
  Hooks.batchTimer (Hooks.hooks w) = Some id ->
  Z.of_nat (List.length (Hooks.messageBatch (Hooks.hooks w))
            + List.length rs)
  < batchSize (Hooks.options (Hooks.hooks w)) ->
  enqueue_all rs w
  = Hooks.with_hooks
      (Hooks.with_batch (Hooks.messageBatch (Hooks.hooks w) ++ rs)
         (Some id) (Hooks.hooks w)) w.
Proof.
  induction rs as [|r rs IH]; intros w id Ht HB.
  - destruct w as [ts c h]. destruct h. cbn in *. subst.
    now rewrite app_nil_r.
  - destruct r as [n ty f t].
    change (enqueue_all ({| Hooks.nodeId := n; Hooks.nodeType := ty;
                            Hooks.flowId := f; Hooks.type := t |} :: rs) w)
      with (enqueue_all rs (Hooks.addToBatch n ty f t w)).
    cbn [List.length] in HB.
    rewrite (addToBatch_armed n ty f t w id Ht) by lia.
    rewrite (IH _ id); cbn.
    + now rewrite <- app_assoc.
    + reflexivity.
    + rewrite length_app. cbn. lia.
Qed.

Lemma find_fresh_timer (h : host) (t : timer) :
  host_wf h -> timer_id t = next_timer_id h ->
  find (fun t' => Nat.eqb (timer_id t') (next_timer_id h)) (pending h ++ [t])
  = Some t.
Proof.
  unfold host_wf. intros Hwf Hid.
  induction (pending h) as [|x l IH]; cbn.
  - now rewrite Hid, Nat.eqb_refl.
  - inversion Hwf as [|? ? Hx Hl]; subst.
    destruct (Nat.eqb_spec (timer_id x) (next_timer_id h)); [lia|].
    now apply IH.
Qed.

Lemma clear_fresh_timer (h : host) (t : timer) :
  host_wf h -> timer_id t = next_timer_id h ->
  filter (fun t' => negb (Nat.eqb (timer_id t') (next_timer_id h)))
    (pending h ++ [t])
  = pending h.
Proof.
  unfold host_wf. intros Hwf Hid. rewrite filter_app. cbn.
  rewrite Hid, Nat.eqb_refl. cbn. rewrite app_nil_r.
  apply filter_all. intros x Hx. rewrite Forall_forall in Hwf.
  specialize (Hwf x Hx).
  destruct (Nat.eqb_spec (timer_id x) (next_timer_id h)); [lia|reflexivity].
Qed.

(** The part of C3 that holds.  From a batcher at rest, enqueuing at least
    one and fewer than [batchSize] records arms exactly one flush timer, of
    delay [flushInterval], and counts nothing yet; when the host fires that
    timer the whole queue is counted in one flush, in arrival order, and no
    flush timer is left. *)
Lemma fewer_than_batch_size_flush_once (now : Z) (r : Hooks.BatchRecord)
    (rs : list Hooks.BatchRecord) (w : Hooks.World) :
  batcher_at_rest w ->
  host_wf (Hooks.timers w) ->
  Z.of_nat (List.length (r :: rs)) < batchSize (Hooks.options (Hooks.hooks w)) ->
  let id := next_timer_id (Hooks.timers w) in
  let w' := enqueue_all (r :: rs) w in
  let w'' := Engine.fire now id w' in
  (Hooks.messageBatch (Hooks.hooks w') = r :: rs
   /\ Hooks.batchTimer (Hooks.hooks w') = Some id
   /\ flush_timers (Hooks.timers w')
      = [flush_timer id (Hooks.options (Hooks.hooks w))]
   /\ Hooks.metricsCollector w' = Hooks.metricsCollector w)
  /\ (Hooks.messageBatch (Hooks.hooks w'') = []
      /\ Hooks.batchTimer (Hooks.hooks w'') = None
      /\ flush_timers (Hooks.timers w'') = []
      /\ Hooks.metricsCollector w''
         = Hooks.record_batch (r :: rs) (Hooks.metricsCollector w)).
Proof.
  intros (Hq & Ht & Hf) Hwf HB id w' w''.
  cbn [List.length] in HB.
  assert (Hw' : w'
    = {| Hooks.timers :=
           snd (setTimeout ProcessBatchCb
                  (flushInterval (Hooks.options (Hooks.hooks w)))
                  (Hooks.timers w));
         Hooks.metricsCollector := Hooks.metricsCollector w;
         Hooks.hooks := Hooks.with_batch (r :: rs) (Some id) (Hooks.hooks w) |}).
  { subst w'. destruct r as [n ty f t].
    change (enqueue_all ({| Hooks.nodeId := n; Hooks.nodeType := ty;
                            Hooks.flowId := f; Hooks.type := t |} :: rs) w)
      with (enqueue_all rs (Hooks.addToBatch n ty f t w)).
    rewrite (addToBatch_first n ty f t w Hq Ht) by lia.
    rewrite (enqueue_all_armed rs _ id); cbn; [reflexivity|reflexivity|lia]. }
  assert (Hflush : flush_timers (Hooks.timers w')
                   = [flush_timer id (Hooks.options (Hooks.hooks w))]).
  { rewrite Hw'. cbn. unfold flush_timers in *. cbn.
    rewrite filter_app, Hf. reflexivity. }
  clearbody w'. split.
  - rewrite Hflush, Hw'. cbn. repeat split.
  - subst w''. unfold Engine.fire. rewrite Hw'. cbn [Hooks.timers].
    unfold setTimeout, arm. cbn [snd pending].
    rewrite (find_fresh_timer (Hooks.timers w)) by (auto; reflexivity).
    cbn [timer_repeats Engine.run_callback timer_callback].
    rewrite processBatch_whole_queue; cbn.
    + rewrite (clear_fresh_timer (Hooks.timers w)) by (auto; reflexivity).
      unfold flush_timers in Hf. cbn. now rewrite Hf.
    + discriminate.
    + lia.
Qed.

Lemma enqueue_full_batch (rs : list Hooks.BatchRecord) (w : Hooks.World) :
  Hooks.messageBatch (Hooks.hooks w) = [] ->
  Hooks.batchTimer (Hooks.hooks w) = None ->
  2 <= batchSize (Hooks.options (Hooks.hooks w)) ->
  Z.of_nat (List.length rs) = batchSize (Hooks.options (Hooks.hooks w)) ->
  enqueue_all rs w
  = {| Hooks.timers :=
         snd (setTimeout ProcessBatchCb
                (flushInterval (Hooks.options (Hooks.hooks w)))
                (Hooks.timers w));
       Hooks.metricsCollector :=
         Hooks.record_batch rs (Hooks.metricsCollector w);
       Hooks.hooks := Hooks.with_batch [] None (Hooks.hooks w) |}.
Proof.
  intros Hq Ht HB Hlen.
  destruct rs as [|r1 rs]; [cbn in Hlen; lia|].
  destruct (exists_last (l := rs)) as (mid & rl & ->).
  { intros ->. cbn in Hlen. lia. }
  cbn [List.length] in Hlen. rewrite length_app in Hlen. cbn in Hlen.
  destruct r1 as [n ty f t]. destruct rl as [n' ty' f' t'].
  unfold enqueue_all. cbn [fold_left]. rewrite fold_left_app. cbn [fold_left].
  fold (enqueue_all mid (Hooks.addToBatch n ty f t w)).
  cbn [Hooks.nodeId Hooks.nodeType Hooks.flowId Hooks.type].
  rewrite (addToBatch_first n ty f t w Hq Ht) by lia.
  rewrite (enqueue_all_armed mid _ (next_timer_id (Hooks.timers w)));
    cbn; [|reflexivity|lia].
  rewrite addToBatch_fills; cbn; [reflexivity|lia].
Qed.

(** The defect behind C3 and C7, for every batch size of at least 2.  From
    a batcher at rest, enqueuing exactly [batchSize] records flushes them
    all at once and resets the handle, and the timer armed by the first
    record is still pending in the host; one more record then arms a second
    flush timer next to it. *)
Lemma full_batch_leaves_timer_pending (rs : list Hooks.BatchRecord)
    (r : Hooks.BatchRecord) (w : Hooks.World) :
  batcher_at_rest w ->
  2 <= batchSize (Hooks.options (Hooks.hooks w)) ->
  Z.of_nat (List.length rs) = batchSize (Hooks.options (Hooks.hooks w)) ->
  let o := Hooks.options (Hooks.hooks w) in
  let id := next_timer_id (Hooks.timers w) in
  let w' := enqueue_all rs w in
  let w'' := enqueue_all [r] w' in
  (Hooks.messageBatch (Hooks.hooks w') = []
   /\ Hooks.batchTimer (Hooks.hooks w') = None
   /\ Hooks.metricsCollector w'
      = Hooks.record_batch rs (Hooks.metricsCollector w)
   /\ flush_timers (Hooks.timers w') = [flush_timer id o])
  /\ flush_timers (Hooks.timers w'')
     = [flush_timer id o; flush_timer (S id) o].
Proof.
  intros (Hq & Ht & Hf) HB Hlen o id w' w''.
  assert (Hw' : w' = _) by exact (enqueue_full_batch rs w Hq Ht HB Hlen).
  clearbody w'. subst w''. rewrite Hw'. split.
  - cbn. repeat split. unfold flush_timers in *. cbn.
    now rewrite filter_app, Hf.
  - destruct r as [n ty f t]. unfold enqueue_all. cbn [fold_left].
    cbn [Hooks.nodeId Hooks.nodeType Hooks.flowId Hooks.type].
    rewrite addToBatch_first; cbn; [|reflexivity|reflexivity|lia].
    unfold flush_timers in *. cbn.
    rewrite !filter_app, Hf. reflexivity.
Qed.

(** ** The queue stays below the batch size, and [stop] flushes it *)

Lemma below_of_same_queue w w' :
  Hooks.options (Hooks.hooks w') = Hooks.options (Hooks.hooks w) ->
  Hooks.messageBatch (Hooks.hooks w') = Hooks.messageBatch (Hooks.hooks w) ->
  queue_below_batch_size w -> queue_below_batch_size w'.
Proof. unfold queue_below_batch_size. intros -> ->. tauto. Qed.

Lemma processBatch_keeps_below w :
  queue_below_batch_size w -> queue_below_batch_size (Hooks.processBatch w).
Proof.
  unfold queue_below_batch_size. intros [HB Hlen].
  destruct (processBatch_queue w) as [-> ->]. split; [exact HB|].
  rewrite length_skipn. lia.
Qed.

Lemma addToBatch_keeps_below n ty f t w :
  queue_below_batch_size w ->
  queue_below_batch_size (Hooks.addToBatch n ty f t w).
Proof.
  unfold queue_below_batch_size. intros [HB Hlen]. unfold Hooks.addToBatch.
  match goal with
  | |- context [if ?b then _ else _] => destruct b eqn:Hfull
  end.
  - match goal with
    | |- context [Hooks.processBatch ?w1] =>
        destruct (processBatch_queue w1) as [-> ->]
    end.
    cbn. split; [exact HB|]. rewrite length_skipn, length_app. cbn. lia.
  - rewrite Z.geb_leb in Hfull. apply Z.leb_gt in Hfull.
    rewrite length_app in Hfull. cbn in Hfull.
    destruct (Hooks.batchTimer (Hooks.hooks w)); cbn;
      (split; [exact HB | rewrite length_app; cbn; lia]).
Qed.

Lemma handleSendEvent_keeps_below now g ev w :
  queue_below_batch_size w ->
  queue_below_batch_size (Hooks.handleSendEvent now g ev w).
Proof.
  intros H. unfold Hooks.handleSendEvent.
  set (w1 := Hooks.with_collector _ w).
  assert (H1 : queue_below_batch_size w1) by exact H.
  apply (below_of_same_queue
           (Hooks.addToBatch (extract_id (source ev))
              (extract_type (source ev)) (extract_z (source ev))
              Hooks.send w1)); [reflexivity|reflexivity|].
  now apply addToBatch_keeps_below.
Qed.

Lemma handleReceiveEvent_keeps_below now g ev w :
  queue_below_batch_size w ->
  queue_below_batch_size (Hooks.handleReceiveEvent now g ev w).
Proof.
  intros H. unfold Hooks.handleReceiveEvent.
  apply (below_of_same_queue
           (Hooks.addToBatch (extract_id (destination ev))
              (extract_type (destination ev)) (extract_z (destination ev))
              Hooks.receive w)); [reflexivity|reflexivity|].
  now apply addToBatch_keeps_below.
Qed.

Lemma handleCompleteEvent_keeps_below now ev w :
  queue_below_batch_size w ->
  queue_below_batch_size (Hooks.handleCompleteEvent now ev w).
Proof.
  intros H. unfold Hooks.handleCompleteEvent.
  apply (below_of_same_queue
           (Hooks.addToBatch (extract_id (node ev))
              (extract_type (node ev)) (extract_z (node ev))
              Hooks.complete w));
    [| | apply addToBatch_keeps_below; exact H].
  - destruct (map_get _ _ _) as [startTime|];
      [destruct (startTime =? 0)|]; destruct (error ev); reflexivity.
  - destruct (map_get _ _ _) as [startTime|];
      [destruct (startTime =? 0)|]; destruct (error ev); reflexivity.
Qed.

Lemma fire_keeps_below now id w :
  queue_below_batch_size w -> queue_below_batch_size (Engine.fire now id w).
Proof.
  intros H. unfold Engine.fire.
  destruct (find _ _) as [t|]; [|exact H].
  set (w1 := if timer_repeats t then w else _).
  assert (H1 : queue_below_batch_size w1)
    by (subst w1; destruct (timer_repeats t); exact H).
  destruct (timer_callback t); cbn [Engine.run_callback].
  - now apply processBatch_keeps_below.
  - exact H1.
  - exact H1.
  - exact H1.
Qed.

(** [stop] counts every record still queued, then discards the queue and
    the timing table and resets its three handles; the timers these handles
    named are no longer pending. *)
Lemma stop_flushes_queue w :
  queue_below_batch_size w ->
  let w' := Hooks.stop w in
  Hooks.metricsCollector w'
  = Hooks.record_batch (Hooks.messageBatch (Hooks.hooks w))
      (Hooks.metricsCollector w)
  /\ Hooks.messageBatch (Hooks.hooks w') = []
  /\ Hooks.messageStartTimes (Hooks.hooks w') = []
  /\ Hooks.batchTimer (Hooks.hooks w') = None
  /\ Hooks.updateInterval (Hooks.hooks w') = None
  /\ Hooks.cleanupTimer (Hooks.hooks w') = None
  /\ Hooks.timers w'
     = Hooks.clear_handle (Hooks.batchTimer (Hooks.hooks w))
         (Hooks.clear_handle (Hooks.cleanupTimer (Hooks.hooks w))
            (Hooks.clear_handle (Hooks.updateInterval (Hooks.hooks w))
               (Hooks.timers w))).
Proof.
  intros [HB Hlen] w'. subst w'. unfold Hooks.stop.
  destruct (Hooks.messageBatch (Hooks.hooks w)) as [|r q] eqn:Hq.
  - unfold Hooks.processBatch. cbn. repeat split.
  - rewrite processBatch_whole_queue; cbn.
    + repeat split.
    + discriminate.
    + cbn in Hlen. lia.
Qed.

Lemma stop_keeps_below w :
  queue_below_batch_size w -> queue_below_batch_size (Hooks.stop w).
Proof.
  intros H. destruct (stop_flushes_queue w H) as (_ & Hq & _).
  destruct H as [HB Hlen]. unfold queue_below_batch_size.
  rewrite Hq. unfold Hooks.stop. cbn.
  match goal with
  | |- context [Hooks.processBatch ?w1] =>
      destruct (processBatch_queue w1) as [_ ->]
  end.
  cbn. lia.
Qed.

Lemma new_engine_below o :
  1 <= batchSize o ->
  queue_below_batch_size (Engine.init (Engine.create o)).
Proof.
  intros HB. unfold Engine.init.
  destruct (Collector.start _ _) as [h c] eqn:E.
  unfold queue_below_batch_size. cbn. lia.
Qed.

Lemma run_keeps_below actions : forall w,
  queue_below_batch_size w ->
  queue_below_batch_size (Engine.run w actions).
Proof.
  induction actions as [|a actions IH]; intros w H; [exact H|].
  apply IH. destruct a; cbn [Engine.step].
  - now apply handleSendEvent_keeps_below.
  - now apply handleReceiveEvent_keeps_below.
  - now apply handleCompleteEvent_keeps_below.
  - now apply fire_keeps_below.
  - now apply stop_keeps_below.
Qed.

(** The part of C7 that holds.  Whatever a new engine of positive batch
    size has been through, [stop] counts every record that is still queued
    before it discards the queue and the timing table, and it resets the
    three handles of the hooks. *)
Lemma stop_drops_no_record (o : Options) (actions : list Engine.action) :
  1 <= batchSize o ->
  let w := Engine.run (Engine.init (Engine.create o)) actions in
  let w' := Hooks.stop w in
  Hooks.metricsCollector w'
  = Hooks.record_batch (Hooks.messageBatch (Hooks.hooks w))
      (Hooks.metricsCollector w)
  /\ Hooks.messageBatch (Hooks.hooks w') = []
  /\ Hooks.messageStartTimes (Hooks.hooks w') = []
  /\ Hooks.batchTimer (Hooks.hooks w') = None
  /\ Hooks.updateInterval (Hooks.hooks w') = None
  /\ Hooks.cleanupTimer (Hooks.hooks w') = None.
Proof.
  intros HB w w'.
  assert (H : queue_below_batch_size w)
    by (apply run_keeps_below, new_engine_below, HB).
  destruct (stop_flushes_queue w H) as (H1 & H2 & H3 & H4 & H5 & H6 & _).
  repeat split; assumption.
Qed.

(** ** [stop] after a full batch *)

Lemma flush_timers_clear (handle : option nat) (h : host) :
  flush_timers (Hooks.clear_handle handle h)
  = match handle with
    | Some id =>
        filter (fun t => negb (Nat.eqb (timer_id t) id)) (flush_timers h)
    | None => flush_timers h
    end.
Proof.
  destruct handle as [id|]; [|reflexivity].
  unfold flush_timers, Hooks.clear_handle, clearTimeout. cbn.
  rewrite !filter_filter. apply filter_ext. intros t.
  apply andb_comm.
Qed.

(** The defect behind C7, for every batch size of at least 2.  When a full
    batch has been enqueued on a batcher at rest and the engine is then
    stopped, every record has been counted and the queue is empty, and the
    flush timer armed by the first record is still pending. *)
Lemma stop_after_full_batch (rs : list Hooks.BatchRecord) (w : Hooks.World) :
  batcher_at_rest w ->
  handles_issued w ->
  2 <= batchSize (Hooks.options (Hooks.hooks w)) ->
  Z.of_nat (List.length rs) = batchSize (Hooks.options (Hooks.hooks w)) ->
  let w' := Hooks.stop (enqueue_all rs w) in
  Hooks.messageBatch (Hooks.hooks w') = []
  /\ Hooks.batchTimer (Hooks.hooks w') = None
  /\ Hooks.metricsCollector w'
     = Hooks.record_batch rs (Hooks.metricsCollector w)
  /\ flush_timers (Hooks.timers w')
     = [flush_timer (next_timer_id (Hooks.timers w))
          (Hooks.options (Hooks.hooks w))].
Proof.
  intros (Hq & Ht & Hf) Hissued HB Hlen w'. subst w'.
  rewrite (enqueue_full_batch rs w Hq Ht HB Hlen).
  unfold Hooks.stop, Hooks.processBatch. cbn.
  repeat split.
  rewrite !flush_timers_clear.
  assert (Hft : flush_timers
                  {| next_timer_id := S (next_timer_id (Hooks.timers w));
                     pending := pending (Hooks.timers w)
                       ++ [flush_timer (next_timer_id (Hooks.timers w))
                             (Hooks.options (Hooks.hooks w))] |}
                = [flush_timer (next_timer_id (Hooks.timers w))
                     (Hooks.options (Hooks.hooks w))]).
  { unfold flush_timers in *. cbn. now rewrite filter_app, Hf. }
  unfold flush_timer in Hft. rewrite Hft.
  assert (Hu : forall id,
             Hooks.updateInterval (Hooks.hooks w) = Some id ->
             Nat.eqb (next_timer_id (Hooks.timers w)) id = false).
  { intros id E. apply Nat.eqb_neq.
    specialize (Hissued id). cbn in Hissued. rewrite E in Hissued.
    specialize (Hissued (or_introl eq_refl)). lia. }
  assert (Hc : forall id,
             Hooks.cleanupTimer (Hooks.hooks w) = Some id ->
             Nat.eqb (next_timer_id (Hooks.timers w)) id = false).
  { intros id E. apply Nat.eqb_neq.
    specialize (Hissued id). cbn in Hissued. rewrite E in Hissued.
    specialize (Hissued (or_intror (or_introl eq_refl))). lia. }
  destruct (Hooks.updateInterval (Hooks.hooks w)) as [u|];
    destruct (Hooks.cleanupTimer (Hooks.hooks w)) as [c|]; cbn;
    rewrite ?(Hu _ eq_refl), ?(Hc _ eq_refl); cbn;
    rewrite ?(Hc _ eq_refl); reflexivity.
Qed.

(* ===================================================================== *)
(** * Part III: further properties of the two classes                     *)
(* ===================================================================== *)

(** ** What the handlers read from an event *)

Lemma or_default_nonempty a d : d <> ""%string -> or_default a d <> ""%string.
Proof.
  intros Hd. unfold or_default. destruct a as [s|]; [|exact Hd].
  destruct (String.eqb_spec s ""); assumption.
Qed.

(** X1.  The node id, node type and flow id a handler reads from an event
    are never empty, whatever the event holds; every field of an event
    without descriptor reads as [unknown]. *)
Theorem extracted_fields_never_empty (x : option Descriptor) :
  (extract_id x <> "" /\ extract_type x <> "" /\ extract_z x <> "")%string
  /\ (extract_id None, extract_type None, extract_z None)
     = ("unknown", "unknown", "unknown")%string.
Proof.
  split.
  - unfold extract_id, extract_type, extract_z, extract.
    repeat split; apply or_default_nonempty; discriminate.
  - reflexivity.
Qed.

(** ** Error notifications *)

Lemma handle_error_collector w e :
  Listeners.handle_error w e
  = Hooks.with_collector
      (Collector.with_errors
         (Collector.inc error_labels_dec (Listeners.labels_of_error e)
            (Collector.errorsTotal (Hooks.metricsCollector w)))
         (Hooks.metricsCollector w)) w.
Proof.
  destruct e as [ev|ev]; cbn [Listeners.handle_error Listeners.labels_of_error].
  - unfold Listeners.handleNodeError.
    destruct (Listeners.node_error_labels ev) as [[[n ty] f] e]. reflexivity.
  - unfold Listeners.handleFlowError.
    destruct (Listeners.flow_error_labels ev) as [[[n ty] f] e]. reflexivity.
Qed.

(** X2.  After any sequence of node-error and flow-error notifications the
    error counter of a label set has grown by the number of notifications
    that map to it (an unnamed error counting as [runtime] for a node and as
    [flow] for a flow, missing ids as [unknown]); the message counters, the
    hooks object and the host's timers are as before. *)
Theorem error_notifications_are_counted (evs : list Listeners.error_event)
    (w : Hooks.World) (l : error_labels) :
  let w' := fold_left Listeners.handle_error evs w in
  get_or0 error_labels_dec l
    (Collector.errorsTotal (Hooks.metricsCollector w'))
  = get_or0 error_labels_dec l
      (Collector.errorsTotal (Hooks.metricsCollector w))
    + Z.of_nat (errors_with_labels l evs)
  /\ Collector.messageCounters (Hooks.metricsCollector w')
     = Collector.messageCounters (Hooks.metricsCollector w)
  /\ Collector.messagesTotal (Hooks.metricsCollector w')
     = Collector.messagesTotal (Hooks.metricsCollector w)
  /\ Hooks.hooks w' = Hooks.hooks w
  /\ Hooks.timers w' = Hooks.timers w.
Proof.
  cbv zeta. revert w.
  induction evs as [|e evs IH]; intros w.
  - unfold errors_with_labels. cbn. repeat split. lia.
  - cbn [fold_left]. destruct (IH (Listeners.handle_error w e))
      as (H1 & H2 & H3 & H4 & H5).
    rewrite H1, H2, H3, H4, H5, handle_error_collector. cbn.
    repeat split.
    unfold errors_with_labels. cbn [filter].
    unfold Collector.inc. rewrite get_or0_set.
    destruct (error_labels_dec l (Listeners.labels_of_error e)) as [->|Hne].
    + destruct (error_labels_dec _ _); [|congruence]. cbn [List.length]. lia.
    + destruct (error_labels_dec (Listeners.labels_of_error e) l);
        [congruence|]. lia.
Qed.

(** ** Every event is accounted for *)

Lemma count_key_app k rs1 rs2 :
  count_key k (rs1 ++ rs2) = count_key k rs1 + count_key k rs2.
Proof. unfold count_key. rewrite filter_app, length_app. lia. Qed.

Lemma record_batch_counter k batch : forall c,
  get_or0 string_dec k (Collector.messageCounters (Hooks.record_batch batch c))
  = get_or0 string_dec k (Collector.messageCounters c) + count_key k batch.
Proof.
  induction batch as [|r batch IH]; intros c.
  - unfold count_key. cbn. lia.
  - change (Hooks.record_batch (r :: batch) c)
      with (Hooks.record_batch batch
              (Collector.recordMessage (Hooks.nodeId r) (Hooks.nodeType r)
                 (Hooks.flowId r) c)).
    rewrite IH. change (r :: batch) with ([r] ++ batch).
    rewrite count_key_app. unfold Collector.recordMessage.
    cbn [Collector.messageCounters Collector.with_messages].
    rewrite get_or0_set. unfold count_key at 2, record_key. cbn [filter].
    destruct (string_dec k _) as [->|Hne].
    + rewrite String.eqb_refl. cbn [List.length]. lia.
    + destruct (String.eqb_spec
                  (metricKey (Hooks.nodeId r) (Hooks.nodeType r)
                     (Hooks.flowId r)) k); [congruence|].
      cbn [List.length]. lia.
Qed.

Lemma processBatch_collector w :
  Hooks.metricsCollector (Hooks.processBatch w)
  = Hooks.record_batch
      (firstn (Z.to_nat (batchSize (Hooks.options (Hooks.hooks w))))
         (Hooks.messageBatch (Hooks.hooks w)))
      (Hooks.metricsCollector w).
Proof.
  unfold Hooks.processBatch.
  destruct (Hooks.messageBatch (Hooks.hooks w)) as [|r q] eqn:E.
  - now rewrite firstn_nil.
  - destruct (skipn _ (r :: q)); reflexivity.
Qed.

(** A flush moves records from the queue to the counters and loses
    none. *)
Lemma processBatch_conserves k w :
  counter_of k (Hooks.processBatch w) + queued k (Hooks.processBatch w)
  = counter_of k w + queued k w.
Proof.
  unfold counter_of, queued.
  destruct (processBatch_queue w) as [-> _].
  rewrite processBatch_collector, record_batch_counter.
  rewrite <- Z.add_assoc, <- count_key_app, firstn_skipn. reflexivity.
Qed.

Lemma addToBatch_conserves k n ty f t w :
  counter_of k (Hooks.addToBatch n ty f t w)
  + queued k (Hooks.addToBatch n ty f t w)
  = counter_of k w + queued k w
    + (if String.eqb (metricKey n ty f) k then 1 else 0).
Proof.
  assert (Hq : forall bt,
    let w1 := Hooks.with_hooks
                (Hooks.with_batch
                   (Hooks.messageBatch (Hooks.hooks w)
                    ++ [{| Hooks.nodeId := n; Hooks.nodeType := ty;
                           Hooks.flowId := f; Hooks.type := t |}])
                   bt (Hooks.hooks w)) w in
    counter_of k w1 + queued k w1
    = counter_of k w + queued k w
      + (if String.eqb (metricKey n ty f) k then 1 else 0)).
  { intros bt. cbv zeta. unfold counter_of, queued.
    cbn [Hooks.hooks Hooks.with_hooks Hooks.with_batch Hooks.messageBatch
         Hooks.metricsCollector].
    rewrite count_key_app. unfold count_key at 2, record_key.
    cbn [filter Hooks.nodeId Hooks.nodeType Hooks.flowId].
    destruct (String.eqb (metricKey n ty f) k); cbn [List.length]; lia. }
  unfold Hooks.addToBatch.
  match goal with
  | |- context [if ?b then _ else _] => destruct b
  end.
  - rewrite processBatch_conserves. apply Hq.
  - destruct (Hooks.batchTimer (Hooks.hooks w)) as [id|].
    + apply Hq.
    + rewrite <- (Hq None). reflexivity.
Qed.

Lemma recordMessage_counter k n ty f c :
  get_or0 string_dec k
    (Collector.messageCounters (Collector.recordMessage n ty f c))
  = get_or0 string_dec k (Collector.messageCounters c)
    + (if String.eqb (metricKey n ty f) k then 1 else 0).
Proof.
  unfold Collector.recordMessage.
  cbn [Collector.messageCounters Collector.with_messages].
  rewrite get_or0_set. destruct (string_dec k _) as [->|Hne].
  - now rewrite String.eqb_refl.
  - destruct (String.eqb_spec (metricKey n ty f) k); [congruence|lia].
Qed.

Lemma updateMetricsFromRealData_counters c :
  Collector.messageCounters (fst (Collector.updateMetricsFromRealData c))
  = Collector.messageCounters c.
Proof.
  unfold Collector.updateMetricsFromRealData. cbn [fst].
  destruct (Collector.totalFlows (Collector.calculateRealFlowMetrics c) >? 0);
    match goal with
    | |- context [Collector.totalNodes ?x >? 0] =>
        destruct (Collector.totalNodes x >? 0)
    end; reflexivity.
Qed.

Lemma step_conserves k a w :
  queue_below_batch_size w ->
  counter_of k (Engine.step w a) + queued k (Engine.step w a)
  = counter_of k w + queued k w + contribution k a.
Proof.
  intros Hbelow. destruct a as [now g ev|now g ev|now ev|now id|];
    cbn [Engine.step contribution].
  - unfold Hooks.handleSendEvent.
    set (w1 := Hooks.with_collector _ w).
    change (counter_of k (Hooks.addToBatch (extract_id (source ev))
                            (extract_type (source ev))
                            (extract_z (source ev)) Hooks.send w1)
            + queued k (Hooks.addToBatch (extract_id (source ev))
                          (extract_type (source ev))
                          (extract_z (source ev)) Hooks.send w1)
            = counter_of k w + queued k w
              + (if String.eqb (metricKey (extract_id (source ev))
                                  (extract_type (source ev))
                                  (extract_z (source ev))) k
                 then 2 else 0)).
    rewrite addToBatch_conserves. subst w1. unfold counter_of, queued.
    cbn [Hooks.metricsCollector Hooks.with_collector Hooks.hooks].
    rewrite recordMessage_counter.
    destruct (String.eqb _ k); lia.
  - unfold Hooks.handleReceiveEvent.
    change (counter_of k (Hooks.addToBatch (extract_id (destination ev))
                            (extract_type (destination ev))
                            (extract_z (destination ev)) Hooks.receive w)
            + queued k (Hooks.addToBatch (extract_id (destination ev))
                          (extract_type (destination ev))
                          (extract_z (destination ev)) Hooks.receive w)
            = counter_of k w + queued k w
              + (if String.eqb (metricKey (extract_id (destination ev))
                                  (extract_type (destination ev))
                                  (extract_z (destination ev))) k
                 then 1 else 0)).
    apply addToBatch_conserves.
  - rewrite <- (addToBatch_conserves k (extract_id (node ev))
                  (extract_type (node ev)) (extract_z (node ev))
                  Hooks.complete w).
    unfold Hooks.handleCompleteEvent, counter_of, queued.
    destruct (map_get _ _ _) as [startTime|];
      [destruct (startTime =? 0)|]; destruct (error ev); reflexivity.
  - rewrite Z.add_0_r. unfold Engine.fire.
    destruct (find _ _) as [t|]; [|reflexivity].
    set (w1 := if timer_repeats t then w else _).
    assert (H1 : counter_of k w1 + queued k w1 = counter_of k w + queued k w)
      by (subst w1; destruct (timer_repeats t); reflexivity).
    rewrite <- H1.
    destruct (timer_callback t); cbn [Engine.run_callback].
    + apply processBatch_conserves.
    + reflexivity.
    + unfold Hooks.collectNodeTypeMetrics, Hooks.collectFlowMetrics,
        counter_of, queued.
      cbn [Hooks.metricsCollector Hooks.with_collector Hooks.hooks].
      now rewrite !updateMetricsFromRealData_counters.
    + reflexivity.
  - pose proof (stop_flushes_queue w Hbelow) as Hstop. cbv zeta in Hstop.
    destruct Hstop as (Hc & Hq & _).
    unfold counter_of, queued. rewrite Hc, Hq, record_batch_counter.
    unfold count_key. cbn [filter List.length]. lia.
Qed.

Lemma step_keeps_below a w :
  queue_below_batch_size w -> queue_below_batch_size (Engine.step w a).
Proof.
  intros H. destruct a; cbn [Engine.step].
  - now apply handleSendEvent_keeps_below.
  - now apply handleReceiveEvent_keeps_below.
  - now apply handleCompleteEvent_keeps_below.
  - now apply fire_keeps_below.
  - now apply stop_keeps_below.
Qed.

Lemma run_conserves k actions : forall w,
  queue_below_batch_size w ->
  counter_of k (Engine.run w actions) + queued k (Engine.run w actions)
  = counter_of k w + queued k w + contributions k actions.
Proof.
  induction actions as [|a actions IH]; intros w H.
  - cbn. lia.
  - change (Engine.run w (a :: actions))
      with (Engine.run (Engine.step w a) actions).
    rewrite IH by now apply step_keeps_below.
    rewrite step_conserves by assumption.
    change (contributions k (a :: actions))
      with (contribution k a + contributions k actions). lia.
Qed.

(** X3.  For a positive batch size and whatever the host does with a new
    engine (events, timers firing in any order, stops), the message counter
    of a key plus the queued records of that key is the number of events
    seen for the key, a send event counting twice and a receive or complete
    event once: batching and stopping neither lose nor repeat a record. *)
Theorem events_are_accounted_for (o : Options) (actions : list Engine.action)
    (k : string) :
  1 <= batchSize o ->
  let w := Engine.run (Engine.init (Engine.create o)) actions in
  counter_of k w + queued k w = contributions k actions.
Proof.
  intros HB w. subst w.
  rewrite run_conserves by now apply new_engine_below.
  unfold counter_of, queued, count_key, Engine.init.
  destruct (Collector.start _ _) as [h c] eqn:E. cbn.
  unfold Collector.start in E. cbn in E. inversion E; subst. cbn. lia.
Qed.

(** ** A queued record always has its flush timer *)

Lemma flush_scheduled_of_same w w' :
  Hooks.messageBatch (Hooks.hooks w') = Hooks.messageBatch (Hooks.hooks w) ->
  Hooks.batchTimer (Hooks.hooks w') = Hooks.batchTimer (Hooks.hooks w) ->
  Hooks.timers w' = Hooks.timers w ->
  flush_scheduled w -> flush_scheduled w'.
Proof. unfold flush_scheduled. intros -> -> ->. tauto. Qed.

Lemma flush_scheduled_at_rest w :
  Hooks.messageBatch (Hooks.hooks w) = [] ->
  Hooks.batchTimer (Hooks.hooks w) = None ->
  (forall t, In t (pending (Hooks.timers w)) ->
     timer_repeats t = false -> is_flush_timer t = true) ->
  flush_scheduled w.
Proof.
  intros Hq Ht H4. unfold flush_scheduled. rewrite Hq, Ht.
  split; [congruence|]. split; [discriminate|exact H4].
Qed.

Lemma timeouts_after_clear id h :
  (forall t, In t (pending h) ->
     timer_repeats t = false -> is_flush_timer t = true) ->
  forall t, In t (pending (clearTimeout id h)) ->
    timer_repeats t = false -> is_flush_timer t = true.
Proof.
  intros H t Hin. apply H. unfold clearTimeout in Hin. cbn in Hin.
  apply filter_In in Hin. tauto.
Qed.

Lemma timeouts_after_clear_handle handle h :
  (forall t, In t (pending h) ->
     timer_repeats t = false -> is_flush_timer t = true) ->
  forall t, In t (pending (Hooks.clear_handle handle h)) ->
    timer_repeats t = false -> is_flush_timer t = true.
Proof.
  destruct handle as [id|]; [apply timeouts_after_clear|auto].
Qed.

Lemma processBatch_keeps_scheduled w :
  queue_below_batch_size w -> flush_scheduled w ->
  flush_scheduled (Hooks.processBatch w).
Proof.
  intros [HB Hlen] (H1 & H2 & H4).
  destruct (Hooks.messageBatch (Hooks.hooks w)) as [|r q] eqn:Hq.
  - unfold Hooks.processBatch. rewrite Hq.
    unfold flush_scheduled. rewrite Hq. tauto.
  - rewrite processBatch_whole_queue
      by (rewrite Hq; try discriminate; cbn [List.length] in *; lia).
    now apply flush_scheduled_at_rest.
Qed.

Lemma addToBatch_keeps_scheduled n ty f t w :
  queue_below_batch_size w -> flush_scheduled w ->
  flush_scheduled (Hooks.addToBatch n ty f t w).
Proof.
  intros [HB Hlen] (H1 & H2 & H4).
  destruct (Z.lt_ge_cases
              (Z.of_nat (List.length (Hooks.messageBatch (Hooks.hooks w))) + 1)
              (batchSize (Hooks.options (Hooks.hooks w)))) as [Hroom|Hfull].
  - destruct (Hooks.batchTimer (Hooks.hooks w)) as [id|] eqn:Ht.
    + rewrite (addToBatch_armed n ty f t w id Ht Hroom).
      destruct (H2 id eq_refl) as [Hp _].
      unfold flush_scheduled. cbn. split; [discriminate|].
      split; [|exact H4]. intros id' E. inversion E; subst id'.
      split; [exact Hp|]. intros E'. now apply app_eq_nil in E'.
    + assert (Hq : Hooks.messageBatch (Hooks.hooks w) = []).
      { destruct (Hooks.messageBatch (Hooks.hooks w)); [reflexivity|].
        exfalso. apply H1; [discriminate|reflexivity]. }
      rewrite Hq in Hroom. cbn in Hroom.
      rewrite (addToBatch_first n ty f t w Hq Ht) by lia.
      unfold flush_scheduled, flush_pending, flush_timers. cbn.
      split; [discriminate|]. split.
      * intros id E. inversion E; subst id. split; [|discriminate].
        rewrite filter_app, map_app. apply in_or_app. right. cbn. now left.
      * intros t0 Hin. apply in_app_or in Hin.
        destruct Hin as [Hin|[<-|[]]]; [now apply H4|reflexivity].
  - rewrite addToBatch_fills by lia.
    now apply flush_scheduled_at_rest.
Qed.

Lemma fire_keeps_scheduled now id w :
  queue_below_batch_size w -> flush_scheduled w ->
  flush_scheduled (Engine.fire now id w).
Proof.
  intros Hbelow Hfs. unfold Engine.fire.
  destruct (find _ _) as [t|] eqn:Hfind; [|exact Hfs].
  apply find_some in Hfind. destruct Hfind as [Hin _].
  destruct (timer_repeats t) eqn:Hrep.
  - destruct (timer_callback t); cbn [Engine.run_callback].
    + now apply processBatch_keeps_scheduled.
    + exact Hfs.
    + exact Hfs.
    + exact Hfs.
  - destruct Hfs as (H1 & H2 & H4).
    pose proof (H4 t Hin Hrep) as Hflush. unfold is_flush_timer in Hflush.
    destruct (timer_callback t); try discriminate.
    cbn [Engine.run_callback].
    destruct Hbelow as [HB Hlen].
    destruct (Hooks.messageBatch (Hooks.hooks w)) as [|r q] eqn:Hq.
    + unfold Hooks.processBatch. cbn. rewrite Hq.
      apply flush_scheduled_at_rest; cbn.
      * exact Hq.
      * destruct (Hooks.batchTimer (Hooks.hooks w)) as [bt|] eqn:Ht;
          [|reflexivity].
        destruct (H2 bt eq_refl) as [_ Hne]. congruence.
      * now apply (timeouts_after_clear id (Hooks.timers w)).
    + rewrite processBatch_whole_queue; cbn; rewrite ?Hq;
        [|discriminate|lia].
      apply flush_scheduled_at_rest; cbn; try reflexivity.
      now apply (timeouts_after_clear id (Hooks.timers w)).
Qed.

Lemma stop_keeps_scheduled w :
  queue_below_batch_size w -> flush_scheduled w ->
  flush_scheduled (Hooks.stop w).
Proof.
  intros Hbelow (_ & _ & H4).
  pose proof (stop_flushes_queue w Hbelow) as Hstop. cbv zeta in Hstop.
  destruct Hstop as (_ & Hq & _ & Ht & _ & _ & Htimers).
  apply flush_scheduled_at_rest; [exact Hq|exact Ht|].
  rewrite Htimers. now repeat apply timeouts_after_clear_handle.
Qed.

Lemma step_keeps_scheduled a w :
  queue_below_batch_size w -> flush_scheduled w ->
  flush_scheduled (Engine.step w a).
Proof.
  intros Hbelow Hfs. destruct a as [now g ev|now g ev|now ev|now id|];
    cbn [Engine.step].
  - unfold Hooks.handleSendEvent. set (w1 := Hooks.with_collector _ w).
    apply (flush_scheduled_of_same
             (Hooks.addToBatch (extract_id (source ev))
                (extract_type (source ev)) (extract_z (source ev))
                Hooks.send w1)); try reflexivity.
    apply addToBatch_keeps_scheduled; [exact Hbelow|exact Hfs].
  - unfold Hooks.handleReceiveEvent.
    apply (flush_scheduled_of_same
             (Hooks.addToBatch (extract_id (destination ev))
                (extract_type (destination ev)) (extract_z (destination ev))
                Hooks.receive w)); try reflexivity.
    now apply addToBatch_keeps_scheduled.
  - unfold Hooks.handleCompleteEvent.
    apply (flush_scheduled_of_same
             (Hooks.addToBatch (extract_id (node ev))
                (extract_type (node ev)) (extract_z (node ev))
                Hooks.complete w));
      [| | |now apply addToBatch_keeps_scheduled];
      (destruct (map_get _ _ _) as [startTime|];
       [destruct (startTime =? 0)|]; destruct (error ev); reflexivity).
  - now apply fire_keeps_scheduled.
  - now apply stop_keeps_scheduled.
Qed.

Lemma new_engine_scheduled o : flush_scheduled (Engine.init (Engine.create o)).
Proof.
  apply flush_scheduled_at_rest; try reflexivity.
  cbn. intros t [<-|[<-|[<-|[]]]]; discriminate.
Qed.

Lemma run_keeps_scheduled actions : forall w,
  queue_below_batch_size w -> flush_scheduled w ->
  queue_below_batch_size (Engine.run w actions)
  /\ flush_scheduled (Engine.run w actions).
Proof.
  induction actions as [|a actions IH]; intros w Hb Hs; [now split|].
  apply IH; [now apply step_keeps_below|now apply step_keeps_scheduled].
Qed.

(** X4.  Batching never stalls.  For a positive batch size and whatever the
    host does with a new engine, an empty queue goes with a null
    [batchTimer], and a non-empty queue with a [batchTimer] that names a
    flush timer the host still holds. *)
Theorem queued_records_have_a_flush_timer (o : Options)
    (actions : list Engine.action) :
  1 <= batchSize o ->
  let w := Engine.run (Engine.init (Engine.create o)) actions in
  match Hooks.messageBatch (Hooks.hooks w) with
  | [] => Hooks.batchTimer (Hooks.hooks w) = None
  | _ :: _ =>
      exists id, Hooks.batchTimer (Hooks.hooks w) = Some id
                 /\ flush_pending id (Hooks.timers w)
  end.
Proof.
  intros HB w.
  destruct (run_keeps_scheduled actions (Engine.init (Engine.create o))
              (new_engine_below o HB) (new_engine_scheduled o))
    as [_ (H1 & H2 & _)].
  fold w in H1, H2.
  destruct (Hooks.messageBatch (Hooks.hooks w)) as [|r q].
  - destruct (Hooks.batchTimer (Hooks.hooks w)) as [id|]; [|reflexivity].
    destruct (H2 id eq_refl) as [_ Hne]. congruence.
  - destruct (Hooks.batchTimer (Hooks.hooks w)) as [id|].
    + exists id. split; [reflexivity|]. now apply H2.
    + exfalso. apply H1; [discriminate|reflexivity].
Qed.

(** X5.  For a positive batch size and whatever the host does with a new
    engine, a flush empties the queue in one go: [processBatch] leaves no
    backlog, resets [batchTimer] and arms no timer. *)
Theorem a_flush_leaves_no_backlog (o : Options)
    (actions : list Engine.action) :
  1 <= batchSize o ->
  let w := Engine.run (Engine.init (Engine.create o)) actions in
  Hooks.messageBatch (Hooks.hooks (Hooks.processBatch w)) = []
  /\ Hooks.batchTimer (Hooks.hooks (Hooks.processBatch w)) = None
  /\ Hooks.timers (Hooks.processBatch w) = Hooks.timers w
  /\ Hooks.metricsCollector (Hooks.processBatch w)
     = Hooks.record_batch (Hooks.messageBatch (Hooks.hooks w))
         (Hooks.metricsCollector w).
Proof.
  intros HB w.
  destruct (run_keeps_scheduled actions (Engine.init (Engine.create o))
              (new_engine_below o HB) (new_engine_scheduled o))
    as [[_ Hlen] (H1 & H2 & _)].
  fold w in H1, H2, Hlen.
  destruct (Hooks.messageBatch (Hooks.hooks w)) as [|r q] eqn:Hq.
  - unfold Hooks.processBatch. rewrite Hq. rewrite Hq. repeat split.
    destruct (Hooks.batchTimer (Hooks.hooks w)) as [id|]; [|reflexivity].
    destruct (H2 id eq_refl) as [_ Hne]. congruence.
  - rewrite processBatch_whole_queue
      by (rewrite Hq; try discriminate; cbn [List.length] in *; lia).
    cbn. rewrite Hq. repeat split.
Qed.

(** ** Timing a message: begin, complete *)

Lemma map_get_delete_eq (k : string) (m : list (string * Z)) :
  map_get string_dec k (map_delete string_dec k m) = None.
Proof.
  unfold map_delete. induction m as [|[k' v] m IH]; cbn; [reflexivity|].
  destruct (string_dec k k') as [E|Hne]; [exact IH|].
  cbn. destruct (string_dec k k'); [congruence|exact IH].
Qed.

Lemma map_get_delete_neq (k k' : string) (m : list (string * Z)) :
  k' <> k ->
  map_get string_dec k' (map_delete string_dec k m) = map_get string_dec k' m.
Proof.
  intros Hne. unfold map_delete.
  induction m as [|[k2 v] m IH]; cbn; [reflexivity|].
  destruct (string_dec k k2) as [E|Hne2].
  - subst k2. destruct (string_dec k' k); [congruence|exact IH].
  - cbn. destruct (string_dec k' k2); [reflexivity|exact IH].
Qed.

Lemma map_set_length_in (k : string) (v : Z) (m : list (string * Z)) :
  List.length (map_set string_dec k v m)
  = match map_get string_dec k m with
    | Some _ => List.length m
    | None => S (List.length m)
    end.
Proof.
  induction m as [|[k' v'] m IH]; cbn; [reflexivity|].
  destruct (string_dec k k'); cbn; [reflexivity|].
  rewrite IH. now destruct (map_get string_dec k m).
Qed.

Lemma record_batch_keeps_histogram batch : forall c,
  Collector.nodeExecutionTime (Hooks.record_batch batch c)
  = Collector.nodeExecutionTime c
  /\ Collector.errorsTotal (Hooks.record_batch batch c)
     = Collector.errorsTotal c.
Proof.
  induction batch as [|r batch IH]; intros c; [now split|].
  change (Hooks.record_batch (r :: batch) c)
    with (Hooks.record_batch batch
            (Collector.recordMessage (Hooks.nodeId r) (Hooks.nodeType r)
               (Hooks.flowId r) c)).
  destruct (IH (Collector.recordMessage (Hooks.nodeId r) (Hooks.nodeType r)
                  (Hooks.flowId r) c)) as [-> ->].
  now split.
Qed.

(** Queuing a record changes neither the timing table nor the histogram nor
    the error counter. *)
Lemma addToBatch_keeps_timing n ty f t w :
  Hooks.messageStartTimes (Hooks.hooks (Hooks.addToBatch n ty f t w))
  = Hooks.messageStartTimes (Hooks.hooks w)
  /\ Collector.nodeExecutionTime
       (Hooks.metricsCollector (Hooks.addToBatch n ty f t w))
     = Collector.nodeExecutionTime (Hooks.metricsCollector w)
  /\ Collector.errorsTotal
       (Hooks.metricsCollector (Hooks.addToBatch n ty f t w))
     = Collector.errorsTotal (Hooks.metricsCollector w).
Proof.
  unfold Hooks.addToBatch.
  match goal with
  | |- context [if ?b then _ else _] => destruct b
  end.
  - rewrite processBatch_collector.
    match goal with
    | |- context [Hooks.record_batch ?b ?c] =>
        destruct (record_batch_keeps_histogram b c) as [-> ->]
    end.
    split; [|now split].
    unfold Hooks.processBatch. cbn.
    match goal with
    | |- context [match ?q with [] => _ | _ :: _ => _ end] =>
        destruct q; [reflexivity|]
    end.
    match goal with
    | |- context [match ?q with [] => _ | _ :: _ => _ end] =>
        destruct q; reflexivity
    end.
  - destruct (Hooks.batchTimer (Hooks.hooks w)); now split.
Qed.

(** X6.  A begin event (here a receive event) at time [t1] followed by a
    complete event at time [t2] whose timing key is the same records the one
    duration [(t2 - t1) / 1000] seconds under the labels of the completing
    node and consumes the timing entry.  The keys are compared as texts
    [nodeId_messageId], so this also holds for a completion of another node
    whose id and message id concatenate to the same text. *)
Theorem completion_records_the_elapsed_time (t1 t2 : Z) (g : string)
    (begun : ReceiveEvent) (completed : CompleteEvent) (w : Hooks.World) :
  let key1 := timingKey (extract_id (destination begun))
                (or_default (receive_msgid begun) g) in
  let key2 := timingKey (extract_id (node completed))
                (or_default (complete_msgid completed) "unknown") in
  let l := Collector.labels_of (extract_id (node completed))
             (extract_type (node completed)) (extract_z (node completed)) in
  let seen := match map_get labels_dec l
                      (Collector.nodeExecutionTime (Hooks.metricsCollector w))
              with Some obs => obs | None => [] end in
  let w' := Hooks.handleCompleteEvent t2 completed
              (Hooks.handleReceiveEvent t1 g begun w) in
  key1 = key2 ->
  t1 <> 0 ->
  map_get labels_dec l
    (Collector.nodeExecutionTime (Hooks.metricsCollector w'))
  = Some (seen ++ [Qmake (t2 - t1) 1000])
  /\ map_get string_dec key2 (Hooks.messageStartTimes (Hooks.hooks w')) = None.
Proof.
  intros key1 key2 l seen w' Hkey Ht1.
  set (w1 := Hooks.handleReceiveEvent t1 g begun w) in *.
  assert (Htable : map_get string_dec key2
                     (Hooks.messageStartTimes (Hooks.hooks w1)) = Some t1).
  { subst w1. unfold Hooks.handleReceiveEvent. cbn. fold key1.
    rewrite <- Hkey. apply map_get_set_eq. }
  assert (Hhist : Collector.nodeExecutionTime (Hooks.metricsCollector w1)
                  = Collector.nodeExecutionTime (Hooks.metricsCollector w)).
  { subst w1. unfold Hooks.handleReceiveEvent. cbn.
    apply addToBatch_keeps_timing. }
  clearbody w1. subst w'. unfold Hooks.handleCompleteEvent. cbv zeta.
  destruct (addToBatch_keeps_timing (extract_id (node completed))
              (extract_type (node completed)) (extract_z (node completed))
              Hooks.complete w1) as (Ht & Hh & _).
  fold key2. rewrite Ht, Htable.
  destruct (Z.eqb_spec t1 0) as [|_]; [contradiction|].
  unfold Collector.recordNodeExecution, Collector.observe.
  rewrite Hh, Hhist. fold l. fold seen.
  destruct (error completed); cbn; (split;
    [apply map_get_set_eq | apply map_get_delete_eq]).
Qed.

(** X7.  A complete event whose timing key is not in the table, or is there
    with the start time 0, records no duration and leaves the timing table
    as it is. *)
Theorem completion_without_begin_records_nothing (now : Z)
    (completed : CompleteEvent) (w : Hooks.World) :
  let key := timingKey (extract_id (node completed))
               (or_default (complete_msgid completed) "unknown") in
  let w' := Hooks.handleCompleteEvent now completed w in
  map_get string_dec key (Hooks.messageStartTimes (Hooks.hooks w)) = None
  \/ map_get string_dec key (Hooks.messageStartTimes (Hooks.hooks w)) = Some 0 ->
  Collector.nodeExecutionTime (Hooks.metricsCollector w')
  = Collector.nodeExecutionTime (Hooks.metricsCollector w)
  /\ Hooks.messageStartTimes (Hooks.hooks w')
     = Hooks.messageStartTimes (Hooks.hooks w).
Proof.
  intros key w' Hmiss. subst w'. unfold Hooks.handleCompleteEvent. cbv zeta.
  destruct (addToBatch_keeps_timing (extract_id (node completed))
              (extract_type (node completed)) (extract_z (node completed))
              Hooks.complete w) as (Ht & Hh & _).
  fold key. rewrite Ht.
  destruct Hmiss as [-> | ->]; cbn [Z.eqb];
    destruct (error completed); cbn; now rewrite ?Ht, ?Hh.
Qed.

(** X8.  A begin event (send or receive) stores its time under its timing
    key, replacing an earlier time for the same key (the table then keeps
    its size, otherwise it grows by one), and leaves every other key as it
    was. *)
Theorem begin_overwrites_the_start_time (now : Z) (g : string)
    (sent : SendEvent) (received : ReceiveEvent) (w : Hooks.World)
    (other : string) :
  let table := Hooks.messageStartTimes (Hooks.hooks w) in
  let skey := timingKey (extract_id (source sent))
                (or_default (send_msgid sent) g) in
  let rkey := timingKey (extract_id (destination received))
                (or_default (receive_msgid received) g) in
  let stable :=
    Hooks.messageStartTimes (Hooks.hooks (Hooks.handleSendEvent now g sent w)) in
  let rtable :=
    Hooks.messageStartTimes
      (Hooks.hooks (Hooks.handleReceiveEvent now g received w)) in
  (map_get string_dec skey stable = Some now
   /\ map_get string_dec other stable
      = (if string_dec other skey then Some now
         else map_get string_dec other table)
   /\ List.length stable
      = match map_get string_dec skey table with
        | Some _ => List.length table
        | None => S (List.length table)
        end)
  /\ (map_get string_dec rkey rtable = Some now
      /\ map_get string_dec other rtable
         = (if string_dec other rkey then Some now
            else map_get string_dec other table)
      /\ List.length rtable
         = match map_get string_dec rkey table with
           | Some _ => List.length table
           | None => S (List.length table)
           end).
Proof.
  cbv zeta. split.
  - unfold Hooks.handleSendEvent.
    cbn [Hooks.messageStartTimes Hooks.hooks Hooks.with_hooks
         Hooks.with_timing].
    destruct (addToBatch_keeps_timing (extract_id (source sent))
                (extract_type (source sent)) (extract_z (source sent))
                Hooks.send
                (Hooks.with_collector
                   (Collector.recordMessage (extract_id (source sent))
                      (extract_type (source sent)) (extract_z (source sent))
                      (Hooks.metricsCollector w)) w)) as (-> & _).
    cbn [Hooks.hooks Hooks.with_collector].
    split; [apply map_get_set_eq|]. split; [|apply map_set_length_in].
    destruct (string_dec other _) as [->|Hne];
      [apply map_get_set_eq | now apply map_get_set_neq].
  - unfold Hooks.handleReceiveEvent.
    cbn [Hooks.messageStartTimes Hooks.hooks Hooks.with_hooks
         Hooks.with_timing].
    destruct (addToBatch_keeps_timing (extract_id (destination received))
                (extract_type (destination received))
                (extract_z (destination received)) Hooks.receive w)
      as (-> & _).
    split; [apply map_get_set_eq|]. split; [|apply map_set_length_in].
    destruct (string_dec other _) as [->|Hne];
      [apply map_get_set_eq | now apply map_get_set_neq].
Qed.

(** ** Sweeping twice *)

Lemma toRemove_within h :
  Z.of_nat (List.length (Hooks.messageStartTimes h))
  <= maxTimingEntries (Hooks.options h) ->
  Hooks.toRemove h = [].
Proof.
  intros Hle. unfold Hooks.toRemove.
  destruct (Z.gtb_spec (Z.of_nat (List.length (Hooks.messageStartTimes h)))
              (maxTimingEntries (Hooks.options h))); [lia|reflexivity].
Qed.

Lemma sweep_within_bounds now h :
  Z.of_nat (List.length (Hooks.messageStartTimes h))
  <= maxTimingEntries (Hooks.options h) ->
  (forall e, In e (Hooks.messageStartTimes h) -> expired now e = false) ->
  Hooks.messageStartTimes (Hooks.cleanupTimingEntries now h)
  = Hooks.messageStartTimes h.
Proof.
  intros Hsize Hyoung. rewrite (sweep_of_young_table now h Hyoung).
  rewrite (toRemove_within h Hsize). apply filter_all. reflexivity.
Qed.

Lemma filter_drops_one (A : Type) (f : A -> bool) (l : list A) (x : A) :
  In x l -> f x = false -> (List.length (filter f l) < List.length l)%nat.
Proof.
  induction l as [|a l IH]; cbn; intros Hin Hf; [easy|].
  destruct Hin as [->|Hin].
  - rewrite Hf. pose proof (filter_length_le f l). lia.
  - specialize (IH Hin Hf). destruct (f a); cbn; lia.
Qed.

(** X9.  For a non-negative limit, a sweep of a table that is within the
    limit and holds nothing expired changes nothing, any other sweep makes
    the table strictly smaller, and sweeping again at the same time changes
    nothing. *)
Theorem sweep_is_idempotent (now : Z) (h : Hooks.t) :
  0 <= maxTimingEntries (Hooks.options h) ->
  let h' := Hooks.cleanupTimingEntries now h in
  Hooks.cleanupTimingEntries now h' = h'
  /\ (if (Z.of_nat (List.length (Hooks.messageStartTimes h))
          <=? maxTimingEntries (Hooks.options h))
         && forallb (fun e => negb (expired now e)) (Hooks.messageStartTimes h)
      then Hooks.messageStartTimes h' = Hooks.messageStartTimes h
      else (List.length (Hooks.messageStartTimes h')
            < List.length (Hooks.messageStartTimes h))%nat).
Proof.
  intros Hlimit h'. split.
  - assert (Hsize : Z.of_nat (List.length (Hooks.messageStartTimes h'))
                    <= maxTimingEntries (Hooks.options h')).
    { subst h'. rewrite cleanup_table. cbv zeta.
      etransitivity; [|apply (first_block_bound h Hlimit)].
      apply inj_le, filter_length_le. }
    assert (Hyoung : forall e, In e (Hooks.messageStartTimes h') ->
                               expired now e = false).
    { intros e He. now apply sweep_keeps_within in He. }
    pose proof (sweep_within_bounds now h' Hsize Hyoung) as Heq.
    unfold Hooks.cleanupTimingEntries at 1.
    unfold Hooks.cleanupTimingEntries at 1 in Heq.
    cbn [Hooks.messageStartTimes Hooks.with_timing] in Heq.
    rewrite Heq. subst h'. reflexivity.
  - destruct (Z.leb_spec (Z.of_nat (List.length (Hooks.messageStartTimes h)))
                (maxTimingEntries (Hooks.options h))) as [Hin|Hover];
      cbn [andb].
    + destruct (forallb _ _) eqn:Hall.
      * apply sweep_within_bounds; [exact Hin|].
        intros e He. rewrite forallb_forall in Hall.
        now apply negb_true_iff, Hall.
      * subst h'. rewrite cleanup_table. cbv zeta.
        rewrite (toRemove_within h Hin).
        rewrite (filter_all _ (fun e : string * Z => negb (key_in (fst e) (map fst []))))
          by reflexivity.
        assert (Hex : exists e, In e (Hooks.messageStartTimes h)
                                /\ expired now e = true).
        { apply Bool.not_true_iff_false in Hall.
          destruct (existsb (expired now) (Hooks.messageStartTimes h)) eqn:Hx.
          - apply existsb_exists in Hx. exact Hx.
          - exfalso. apply Hall, forallb_forall. intros e He.
            apply negb_true_iff.
            destruct (expired now e) eqn:E; [|reflexivity].
            assert (existsb (expired now) (Hooks.messageStartTimes h) = true)
              by (apply existsb_exists; now exists e).
            congruence. }
        destruct Hex as (e & He & Hexp).
        apply filter_drops_one with (x := e); [exact He|].
        apply negb_false_iff, key_in_spec, in_map, filter_In. now split.
    + subst h'. rewrite cleanup_table. cbv zeta.
      pose proof (first_block_bound h Hlimit) as Hb.
      eapply Nat.le_lt_trans; [apply filter_length_le|]. lia.
Qed.

(** ** More on the rates *)

Lemma rate_fold_app m1 m2 acc :
  fold_left Collector.rate_step (m1 ++ m2) acc
  = fold_left Collector.rate_step m2 (fold_left Collector.rate_step m1 acc).
Proof. apply fold_left_app. Qed.

(** X10.  When two keys of the counter map share their first three
    components, the later key owns the gauge: for every key of the map that
    no later key shares its components with, the tick leaves
    [max(0, currentTotal - previousSample) / 5] of that key in the gauge and
    [currentTotal] as its sample. *)
Theorem later_key_owns_the_gauge (c : Collector.t)
    (before after : list (string * Z)) (k : string) (currentTotal : Z) :
  Collector.messageCounters c = before ++ (k, currentTotal) :: after ->
  map_wf (Collector.messageCounters c) ->
  ~ In (parse_key k) (map parse_key (map_keys after)) ->
  let c' := Collector.calculateMessagesPerSecond c in
  map_get labels_dec (parse_key k) (Collector.messagesPerSecond c')
  = Some (Collector.rate_of currentTotal
            (get_or0 string_dec k (Collector.lastMessageCounts c)))
  /\ map_get string_dec k (Collector.lastMessageCounts c') = Some currentTotal.
Proof.
  intros Hm Hwf Hlast c'. subst c'.
  unfold Collector.calculateMessagesPerSecond.
  cbn [Collector.messagesPerSecond Collector.lastMessageCounts
       Collector.with_rates].
  rewrite Hm in *. rewrite rate_fold_app. cbn [fold_left].
  unfold map_wf, map_keys in Hwf. rewrite map_app in Hwf. cbn [map] in Hwf.
  assert (Hbefore : ~ In k (map_keys before)).
  { intros Hin. apply (NoDup_app_disjoint _ _ _ k Hwf Hin). now left. }
  assert (Hafter : ~ In k (map_keys after)).
  { apply NoDup_app_remove_l in Hwf. now inversion Hwf. }
  set (acc := fold_left Collector.rate_step before _).
  assert (Hsample : get_or0 string_dec k (snd acc)
                    = get_or0 string_dec k (Collector.lastMessageCounts c)).
  { subst acc. unfold get_or0. now rewrite rate_fold_last_other. }
  split.
  - rewrite rate_fold_gauge_other by assumption.
    unfold Collector.rate_step. cbn [fst]. rewrite Hsample.
    apply map_get_set_eq.
  - rewrite rate_fold_last_other by assumption.
    unfold Collector.rate_step. cbn [snd]. apply map_get_set_eq.
Qed.

Lemma map_wf_functional (m : list (string * Z)) (k : string) (v v' : Z) :
  map_wf m -> In (k, v) m -> In (k, v') m -> v = v'.
Proof.
  unfold map_wf, map_keys. induction m as [|[k2 v2] m IH]; [easy|].
  cbn. intros Hwf Hin Hin'. inversion Hwf as [|? ? Hnotin Hnd]; subst.
  destruct Hin as [E|Hin]; destruct Hin' as [E'|Hin'].
  - congruence.
  - inversion E; subst. exfalso. apply Hnotin.
    change k with (fst (k, v')). now apply in_map.
  - inversion E'; subst. exfalso. apply Hnotin.
    change k with (fst (k, v)). now apply in_map.
  - now apply IH.
Qed.

Lemma rate_fold_settled (m0 : list (string * Z)) (m : list (string * Z)) :
  map_wf m0 ->
  forall acc,
    incl m m0 ->
    (forall k cur, In (k, cur) m0 -> get_or0 string_dec k (snd acc) = cur) ->
    (forall k cur, In (k, cur) m0 ->
       get_or0 string_dec k (snd (fold_left Collector.rate_step m acc)) = cur)
    /\ forall l,
         map_get labels_dec l (fst (fold_left Collector.rate_step m acc))
         = if in_dec labels_dec l (map parse_key (map_keys m))
           then Some (Qmake 0 5)
           else map_get labels_dec l (fst acc).
Proof.
  intros Hwf. induction m as [|[k cur] m IH]; intros acc Hincl Hs.
  - split; [exact Hs|]. intros l. cbn. reflexivity.
  - assert (Hin : In (k, cur) m0) by (apply Hincl; now left).
    assert (Hs1 : forall k' cur', In (k', cur') m0 ->
              get_or0 string_dec k'
                (snd (Collector.rate_step acc (k, cur))) = cur').
    { intros k' cur' Hin'. unfold Collector.rate_step. cbn [snd].
      rewrite get_or0_set. destruct (string_dec k' k) as [->|Hne];
        [|now apply Hs].
      apply (map_wf_functional m0 k); assumption. }
    assert (Hincl1 : incl m m0)
      by (intros x Hx; apply Hincl; now right).
    destruct (IH (Collector.rate_step acc (k, cur)) Hincl1 Hs1) as [H1 H2].
    cbn [fold_left]. split; [exact H1|].
    intros l. rewrite H2. cbn [map_keys map fst].
    destruct (in_dec labels_dec l (map parse_key (map_keys m))) as [Hl|Hl].
    + destruct (in_dec labels_dec l _) as [_|Hn]; [reflexivity|].
      exfalso. apply Hn. now right.
    + unfold Collector.rate_step. cbn [fst].
      destruct (labels_dec l (parse_key k)) as [->|Hne].
      * rewrite map_get_set_eq.
        destruct (in_dec labels_dec _ _) as [_|Hn];
          [|exfalso; apply Hn; now left].
        f_equal. unfold Collector.rate_of. rewrite (Hs k cur Hin).
        now rewrite Z.sub_diag.
      * rewrite map_get_set_neq by assumption.
        destruct (in_dec labels_dec l _) as [[E|Hi]|_];
          [congruence|contradiction|reflexivity].
Qed.

Lemma rate_fold_samples (m : list (string * Z)) : forall acc k cur,
  map_wf m -> In (k, cur) m ->
  map_get string_dec k (snd (fold_left Collector.rate_step m acc)) = Some cur.
Proof.
  induction m as [|[k' cur'] m IH]; intros acc k cur Hwf Hin; [easy|].
  unfold map_wf, map_keys in Hwf. cbn in Hwf.
  inversion Hwf as [|? ? Hnotin Hnd]; subst. cbn [fold_left].
  destruct Hin as [E|Hin].
  - inversion E; subst. rewrite rate_fold_last_other by assumption.
    unfold Collector.rate_step. cbn [snd]. apply map_get_set_eq.
  - now apply IH.
Qed.

(** X11.  An idle interval reads as rate 0.  When no message is recorded
    between two ticks, the second tick leaves the rate 0 in the gauge of
    every key of the counter map and keeps the samples of the first. *)
Theorem idle_tick_reports_zero (c : Collector.t) (k : string)
    (currentTotal : Z) :
  map_wf (Collector.messageCounters c) ->
  map_get string_dec k (Collector.messageCounters c) = Some currentTotal ->
  let c1 := Collector.calculateMessagesPerSecond c in
  let c2 := Collector.calculateMessagesPerSecond c1 in
  map_get labels_dec (parse_key k) (Collector.messagesPerSecond c2)
  = Some (Qmake 0 5)
  /\ map_get string_dec k (Collector.lastMessageCounts c2) = Some currentTotal
  /\ map_get string_dec k (Collector.lastMessageCounts c1) = Some currentTotal.
Proof.
  intros Hwf Hget c1 c2. apply map_get_In in Hget.
  assert (Hs1 : forall k' cur', In (k', cur') (Collector.messageCounters c) ->
            get_or0 string_dec k' (Collector.lastMessageCounts c1) = cur').
  { intros k' cur' Hin. unfold get_or0. subst c1.
    unfold Collector.calculateMessagesPerSecond.
    cbn [Collector.lastMessageCounts Collector.with_rates].
    now rewrite (rate_fold_samples _ _ k' cur' Hwf Hin). }
  destruct (rate_fold_settled (Collector.messageCounters c)
              (Collector.messageCounters c) Hwf
              (Collector.messagesPerSecond c1, Collector.lastMessageCounts c1)
              (incl_refl _) Hs1) as [H1 H2].
  split; [|split].
  - subst c2. unfold Collector.calculateMessagesPerSecond at 1.
    cbn [Collector.messagesPerSecond Collector.with_rates].
    change (Collector.messageCounters c1) with (Collector.messageCounters c).
    rewrite H2.
    destruct (in_dec labels_dec _ _) as [_|Hn]; [reflexivity|].
    exfalso. apply Hn. apply in_map.
    change k with (fst (k, currentTotal)). now apply in_map.
  - subst c2. unfold Collector.calculateMessagesPerSecond at 1.
    cbn [Collector.lastMessageCounts Collector.with_rates].
    change (Collector.messageCounters c1) with (Collector.messageCounters c).
    now apply rate_fold_samples.
  - subst c1. unfold Collector.calculateMessagesPerSecond.
    cbn [Collector.lastMessageCounts Collector.with_rates].
    now apply rate_fold_samples.
Qed.

(** ** Keys that collide *)

Lemma append_assoc (a b c : string) :
  ((a ++ b) ++ c = a ++ (b ++ c))%string.
Proof. induction a as [|x a IH]; cbn; [reflexivity|now rewrite IH]. Qed.

(** X12.  A colon inside a field shifts the key: the key of
    [(a:b, c, d)] is the key of [(a, b:c, d)], so recording a message for
    the one raises the counter the other reads, and the key is read back as
    node [a] of type [b] in flow [c]. *)
Theorem colon_in_a_field_shifts_the_key (a b c d : string)
    (col : Collector.t) :
  has_colon a = false -> has_colon b = false -> has_colon c = false ->
  let shifted := (a ++ ":" ++ b)%string in
  let other_type := (b ++ ":" ++ c)%string in
  metricKey shifted c d = metricKey a other_type d
  /\ parse_key (metricKey shifted c d) = (Some a, Some b, Some c)
  /\ get_or0 string_dec (metricKey a other_type d)
       (Collector.messageCounters (Collector.recordMessage shifted c d col))
     = get_or0 string_dec (metricKey a other_type d)
         (Collector.messageCounters col) + 1.
Proof.
  intros Ha Hb Hc shifted other_type.
  assert (E : metricKey shifted c d = metricKey a other_type d).
  { unfold metricKey, shifted, other_type.
    repeat (rewrite append_assoc; cbn). reflexivity. }
  split; [exact E|]. split.
  - assert (N : metricKey shifted c d
                = (a ++ ":" ++ b ++ ":" ++ c ++ ":" ++ d)%string).
    { unfold metricKey, shifted. repeat (rewrite append_assoc; cbn).
      reflexivity. }
    rewrite N. unfold parse_key.
    rewrite (split_colon_app a _ Ha), (split_colon_app b _ Hb),
      (split_colon_app c _ Hc). reflexivity.
  - rewrite recordMessage_counter, E, String.eqb_refl. reflexivity.
Qed.

(** ** Recomputing the inventory twice *)









(** ** The inventory never shrinks *)







(** ** Starting and stopping the collector's timer *)


(** ** After [stop] *)

(** X16.  [stop] does not detach the handlers: a receive event that arrives
    after it is queued and timed like any other, and arms a flush timer
    again. *)
Theorem events_after_stop_are_still_handled (now : Z) (g : string)
    (ev : ReceiveEvent) (w : Hooks.World) :
  queue_below_batch_size w ->
  1 < batchSize (Hooks.options (Hooks.hooks w)) ->
  let s := Hooks.stop w in
  let w' := Hooks.handleReceiveEvent now g ev s in
  Hooks.isInitialized (Hooks.hooks s) = false
  /\ List.length (Hooks.messageBatch (Hooks.hooks w')) = 1%nat
  /\ Hooks.batchTimer (Hooks.hooks w') = Some (next_timer_id (Hooks.timers s))
  /\ flush_pending (next_timer_id (Hooks.timers s)) (Hooks.timers w')
  /\ Hooks.messageStartTimes (Hooks.hooks w')
     = [(timingKey (extract_id (destination ev))
           (or_default (receive_msgid ev) g), now)].
Proof.
  intros Hbelow HB s w'.
  pose proof (stop_flushes_queue w Hbelow) as Hstop. cbv zeta in Hstop.
  fold s in Hstop. destruct Hstop as (_ & Hq & Htab & Ht & _).
  assert (Ho : Hooks.options (Hooks.hooks s) = Hooks.options (Hooks.hooks w)).
  { subst s. unfold Hooks.stop. cbn.
    match goal with
    | |- context [Hooks.processBatch ?w1] =>
        destruct (processBatch_queue w1) as [_ ->]
    end. reflexivity. }
  split; [reflexivity|].
  subst w'. clearbody s. unfold Hooks.handleReceiveEvent.
  rewrite (addToBatch_first _ _ _ _ s Hq Ht) by (rewrite Ho; exact HB).
  cbn. rewrite Htab. repeat split.
  unfold flush_pending, flush_timers. cbn.
  rewrite filter_app, map_app. apply in_or_app. right. cbn. now left.
Qed.

(** ** Errors reported by a completion *)

(** X17.  A complete event that carries an error is counted once in the
    error counter, under the error's name or under [execution] when it has
    none; a complete event without error leaves the error counter as it is.
    The category [complete_processing] is never counted. *)
Theorem completion_error_is_classified (now : Z) (ev : CompleteEvent)
    (w : Hooks.World) :
  let nodeId := extract_id (node ev) in
  let nodeType := extract_type (node ev) in
  let flowId := extract_z (node ev) in
  Collector.errorsTotal
    (Hooks.metricsCollector (Hooks.handleCompleteEvent now ev w))
  = match error ev with
    | Some name =>
        Collector.inc error_labels_dec
          (nodeId, nodeType, flowId, or_default name "execution")
          (Collector.errorsTotal (Hooks.metricsCollector w))
    | None => Collector.errorsTotal (Hooks.metricsCollector w)
    end.
Proof.
  cbv zeta. unfold Hooks.handleCompleteEvent. cbv zeta.
  destruct (addToBatch_keeps_timing (extract_id (node ev))
              (extract_type (node ev)) (extract_z (node ev))
              Hooks.complete w) as (_ & _ & He).
  destruct (map_get _ _ _) as [startTime|];
    [destruct (startTime =? 0)|]; destruct (error ev); cbn;
    now rewrite He.
Qed.

(** ** The two message counters, and the rate read from them *)

Lemma colon_free_key_iff_labels n ty f n' ty' f' :
  colon_free (n, ty, f) -> colon_free (n', ty', f') ->
  (metricKey n ty f = metricKey n' ty' f'
   <-> Collector.labels_of n ty f = Collector.labels_of n' ty' f').
Proof.
  intros H H'. split.
  - intros E. apply (f_equal parse_key) in E.
    now rewrite !parse_key_metricKey in E by assumption.
  - unfold Collector.labels_of. intros E. now inversion E.
Qed.

Lemma colon_free_counts_agree n ty f calls :
  colon_free (n, ty, f) -> Forall colon_free calls ->
  calls_with_labels (Collector.labels_of n ty f) calls
  = calls_with_key (metricKey n ty f) calls.
Proof.
  intros Hfree Hall. induction Hall as [|[[a b] d] calls Hc _ IH].
  - reflexivity.
  - rewrite calls_with_labels_cons, calls_with_key_cons, IH.
    destruct (colon_free_key_iff_labels a b d n ty f Hc Hfree) as [H1 H2].
    destruct (labels_dec (Collector.labels_of a b d)
                (Collector.labels_of n ty f)) as [E|Hne];
      destruct (String.eqb_spec (metricKey a b d) (metricKey n ty f))
        as [E'|Hne']; try reflexivity.
    + exfalso. now apply Hne', H2.
    + exfalso. now apply Hne, H1.
Qed.

(** X18.  As long as no recorded field holds a colon, the exported counter
    [nodered_messages_total] of a node and the internal counter the rates
    are computed from hold the same number. *)
Theorem exported_and_internal_counter_agree (o : Options)
    (calls : list (string * string * string)) (n ty f : string) :
  Forall colon_free calls ->
  colon_free (n, ty, f) ->
  let c := record_all calls (Collector.create o) in
  get_or0 labels_dec (Collector.labels_of n ty f) (Collector.messagesTotal c)
  = get_or0 string_dec (metricKey n ty f) (Collector.messageCounters c).
Proof.
  intros Hall Hfree c. subst c.
  rewrite record_all_total, record_all_counter.
  rewrite (colon_free_counts_agree n ty f calls Hfree Hall). reflexivity.
Qed.

Lemma calls_with_key_positive n ty f calls :
  In (n, ty, f) calls -> (0 < calls_with_key (metricKey n ty f) calls)%nat.
Proof.
  induction calls as [|[[a b] d] calls IH]; [easy|].
  intros Hin. rewrite calls_with_key_cons. destruct Hin as [E|Hin].
  - inversion E; subst. rewrite String.eqb_refl. lia.
  - specialize (IH Hin). lia.
Qed.

(** X19.  From recording to the gauge: when a new collector has recorded
    messages whose fields hold no colon, its first tick sets the rate gauge
    of each recorded node, under the labels of the exported counter, to the
    number of messages recorded for it divided by 5. *)
Theorem first_tick_reports_the_count (o : Options)
    (calls : list (string * string * string)) (n ty f : string) :
  Forall colon_free calls ->
  In (n, ty, f) calls ->
  let c := Collector.calculateMessagesPerSecond
             (record_all calls (Collector.create o)) in
  map_get labels_dec (Collector.labels_of n ty f)
    (Collector.messagesPerSecond c)
  = Some (Qmake (Z.of_nat (calls_with_key (metricKey n ty f) calls)) 5).
Proof.
  intros Hall Hin c.
  assert (Hfree : colon_free (n, ty, f))
    by (rewrite Forall_forall in Hall; now apply Hall).
  pose proof (colon_free_keys_are_told_apart o calls Hall) as Hnd.
  pose proof (record_all_counter (metricKey n ty f) calls
                (Collector.create o)) as Hcount.
  pose proof (calls_with_key_positive n ty f calls Hin) as Hpos.
  assert (Hget : In (metricKey n ty f,
                     Z.of_nat (calls_with_key (metricKey n ty f) calls))
                   (Collector.messageCounters
                      (record_all calls (Collector.create o)))).
  { apply (map_get_In string_dec). unfold get_or0 in Hcount.
    destruct (map_get string_dec (metricKey n ty f)
                (Collector.messageCounters
                   (record_all calls (Collector.create o)))) as [v|].
    - f_equal. cbn in Hcount. lia.
    - cbn in Hcount. lia. }
  destruct (rate_fold_entry _
              (Collector.messagesPerSecond
                 (record_all calls (Collector.create o)),
               Collector.lastMessageCounts
                 (record_all calls (Collector.create o)))
              _ _ Hnd Hget) as [Hg _].
  subst c. unfold Collector.calculateMessagesPerSecond.
  cbn [Collector.messagesPerSecond Collector.with_rates].
  unfold Collector.labels_of.
  rewrite <- (parse_key_metricKey n ty f Hfree). rewrite Hg. f_equal.
  unfold Collector.rate_of. f_equal. cbn [snd].
  assert (Hlast : Collector.lastMessageCounts
                    (record_all calls (Collector.create o)) = []).
  { assert (forall c0, Collector.lastMessageCounts (record_all calls c0)
                       = Collector.lastMessageCounts c0) as H.
    { clear. induction calls as [|[[a b] d] calls IH]; intros c0;
        [reflexivity|].
      change (record_all (((a, b), d) :: calls) c0)
        with (record_all calls (Collector.recordMessage a b d c0)).
      now rewrite IH. }
    now rewrite H. }
  rewrite Hlast. unfold get_or0. cbn. lia.
Qed.

(** ** The timers over the life of the engine *)

Lemma callback_eqb_eq a b : callback_eqb a b = true <-> a = b.
Proof. destruct a, b; cbn; split; congruence. Qed.

Lemma host_wf_arm cb d r h : host_wf h -> host_wf (snd (arm cb d r h)).
Proof.
  unfold host_wf. cbn. intros H. apply Forall_app. split.
  - eapply Forall_impl; [|exact H]. cbn. intros; lia.
  - constructor; [cbn; lia|constructor].
Qed.

Lemma host_wf_clear id h : host_wf h -> host_wf (clearTimeout id h).
Proof.
  unfold host_wf, clearTimeout. cbn. rewrite !Forall_forall.
  intros H t Hin. apply filter_In in Hin. now apply H.
Qed.

Lemma host_wf_clear_handle handle h :
  host_wf h -> host_wf (Hooks.clear_handle handle h).
Proof. destruct handle; [apply host_wf_clear|auto]. Qed.

Lemma nodup_arm cb d r h :
  host_wf h -> NoDup (timer_ids h) -> NoDup (timer_ids (snd (arm cb d r h))).
Proof.
  unfold host_wf, timer_ids. cbn. intros Hwf Hnd. rewrite map_app. cbn.
  apply (Permutation_NoDup (Permutation_cons_append _ _)).
  constructor; [|exact Hnd].
  intros Hin. apply in_map_iff in Hin. destruct Hin as (t & E & Hin).
  rewrite Forall_forall in Hwf. specialize (Hwf t Hin). lia.
Qed.

Lemma nodup_clear id h :
  NoDup (timer_ids h) -> NoDup (timer_ids (clearTimeout id h)).
Proof.
  unfold timer_ids, clearTimeout. cbn.
  induction (pending h) as [|t l IH]; cbn; intros H; [constructor|].
  inversion H as [|? ? Hnotin Hnd]; subst.
  destruct (negb _); cbn; [constructor|]; auto.
  intros Hin. apply Hnotin. apply in_map_iff in Hin.
  destruct Hin as (x & E & Hx). apply filter_In in Hx.
  apply in_map_iff. exists x. tauto.
Qed.

Lemma nodup_clear_handle handle h :
  NoDup (timer_ids h) -> NoDup (timer_ids (Hooks.clear_handle handle h)).
Proof. destruct handle; [apply nodup_clear|auto]. Qed.

Lemma timer_of_id h (x y : timer) :
  NoDup (timer_ids h) -> In x (pending h) -> In y (pending h) ->
  timer_id x = timer_id y -> x = y.
Proof.
  unfold timer_ids. induction (pending h) as [|t l IH]; cbn; [tauto|].
  intros Hnd Hx Hy E. inversion Hnd as [|? ? Hnotin Hnd']; subst.
  destruct Hx as [->|Hx], Hy as [->|Hy]; auto.
  - exfalso. apply Hnotin. rewrite E. now apply in_map.
  - exfalso. apply Hnotin. rewrite <- E. now apply in_map.
Qed.

Lemma in_clear id h t :
  In t (pending (clearTimeout id h))
  <-> In t (pending h) /\ timer_id t <> id.
Proof.
  unfold clearTimeout. cbn. rewrite filter_In.
  destruct (Nat.eqb_spec (timer_id t) id); cbn; intuition congruence.
Qed.

Lemma in_clear_handle handle h t :
  In t (pending (Hooks.clear_handle handle h))
  <-> In t (pending h) /\ handle <> Some (timer_id t).
Proof.
  destruct handle as [id|]; unfold Hooks.clear_handle.
  - rewrite in_clear. intuition congruence.
  - intuition congruence.
Qed.

Lemma names_none cb h : names cb None h.
Proof. intros id E. discriminate. Qed.

Lemma names_arm cb handle cb' d r h :
  host_wf h -> names cb handle h -> names cb handle (snd (arm cb' d r h)).
Proof.
  intros Hwf H id E. destruct (H id E) as [Hlt Hcb]. cbn. split; [lia|].
  intros t Hin Hid. apply in_app_or in Hin. destruct Hin as [Hin|[<-|[]]].
  - now apply Hcb.
  - cbn in Hid. lia.
Qed.

Lemma names_new cb d r h :
  host_wf h -> names cb (Some (next_timer_id h)) (snd (arm cb d r h)).
Proof.
  intros Hwf id E. inversion E; subst id. cbn. split; [lia|].
  intros t Hin Hid. apply in_app_or in Hin. destruct Hin as [Hin|[<-|[]]].
  - unfold host_wf in Hwf. rewrite Forall_forall in Hwf.
    specialize (Hwf t Hin). lia.
  - reflexivity.
Qed.

Lemma names_clear cb handle id h :
  names cb handle h -> names cb handle (clearTimeout id h).
Proof.
  intros H id' E. destruct (H id' E) as [Hlt Hcb]. split; [exact Hlt|].
  intros t Hin. apply in_clear in Hin. now apply Hcb.
Qed.

Lemma names_clear_handle cb handle handle' h :
  names cb handle h -> names cb handle (Hooks.clear_handle handle' h).
Proof. destruct handle'; [apply names_clear|auto]. Qed.

Lemma kept_arm cb delay handle cb' d r h :
  host_wf h -> cb' <> cb ->
  interval_kept cb delay handle h ->
  interval_kept cb delay handle (snd (arm cb' d r h)).
Proof.
  intros Hwf Hne (Hn & Ho & Hr). split; [now apply names_arm|]. split.
  - intros t Hin Hcb. cbn in Hin. apply in_app_or in Hin.
    destruct Hin as [Hin|[<-|[]]]; [now apply Ho|].
    cbn in Hcb. congruence.
  - intros id E. cbn. apply in_or_app. left. now apply Hr.
Qed.

Lemma kept_new cb delay h :
  host_wf h -> interval_kept cb delay None h ->
  interval_kept cb delay (Some (next_timer_id h))
    (snd (setInterval cb delay h)).
Proof.
  intros Hwf (_ & Ho & _). split; [now apply names_new|]. split.
  - intros t Hin Hcb. cbn in Hin. apply in_app_or in Hin.
    destruct Hin as [Hin|[<-|[]]].
    + destruct (Ho t Hin Hcb) as [E _]. discriminate.
    + split; reflexivity.
  - intros id E. inversion E; subst id. cbn. apply in_or_app. right.
    now left.
Qed.

Lemma kept_clear cb delay handle id h :
  handle <> Some id ->
  interval_kept cb delay handle h ->
  interval_kept cb delay handle (clearTimeout id h).
Proof.
  intros Hne (Hn & Ho & Hr). split; [now apply names_clear|]. split.
  - intros t Hin. apply in_clear in Hin. now apply Ho.
  - intros id' E. apply in_clear. split; [now apply Hr|].
    cbn. congruence.
Qed.

Lemma kept_clear_handle cb delay handle handle' h :
  (forall id, handle' = Some id -> handle <> Some id) ->
  interval_kept cb delay handle h ->
  interval_kept cb delay handle (Hooks.clear_handle handle' h).
Proof.
  destruct handle' as [id|]; unfold Hooks.clear_handle; [|auto].
  intros H. apply kept_clear. now apply H.
Qed.

Lemma kept_cleared cb delay handle h :
  interval_kept cb delay handle h ->
  interval_kept cb delay None (Hooks.clear_handle handle h).
Proof.
  intros (Hn & Ho & Hr). split; [apply names_none|]. split.
  - intros t Hin Hcb. apply in_clear_handle in Hin.
    destruct Hin as [Hin Hne]. destruct (Ho t Hin Hcb) as [E _].
    congruence.
  - intros id E. discriminate.
Qed.

Lemma kept_none_clear_handle cb delay handle h :
  interval_kept cb delay None h ->
  interval_kept cb delay None (Hooks.clear_handle handle h).
Proof. apply kept_clear_handle. intros; discriminate. Qed.

(** Handles of timers that run different callbacks differ. *)
Lemma handles_differ cb cb' delay handle handle' h id :
  cb <> cb' ->
  names cb handle h -> interval_kept cb' delay handle' h ->
  handle = Some id -> handle' <> Some id.
Proof.
  intros Hne Hn (_ & _ & Hr) E E'. destruct (Hn id E) as [_ Hcb].
  specialize (Hcb _ (Hr id E') eq_refl). cbn in Hcb. congruence.
Qed.

(** The id of a pending timeout is the handle of no interval. *)
Lemma timeout_is_no_interval cb delay handle h t :
  NoDup (timer_ids h) -> In t (pending h) -> timer_repeats t = false ->
  interval_kept cb delay handle h -> handle <> Some (timer_id t).
Proof.
  intros Hnd Hin Hrep (_ & _ & Hr) E.
  pose proof (timer_of_id h _ _ Hnd (Hr _ E) Hin eq_refl) as Ht.
  rewrite <- Ht in Hrep. discriminate.
Qed.

(** What runs a callback is the interval its handle names, and nothing
    else. *)
Lemma running_of_kept cb delay handle h :
  NoDup (timer_ids h) -> interval_kept cb delay handle h ->
  timers_running cb h
  = match handle with
    | Some id => [interval_timer id cb delay]
    | None => []
    end.
Proof.
  intros Hnd (Hn & Ho & Hr). unfold timers_running.
  assert (Hall : forall t, In t (pending h) ->
            callback_eqb (timer_callback t) cb = true ->
            handle = Some (timer_id t)
            /\ t = interval_timer (timer_id t) cb delay).
  { intros t Hin Hcb. apply callback_eqb_eq in Hcb. now apply Ho. }
  destruct handle as [id|].
  - specialize (Hr id eq_refl).
    assert (Hone : forall t, In t (pending h) ->
              callback_eqb (timer_callback t) cb = true ->
              t = interval_timer id cb delay).
    { intros t Hin Hcb. destruct (Hall t Hin Hcb) as [E Ht].
      inversion E; subst id. exact Ht. }
    clear Hall Ho Hn. unfold timer_ids in Hnd.
    induction (pending h) as [|t l IH]; [destruct Hr|].
    inversion Hnd as [|? ? Hnotin Hnd']; subst. cbn [filter].
    destruct (callback_eqb (timer_callback t) cb) eqn:Hcb.
    + pose proof (Hone t (or_introl eq_refl) Hcb) as Ht. rewrite <- Ht.
      f_equal. destruct (filter _ l) as [|x xs] eqn:Hf; [reflexivity|].
      exfalso. assert (Hx : In x (filter
                 (fun t0 => callback_eqb (timer_callback t0) cb) l))
        by (rewrite Hf; now left).
      apply filter_In in Hx. destruct Hx as [Hx Hxcb].
      pose proof (Hone x (or_intror Hx) Hxcb) as Hxt.
      apply Hnotin. rewrite Ht, <- Hxt. now apply in_map.
    + destruct Hr as [Hr|Hr].
      * rewrite Hr in Hcb. cbn in Hcb.
        assert (callback_eqb cb cb = true) by now apply callback_eqb_eq.
        congruence.
      * apply IH; auto. intros t' Hin. apply Hone. now right.
  - induction (pending h) as [|t l IH]; [reflexivity|]. cbn [filter].
    destruct (callback_eqb (timer_callback t) cb) eqn:Hcb.
    + destruct (Hall t (or_introl eq_refl) Hcb) as [E _]. discriminate.
    + apply IH. intros t' Hin. apply Hall. now right.
Qed.

Lemma consistent_flush_step k k' :
  consistent k -> flush_step k k' -> consistent k'.
Proof.
  intros H [->|[->|[d ->]]]; [exact H| |];
    destruct H as (Hwf & Hnd & Hb & Hu & Hc & Hco & Hi & Hcg).
  - unfold consistent.
    cbn [with_c_batch c_timers c_update c_batch c_cleanup
         c_collect c_collecting c_initialized c_period].
    split; [assumption|]. split; [assumption|].
    split; [apply names_none|]. tauto.
  - unfold consistent. cbn [with_c_batch c_timers c_update c_batch c_cleanup
                             c_collect c_collecting c_initialized c_period].
    split; [now apply host_wf_arm|]. split; [now apply nodup_arm|].
    split; [now apply names_new|].
    split; [apply kept_arm; [assumption|discriminate|assumption]|].
    split; [apply kept_arm; [assumption|discriminate|assumption]|].
    split; [apply kept_arm; [assumption|discriminate|assumption]|].
    split; assumption.
Qed.

Lemma flush_step_initialized b k k' :
  flush_step k k' ->
  flush_step (with_c_initialized b k) (with_c_initialized b k').
Proof.
  intros [->|[->|[d ->]]].
  - now left.
  - right. now left.
  - right. right. now exists d.
Qed.

(** The host takes a timeout that fires out of its table. *)
Lemma consistent_timeout_fired k t :
  consistent k -> In t (pending (c_timers k)) -> timer_repeats t = false ->
  consistent (with_c_batch (clearTimeout (timer_id t) (c_timers k))
                (c_batch k) k).
Proof.
  intros (Hwf & Hnd & Hb & Hu & Hc & Hco & Hi & Hcg) Hin Hrep.
  unfold consistent.
  cbn [with_c_batch c_timers c_update c_batch c_cleanup
       c_collect c_collecting c_initialized c_period].
  split; [now apply host_wf_clear|]. split; [now apply nodup_clear|].
  split; [now apply names_clear|].
  split; [apply kept_clear; [|assumption];
          now apply (timeout_is_no_interval _ _ _ _ _ Hnd Hin Hrep Hu)|].
  split; [apply kept_clear; [|assumption];
          now apply (timeout_is_no_interval _ _ _ _ _ Hnd Hin Hrep Hc)|].
  split; [apply kept_clear; [|assumption];
          now apply (timeout_is_no_interval _ _ _ _ _ Hnd Hin Hrep Hco)|].
  split; assumption.
Qed.

Lemma consistent_stop_clear k : consistent k -> consistent (stop_clear k).
Proof.
  intros (Hwf & Hnd & Hb & Hu & Hc & Hco & Hi & Hcg).
  assert (Huc : forall id, c_update k = Some id -> c_cleanup k <> Some id).
  { intros id. apply (handles_differ PeriodicUpdateCb CleanupCb 30000
                        _ _ (c_timers k));
      [discriminate|apply Hu|exact Hc]. }
  assert (Huco : forall id, c_update k = Some id -> c_collect k <> Some id).
  { intros id. apply (handles_differ PeriodicUpdateCb CollectCb 5000
                        _ _ (c_timers k));
      [discriminate|apply Hu|exact Hco]. }
  assert (Hcco : forall id, c_cleanup k = Some id -> c_collect k <> Some id).
  { intros id. apply (handles_differ CleanupCb CollectCb 5000
                        _ _ (c_timers k));
      [discriminate|apply Hc|exact Hco]. }
  assert (Hbco : forall id, c_batch k = Some id -> c_collect k <> Some id).
  { intros id. apply (handles_differ ProcessBatchCb CollectCb 5000
                        _ _ (c_timers k));
      [discriminate|exact Hb|exact Hco]. }
  unfold consistent.
  cbn [stop_clear c_timers c_update c_batch c_cleanup
       c_collect c_collecting c_initialized c_period].
  split; [now repeat apply host_wf_clear_handle|].
  split; [now repeat apply nodup_clear_handle|].
  split; [apply names_none|].
  split; [do 2 apply kept_none_clear_handle; now apply kept_cleared|].
  split; [apply kept_none_clear_handle, kept_cleared;
          now apply kept_clear_handle|].
  split; [now repeat apply kept_clear_handle|].
  split; [tauto|assumption].
Qed.

Lemma consistent_update_armed k :
  consistent k -> c_initialized k = false -> consistent (update_armed k).
Proof.
  intros (Hwf & Hnd & Hb & Hu & Hc & Hco & Hi & Hcg) Hinit.
  apply Hi in Hinit. rewrite Hinit in Hu.
  unfold consistent.
  cbn [update_armed c_timers c_update c_batch c_cleanup
       c_collect c_collecting c_initialized c_period].
  split; [now apply host_wf_arm|]. split; [now apply nodup_arm|].
  split; [now apply names_arm|].
  split; [now apply kept_new|].
  split; [apply kept_arm; [assumption|discriminate|assumption]|].
  split; [apply kept_arm; [assumption|discriminate|assumption]|].
  split; [split; discriminate|assumption].
Qed.

Lemma consistent_collect_armed k :
  consistent k -> c_collecting k = false -> consistent (collect_armed k).
Proof.
  intros (Hwf & Hnd & Hb & Hu & Hc & Hco & Hi & Hcg) Hcol.
  apply Hcg in Hcol. rewrite Hcol in Hco.
  unfold consistent.
  cbn [collect_armed c_timers c_update c_batch c_cleanup
       c_collect c_collecting c_initialized c_period].
  split; [now apply host_wf_arm|]. split; [now apply nodup_arm|].
  split; [now apply names_arm|].
  split; [apply kept_arm; [assumption|discriminate|assumption]|].
  split; [apply kept_arm; [assumption|discriminate|assumption]|].
  split; [now apply kept_new|].
  split; [assumption|split; discriminate].
Qed.

Lemma record_batch_collecting batch : forall c,
  Collector.collectIntervalHandle (Hooks.record_batch batch c)
  = Collector.collectIntervalHandle c
  /\ Collector.isCollecting (Hooks.record_batch batch c)
     = Collector.isCollecting c.
Proof.
  unfold Hooks.record_batch.
  induction batch as [|r batch IH]; intros c; cbn [fold_left]; [now split|].
  destruct (IH (Collector.recordMessage (Hooks.nodeId r) (Hooks.nodeType r)
                  (Hooks.flowId r) c)) as [-> ->].
  now split.
Qed.

Lemma updateMetricsFromRealData_collecting c :
  Collector.collectIntervalHandle (fst (Collector.updateMetricsFromRealData c))
  = Collector.collectIntervalHandle c
  /\ Collector.isCollecting (fst (Collector.updateMetricsFromRealData c))
     = Collector.isCollecting c.
Proof.
  unfold Collector.updateMetricsFromRealData. cbv zeta. cbn [fst].
  destruct (_ >? 0); destruct (_ >? 0); now split.
Qed.

Ltac control_fields :=
  cbn [control_of with_c_batch with_c_initialized stop_clear update_armed
       collect_armed c_timers c_update c_batch c_cleanup c_collect
       c_collecting c_initialized c_period
       Hooks.timers Hooks.hooks Hooks.metricsCollector
       Hooks.with_batch Hooks.with_timing Hooks.with_intervals
       Hooks.with_initialized Hooks.with_hooks Hooks.with_collector
       Hooks.options Hooks.isInitialized Hooks.updateInterval
       Hooks.batchTimer Hooks.cleanupTimer Hooks.messageBatch
       Hooks.messageStartTimes].

Lemma processBatch_flush_step w :
  flush_step (control_of w) (control_of (Hooks.processBatch w)).
Proof.
  unfold Hooks.processBatch.
  destruct (Hooks.messageBatch (Hooks.hooks w)) as [|r q]; [now left|].
  cbv zeta.
  destruct (record_batch_collecting
              (firstn (Z.to_nat (batchSize (Hooks.options (Hooks.hooks w))))
                 (r :: q)) (Hooks.metricsCollector w)) as [E1 E2].
  destruct (skipn _ _) as [|r' q'].
  - right. left. unfold control_of, with_c_batch. control_fields.
    now rewrite E1, E2.
  - right. right.
    exists (flushInterval (Hooks.options (Hooks.hooks w))).
    unfold control_of, with_c_batch, setTimeout, arm. control_fields.
    cbn [snd fst]. now rewrite E1, E2.
Qed.

Lemma addToBatch_flush_step n ty f t w :
  flush_step (control_of w) (control_of (Hooks.addToBatch n ty f t w)).
Proof.
  unfold Hooks.addToBatch. cbv zeta.
  destruct (_ >=? _).
  - apply (processBatch_flush_step
             (Hooks.with_hooks
                (Hooks.with_batch
                   (Hooks.messageBatch (Hooks.hooks w) ++
                      [{| Hooks.nodeId := n; Hooks.nodeType := ty;
                          Hooks.flowId := f; Hooks.type := t |}])
                   (Hooks.batchTimer (Hooks.hooks w)) (Hooks.hooks w)) w)).
  - destruct (Hooks.batchTimer (Hooks.hooks w)) eqn:Hb.
    + left. unfold control_of. control_fields. now rewrite Hb.
    + right. right.
      exists (flushInterval (Hooks.options (Hooks.hooks w))).
      reflexivity.
Qed.

Lemma handleSendEvent_flush_step now g ev w :
  flush_step (control_of w) (control_of (Hooks.handleSendEvent now g ev w)).
Proof.
  unfold Hooks.handleSendEvent. cbv zeta.
  apply (addToBatch_flush_step (extract_id (source ev))
           (extract_type (source ev)) (extract_z (source ev)) Hooks.send
           (Hooks.with_collector
              (Collector.recordMessage (extract_id (source ev))
                 (extract_type (source ev)) (extract_z (source ev))
                 (Hooks.metricsCollector w)) w)).
Qed.

Lemma handleReceiveEvent_flush_step now g ev w :
  flush_step (control_of w)
    (control_of (Hooks.handleReceiveEvent now g ev w)).
Proof.
  unfold Hooks.handleReceiveEvent. cbv zeta.
  apply (addToBatch_flush_step (extract_id (destination ev))
           (extract_type (destination ev)) (extract_z (destination ev))
           Hooks.receive w).
Qed.

Lemma handleCompleteEvent_flush_step now ev w :
  flush_step (control_of w) (control_of (Hooks.handleCompleteEvent now ev w)).
Proof.
  assert (E : control_of (Hooks.handleCompleteEvent now ev w)
              = control_of (Hooks.addToBatch (extract_id (node ev))
                              (extract_type (node ev)) (extract_z (node ev))
                              Hooks.complete w)).
  { unfold Hooks.handleCompleteEvent. cbv zeta.
    destruct (map_get _ _ _) as [startTime|];
      [destruct (startTime =? 0)|]; destruct (error ev); reflexivity. }
  rewrite E. apply addToBatch_flush_step.
Qed.

Lemma calculateMessagesPerSecond_collecting c :
  Collector.collectIntervalHandle (Collector.calculateMessagesPerSecond c)
  = Collector.collectIntervalHandle c
  /\ Collector.isCollecting (Collector.calculateMessagesPerSecond c)
     = Collector.isCollecting c.
Proof. now split. Qed.

Lemma run_callback_flush_step now cb w :
  flush_step (control_of w) (control_of (Engine.run_callback now cb w)).
Proof.
  destruct cb; cbn [Engine.run_callback].
  - apply processBatch_flush_step.
  - now left.
  - left. unfold Hooks.collectNodeTypeMetrics, Hooks.collectFlowMetrics.
    unfold control_of. control_fields.
    destruct (updateMetricsFromRealData_collecting
                (fst (Collector.updateMetricsFromRealData
                        (Hooks.metricsCollector w)))) as [-> ->].
    destruct (updateMetricsFromRealData_collecting
                (Hooks.metricsCollector w)) as [-> ->].
    reflexivity.
  - now left.
Qed.

Lemma fire_consistent now id w :
  consistent (control_of w) -> consistent (control_of (Engine.fire now id w)).
Proof.
  intros H. unfold Engine.fire.
  destruct (find _ _) as [t|] eqn:Hfind; [|exact H].
  apply find_some in Hfind. destruct Hfind as [Hin Hid].
  apply Nat.eqb_eq in Hid. subst id.
  eapply consistent_flush_step; [|apply run_callback_flush_step].
  destruct (timer_repeats t) eqn:Hrep; [exact H|].
  exact (consistent_timeout_fired (control_of w) t H Hin Hrep).
Qed.

Lemma fire_frame now id w :
  let k := control_of w in
  let k' := control_of (Engine.fire now id w) in
  c_update k' = c_update k /\ c_cleanup k' = c_cleanup k
  /\ c_collect k' = c_collect k /\ c_collecting k' = c_collecting k
  /\ c_initialized k' = c_initialized k /\ c_period k' = c_period k.
Proof.
  cbv zeta. unfold Engine.fire.
  destruct (find _ _) as [t|]; [|now repeat split].
  set (w1 := if timer_repeats t then w else _).
  assert (E : forall k',
            flush_step (control_of w1) k' ->
            c_update k' = c_update (control_of w)
            /\ c_cleanup k' = c_cleanup (control_of w)
            /\ c_collect k' = c_collect (control_of w)
            /\ c_collecting k' = c_collecting (control_of w)
            /\ c_initialized k' = c_initialized (control_of w)
            /\ c_period k' = c_period (control_of w)).
  { intros k' [->|[->|[d ->]]]; subst w1; destruct (timer_repeats t);
      now repeat split. }
  apply E, run_callback_flush_step.
Qed.

Lemma flush_step_frame k k' :
  flush_step k k' ->
  c_update k' = c_update k /\ c_cleanup k' = c_cleanup k
  /\ c_collect k' = c_collect k /\ c_collecting k' = c_collecting k
  /\ c_initialized k' = c_initialized k /\ c_period k' = c_period k.
Proof. intros [->|[->|[d ->]]]; now repeat split. Qed.

Lemma stop_flush_step w :
  flush_step (stop_clear (control_of w)) (control_of (Hooks.stop w)).
Proof.
  unfold Hooks.stop. cbv zeta.
  set (w1 := {| Hooks.timers := _; Hooks.metricsCollector := _;
                Hooks.hooks := _ |}).
  apply (flush_step_initialized false _ _ (processBatch_flush_step w1)).
Qed.

Lemma stop_consistent w :
  consistent (control_of w) -> consistent (control_of (Hooks.stop w)).
Proof.
  intros H. eapply consistent_flush_step; [|apply stop_flush_step].
  now apply consistent_stop_clear.
Qed.

(** [init] of the engine: each of its two parts arms its interval, or does
    nothing when its flag is set. *)
Lemma hooks_init_control w :
  control_of (Hooks.init w)
  = if c_initialized (control_of w) then control_of w
    else update_armed (control_of w).
Proof.
  unfold Hooks.init. control_fields.
  destruct (Hooks.isInitialized (Hooks.hooks w)); reflexivity.
Qed.

Lemma engine_init_control w :
  control_of (Engine.init w)
  = let k := control_of (Hooks.init w) in
    if c_collecting k then k else collect_armed k.
Proof.
  unfold Engine.init, Collector.start. cbv zeta.
  destruct (Collector.isCollecting (Hooks.metricsCollector (Hooks.init w)))
    eqn:E.
  - unfold control_of at 1. control_fields. rewrite E.
    unfold control_of. control_fields. now rewrite E.
  - unfold control_of at 1. unfold control_of at 1.
    control_fields. rewrite E. reflexivity.
Qed.

Lemma init_consistent w :
  consistent (control_of w) -> consistent (control_of (Engine.init w)).
Proof.
  intros H. rewrite engine_init_control. cbv zeta.
  assert (H' : consistent (control_of (Hooks.init w))).
  { rewrite hooks_init_control.
    destruct (c_initialized (control_of w)) eqn:E; [exact H|].
    now apply consistent_update_armed. }
  destruct (c_collecting (control_of (Hooks.init w))) eqn:E; [exact H'|].
  now apply consistent_collect_armed.
Qed.

Lemma step_consistent w c :
  consistent (control_of w) -> consistent (control_of (call_step w c)).
Proof.
  intros H. destruct c as [|[now g ev|now g ev|now ev|now id|]];
    cbn [call_step Engine.step].
  - now apply init_consistent.
  - eapply consistent_flush_step; [exact H|apply handleSendEvent_flush_step].
  - eapply consistent_flush_step;
      [exact H|apply handleReceiveEvent_flush_step].
  - eapply consistent_flush_step;
      [exact H|apply handleCompleteEvent_flush_step].
  - now apply fire_consistent.
  - now apply stop_consistent.
Qed.

Lemma new_engine_consistent o : consistent (control_of (Engine.create o)).
Proof.
  assert (Hwf : host_wf host0) by constructor.
  assert (Hno : forall cb d, interval_kept cb d None host0).
  { intros cb d. split; [apply names_none|].
    split; [intros t []|intros id E; discriminate]. }
  assert (E : control_of (Engine.create o)
              = {| c_timers := snd (setInterval CleanupCb 30000 host0);
                   c_update := None; c_batch := None;
                   c_cleanup := Some (next_timer_id host0);
                   c_collect := None; c_collecting := false;
                   c_initialized := false;
                   c_period := collectInterval o |}) by reflexivity.
  rewrite E. unfold consistent.
  cbn [c_timers c_update c_batch c_cleanup c_collect c_collecting
       c_initialized c_period].
  split; [now apply host_wf_arm|].
  split; [apply nodup_arm; [assumption|constructor]|].
  split; [apply names_none|].
  split; [apply kept_arm; [assumption|discriminate|apply Hno]|].
  split; [apply kept_new; [assumption|apply Hno]|].
  split; [apply kept_arm; [assumption|discriminate|apply Hno]|].
  split; split; reflexivity.
Qed.

Lemma life_consistent o calls : consistent (control_of (life o calls)).
Proof.
  unfold life. generalize (new_engine_consistent o).
  generalize (Engine.create o).
  induction calls as [|c calls IH]; intros w H; [exact H|].
  cbn [fold_left]. apply IH. now apply step_consistent.
Qed.

Lemma step_frame w c :
  let k := control_of w in
  let k' := control_of (call_step w c) in
  c_cleanup k' = (if is_stop c then None else c_cleanup k)
  /\ c_collecting k' = (c_collecting k || is_init c)%bool
  /\ c_period k' = c_period k.
Proof.
  cbv zeta. destruct c as [|[now g ev|now g ev|now ev|now id|]];
    cbn [call_step Engine.step is_stop is_init];
    rewrite ?orb_false_r.
  - rewrite engine_init_control, hooks_init_control. cbv zeta.
    unfold control_of, update_armed, collect_armed. cbn.
    destruct (Hooks.isInitialized (Hooks.hooks w)); cbn;
      destruct (Collector.isCollecting (Hooks.metricsCollector w)); cbn;
      now repeat split.
  - destruct (flush_step_frame _ _ (handleSendEvent_flush_step now g ev w))
      as (_ & -> & _ & -> & _ & ->). now repeat split.
  - destruct (flush_step_frame _ _ (handleReceiveEvent_flush_step now g ev w))
      as (_ & -> & _ & -> & _ & ->). now repeat split.
  - destruct (flush_step_frame _ _ (handleCompleteEvent_flush_step now ev w))
      as (_ & -> & _ & -> & _ & ->). now repeat split.
  - destruct (fire_frame now id w) as (_ & -> & _ & -> & _ & ->).
    now repeat split.
  - destruct (flush_step_frame _ _ (stop_flush_step w))
      as (_ & -> & _ & -> & _ & ->). now repeat split.
Qed.

Lemma calls_frame calls : forall w,
  let k := control_of w in
  let k' := control_of (fold_left call_step calls w) in
  c_cleanup k' = (if existsb is_stop calls then None else c_cleanup k)
  /\ c_collecting k' = (c_collecting k || existsb is_init calls)%bool
  /\ c_period k' = c_period k.
Proof.
  induction calls as [|c calls IH]; intros w; cbv zeta.
  - cbn. rewrite orb_false_r. now repeat split.
  - cbn [fold_left existsb].
    destruct (IH (call_step w c)) as (-> & -> & ->).
    destruct (step_frame w c) as (-> & -> & ->).
    split; [now destruct (is_stop c), (existsb is_stop calls)|].
    split; [now rewrite orb_assoc|reflexivity].
Qed.

(** X20.  The sweep of the timing table runs from the construction of the
    engine to its first [stop()] and never again: before any stop exactly
    one interval of 30 s runs [cleanupTimingEntries], the one the
    constructor armed (the first timer of the host); from the first stop on
    none does, whatever follows, a new [init] included, since only the
    constructor calls [startCleanupTimer]. *)
Theorem sweep_ends_with_the_first_stop (o : Options) (calls : list call) :
  timers_running CleanupCb (Hooks.timers (life o calls))
  = if existsb is_stop calls then []
    else [interval_timer 1 CleanupCb 30000].
Proof.
  destruct (life_consistent o calls) as (_ & Hnd & _ & _ & Hc & _).
  change (Hooks.timers (life o calls))
    with (c_timers (control_of (life o calls))).
  rewrite (running_of_kept _ _ _ _ Hnd Hc).
  unfold life. destruct (calls_frame calls (Engine.create o)) as (-> & _).
  now destruct (existsb is_stop calls).
Qed.

(** X21.  [stop()] of the engine stops the hooks and leaves the collector
    running: from the first [init] on, in every later state and whatever
    stops and further inits there are, the collector is collecting and
    exactly one interval, of 5000 ms, runs the rate computation; before the
    first [init] none does. *)
Theorem collection_outlives_stop (o : Options) (calls : list call) :
  let w := life o calls in
  if existsb is_init calls
  then Collector.isCollecting (Hooks.metricsCollector w) = true
       /\ exists id,
            Collector.collectIntervalHandle (Hooks.metricsCollector w)
            = Some id
            /\ timers_running CollectCb (Hooks.timers w)
               = [interval_timer id CollectCb 5000]
  else Collector.isCollecting (Hooks.metricsCollector w) = false
       /\ timers_running CollectCb (Hooks.timers w) = [].
Proof.
  cbv zeta.
  destruct (life_consistent o calls) as (_ & Hnd & _ & _ & _ & Hco & _ & Hcg).
  pose proof (running_of_kept _ _ _ _ Hnd Hco) as Hrun.
  unfold life in *.
  destruct (calls_frame calls (Engine.create o)) as (_ & Hcol & _).
  change (c_collecting (control_of (Engine.create o))) with false in Hcol.
  cbn [orb] in Hcol.
  change (c_timers (control_of (fold_left call_step calls (Engine.create o))))
    with (Hooks.timers (fold_left call_step calls (Engine.create o)))
    in Hrun.
  change (c_collect (control_of (fold_left call_step calls (Engine.create o))))
    with (Collector.collectIntervalHandle
            (Hooks.metricsCollector
               (fold_left call_step calls (Engine.create o)))) in *.
  change (c_collecting
            (control_of (fold_left call_step calls (Engine.create o))))
    with (Collector.isCollecting
            (Hooks.metricsCollector
               (fold_left call_step calls (Engine.create o)))) in *.
  destruct (existsb is_init calls).
  - split; [exact Hcol|].
    destruct (Collector.collectIntervalHandle _) as [id|].
    + now exists id.
    + destruct Hcg as [Hcg _]. specialize (Hcg eq_refl). congruence.
  - split; [exact Hcol|].
    destruct Hcg as [_ Hcg]. rewrite (Hcg Hcol) in Hrun. exact Hrun.
Qed.


(** ** The further properties on examples *)

Lemma events_are_accounted_for_witness :
  let w := Engine.run (Engine.init (Engine.create default_options))
             busy_actions in
  counter_of "n1:inject:f1" w + queued "n1:inject:f1" w
  = contributions "n1:inject:f1" busy_actions.
Proof.
  exact (events_are_accounted_for default_options busy_actions "n1:inject:f1"
           ltac:(vm_compute; discriminate)).
Defined.

Lemma queued_records_have_a_flush_timer_witness :
  let w := Engine.run (Engine.init (Engine.create default_options))
             waiting_actions in
  match Hooks.messageBatch (Hooks.hooks w) with
  | [] => Hooks.batchTimer (Hooks.hooks w) = None
  | _ :: _ =>
      exists id, Hooks.batchTimer (Hooks.hooks w) = Some id
                 /\ flush_pending id (Hooks.timers w)
  end.
Proof.
  exact (queued_records_have_a_flush_timer default_options waiting_actions
           ltac:(vm_compute; discriminate)).
Defined.

Lemma a_flush_leaves_no_backlog_witness :
  let w := Engine.run (Engine.init (Engine.create default_options))
             waiting_actions in
  Hooks.messageBatch (Hooks.hooks (Hooks.processBatch w)) = []
  /\ Hooks.batchTimer (Hooks.hooks (Hooks.processBatch w)) = None
  /\ Hooks.timers (Hooks.processBatch w) = Hooks.timers w
  /\ Hooks.metricsCollector (Hooks.processBatch w)
     = Hooks.record_batch (Hooks.messageBatch (Hooks.hooks w))
         (Hooks.metricsCollector w).
Proof.
  exact (a_flush_leaves_no_backlog default_options waiting_actions
           ltac:(vm_compute; discriminate)).
Defined.

Lemma completion_records_the_elapsed_time_witness :
  let l := Collector.labels_of "n1" "inject" "f1" in
  let w' := Hooks.handleCompleteEvent (t0 + 120) complete_m1
              (Hooks.handleReceiveEvent t0 "g" (receive_of "m1")
                 fresh_engine) in
  map_get labels_dec l
    (Collector.nodeExecutionTime (Hooks.metricsCollector w'))
  = Some [Qmake 120 1000]
  /\ map_get string_dec "n1_m1"%string
       (Hooks.messageStartTimes (Hooks.hooks w')) = None.
Proof.
  exact (completion_records_the_elapsed_time t0 (t0 + 120) "g"
           (receive_of "m1") complete_m1 fresh_engine eq_refl
           ltac:(vm_compute; discriminate)).
Defined.

Lemma completion_without_begin_records_nothing_witness :
  let w' := Hooks.handleCompleteEvent t0 complete_m1 fresh_engine in
  Collector.nodeExecutionTime (Hooks.metricsCollector w')
  = Collector.nodeExecutionTime (Hooks.metricsCollector fresh_engine)
  /\ Hooks.messageStartTimes (Hooks.hooks w')
     = Hooks.messageStartTimes (Hooks.hooks fresh_engine).
Proof.
  exact (completion_without_begin_records_nothing t0 complete_m1 fresh_engine
           (or_introl eq_refl)).
Defined.

Lemma sweep_is_idempotent_witness :
  let h' := Hooks.cleanupTimingEntries 1000 three_begun in
  Hooks.cleanupTimingEntries 1000 h' = h'
  /\ (List.length (Hooks.messageStartTimes h')
      < List.length (Hooks.messageStartTimes three_begun))%nat.
Proof.
  exact (sweep_is_idempotent 1000 three_begun
           ltac:(vm_compute; discriminate)).
Defined.

Lemma later_key_owns_the_gauge_witness :
  let c' := Collector.calculateMessagesPerSecond colliding_flows in
  map_get labels_dec (Some "n1", Some "inject", Some "f1")%string
    (Collector.messagesPerSecond c') = Some (Qmake 2 5)
  /\ map_get string_dec "n1:inject:f1:b"%string
       (Collector.lastMessageCounts c') = Some 2.
Proof.
  refine (later_key_owns_the_gauge colliding_flows
            [("n1:inject:f1:a"%string, 1)] [] "n1:inject:f1:b" 2
            eq_refl _ _).
  - vm_compute. repeat constructor; simpl; intuition discriminate.
  - simpl. tauto.
Defined.

Lemma idle_tick_reports_zero_witness :
  let c1 := Collector.calculateMessagesPerSecond sampled_50_then_80 in
  let c2 := Collector.calculateMessagesPerSecond c1 in
  map_get labels_dec (parse_key "n1:inject:f1")
    (Collector.messagesPerSecond c2) = Some (Qmake 0 5)
  /\ map_get string_dec "n1:inject:f1"%string
       (Collector.lastMessageCounts c2) = Some 80
  /\ map_get string_dec "n1:inject:f1"%string
       (Collector.lastMessageCounts c1) = Some 80.
Proof.
  refine (idle_tick_reports_zero sampled_50_then_80 "n1:inject:f1" 80 _ _).
  - vm_compute. repeat constructor; simpl; intuition discriminate.
  - vm_compute. reflexivity.
Defined.

Lemma colon_in_a_field_shifts_the_key_witness :
  metricKey "n1:x" "inject" "f1" = metricKey "n1" "x:inject" "f1"
  /\ parse_key (metricKey "n1:x" "inject" "f1")
     = (Some "n1", Some "x", Some "inject")%string
  /\ get_or0 string_dec (metricKey "n1" "x:inject" "f1")
       (Collector.messageCounters
          (Collector.recordMessage "n1:x" "inject" "f1"
             (Collector.create default_options)))
     = get_or0 string_dec (metricKey "n1" "x:inject" "f1")
         (Collector.messageCounters (Collector.create default_options)) + 1.
Proof.
  exact (colon_in_a_field_shifts_the_key "n1" "x" "inject" "f1"
           (Collector.create default_options) eq_refl eq_refl eq_refl).
Defined.


Lemma events_after_stop_are_still_handled_witness :
  let s := Hooks.stop three_received in
  let w' := Hooks.handleReceiveEvent (t0 + 5) "g" (receive_of "m4") s in
  Hooks.isInitialized (Hooks.hooks s) = false
  /\ List.length (Hooks.messageBatch (Hooks.hooks w')) = 1%nat
  /\ Hooks.batchTimer (Hooks.hooks w') = Some (next_timer_id (Hooks.timers s))
  /\ flush_pending (next_timer_id (Hooks.timers s)) (Hooks.timers w')
  /\ Hooks.messageStartTimes (Hooks.hooks w')
     = [(timingKey (extract_id (destination (receive_of "m4")))
           (or_default (receive_msgid (receive_of "m4")) "g"), t0 + 5)].
Proof.
  refine (events_after_stop_are_still_handled (t0 + 5) "g" (receive_of "m4")
            three_received _ _).
  - vm_compute. split; [discriminate|reflexivity].
  - vm_compute. reflexivity.
Defined.

Lemma exported_and_internal_counter_agree_witness :
  let c := record_all (n1_calls 3) (Collector.create default_options) in
  get_or0 labels_dec (Collector.labels_of "n1" "inject" "f1")
    (Collector.messagesTotal c)
  = get_or0 string_dec (metricKey "n1" "inject" "f1")
      (Collector.messageCounters c).
Proof.
  refine (exported_and_internal_counter_agree default_options (n1_calls 3)
            "n1" "inject" "f1" _ _).
  - repeat constructor.
  - repeat constructor.
Defined.

Lemma first_tick_reports_the_count_witness :
  let c := Collector.calculateMessagesPerSecond
             (record_all (n1_calls 3) (Collector.create default_options)) in
  map_get labels_dec (Collector.labels_of "n1" "inject" "f1")
    (Collector.messagesPerSecond c)
  = Some (Qmake
            (Z.of_nat (calls_with_key (metricKey "n1" "inject" "f1")
                         (n1_calls 3))) 5).
Proof.
  refine (first_tick_reports_the_count default_options (n1_calls 3)
            "n1" "inject" "f1" _ _).
  - repeat constructor.
  - now left.
Defined.
